(** * Metadata catalog: lineage graph engine, lineage orchestration,
      tiered search ranking and dataset creation.

    A shallow embedding of
      - app/utils/graph.py                  (module [Graph])
      - the [str] and [list] methods used   (module [PyStr])
      - app/models/orm.py, app/exceptions.py and the store behind the
        session                             (module [Orm])
      - app/schemas/dataset.py              (module [Schemas])
      - app/services/dataset_service.py     (module [DatasetService])
      - app/services/lineage_service.py     (module [LineageService])
      - app/routers/lineage.py              (module [LineageRouter])
      - app/services/search_service.py      (module [SearchService])
      - app/routers/search.py               (module [SearchRouter])
    followed by the properties proved about them (modules [GraphFacts],
    [PyStrFacts], [SearchFacts], [LineageFacts], [RouterFacts],
    [DatasetFacts]) and the scenarios of the test suite run on the
    embedding (module [Scenarios]). *)

From Stdlib Require Import ZArith Lia.
From Stdlib Require Ascii String.
From Equations Require Import Equations.
From stdpp Require Import gmap strings list fin_maps relations sorting.

Set Warnings "-clear-no-such-hyp".

Local Open Scope Z_scope.

(* ===================================================================== *)
(** * app/utils/graph.py                                                  *)
(* ===================================================================== *)

Module Graph.

(** [Dict[int, Set[int]]]: dataset id -> set of direct downstream ids. *)
Abbreviation adjacency := (gmap Z (gset Z)).

(** [adjacency.get(node, set())]. *)
Definition neighbours (adj : adjacency) (node : Z) : gset Z :=
  default ∅ (adj !! node).

(** The two local variables of the traversal loop.  The Python list
    [stack] is used only through [append] and [pop], both at its end; the
    head of the Rocq list is that end. *)
Record dfs_state := DfsState { visited : gset Z; stack : list Z }.

(** One pass through the body of [while stack:] either leaves the function
    with a value or goes round again with new locals. *)
Inductive dfs_outcome :=
| Return (b : bool)
| Continue (st : dfs_state).

(** [for neighbour in nbrs: if neighbour not in visited: stack.append(neighbour)] *)
Definition push_unvisited (vis : gset Z) (stk : list Z) (nbrs : list Z) : list Z :=
  fold_left (fun s nb => if decide (nb ∈ vis) then s else nb :: s) nbrs stk.

(** The loop test and the loop body.  A Python set is iterated in an
    unspecified order; [elements] fixes one, and nothing below depends on
    which. *)
Definition dfs_step (upstream_id : Z) (adj : adjacency) (st : dfs_state) : dfs_outcome :=
  match stack st with
  | [] => Return false
  | node :: rest =>
      if decide (node = upstream_id) then Return true
      else if decide (node ∈ visited st) then Continue (DfsState (visited st) rest)
      else
        let vis := {[node]} ∪ visited st in
        Continue (DfsState vis (push_unvisited vis rest (elements (neighbours adj node))))
  end.

(** Number of (node, neighbour) entries of the map whose node is not yet
    visited: an upper bound on the pushes still to come. *)
Definition pending (adj : adjacency) (vis : gset Z) : nat :=
  sum_list_with (fun kv => if decide (kv.1 ∈ vis) then 0%nat else size kv.2)
                (map_to_list adj).

Definition dfs_measure (adj : adjacency) (st : dfs_state) : nat :=
  (length (stack st) + pending adj (visited st))%nat.

Lemma pending_list_mono (vis vis' : gset Z) (l : list (Z * gset Z)) :
  vis ⊆ vis' →
  (sum_list_with (fun kv => if decide (kv.1 ∈ vis') then 0%nat else size kv.2) l
   ≤ sum_list_with (fun kv => if decide (kv.1 ∈ vis) then 0%nat else size kv.2) l)%nat.
Proof.
  intros Hsub. induction l as [|kv l IH]; simpl; [lia|].
  repeat case_decide; try lia. exfalso. set_solver.
Qed.

Lemma pending_visit (adj : adjacency) (vis : gset Z) (node : Z) :
  node ∉ vis →
  (pending adj ({[node]} ∪ vis) + size (neighbours adj node) ≤ pending adj vis)%nat.
Proof.
  intros Hnode. unfold neighbours, pending.
  assert (Hsub : vis ⊆ {[node]} ∪ vis) by set_solver.
  destruct (adj !! node) as [s|] eqn:Hs; cbn [default].
  - apply elem_of_map_to_list in Hs.
    apply list_elem_of_split in Hs as (l1 & l2 & ->).
    rewrite !sum_list_with_app. cbn [sum_list_with fst snd].
    rewrite decide_True by set_solver. rewrite decide_False by done.
    pose proof (pending_list_mono _ _ l1 Hsub).
    pose proof (pending_list_mono _ _ l2 Hsub). unfold id. lia.
  - pose proof (pending_list_mono _ _ (map_to_list adj) Hsub).
    rewrite size_empty. lia.
Qed.

Lemma push_unvisited_length (vis : gset Z) (nbrs stk : list Z) :
  (length (push_unvisited vis stk nbrs) ≤ length stk + length nbrs)%nat.
Proof.
  unfold push_unvisited. revert stk.
  induction nbrs as [|nb nbrs IH]; intros stk; simpl; [lia|].
  case_decide; specialize (IH (if decide (nb ∈ vis) then stk else nb :: stk));
    [rewrite decide_True in IH by done | rewrite decide_False in IH by done];
    simpl in IH; lia.
Qed.

(** Every pass that goes round again strictly lowers [dfs_measure]. *)
Lemma dfs_step_decreases (upstream_id : Z) (adj : adjacency) (st st' : dfs_state) :
  dfs_step upstream_id adj st = Continue st' →
  (dfs_measure adj st' < dfs_measure adj st)%nat.
Proof.
  unfold dfs_step, dfs_measure. destruct st as [vis [|node rest]]; simpl; [done|].
  repeat case_decide; intros [= <-]; simpl; [lia|].
  pose proof (push_unvisited_length ({[node]} ∪ vis)
                (elements (neighbours adj node)) rest) as Hlen.
  pose proof (pending_visit adj vis node ltac:(done)) as Hpen.
  change (length (elements (neighbours adj node))) with (size (neighbours adj node)) in Hlen.
  lia.
Qed.

(** [while stack: ...], by well-founded recursion on [dfs_measure]. *)
Equations? dfs_loop (upstream_id : Z) (adj : adjacency) (st : dfs_state) : bool
  by wf (dfs_measure adj st) lt :=
  dfs_loop upstream_id adj st with Equations.Prop.Logic.inspect (dfs_step upstream_id adj st) := {
    | exist _ (Return b) _ => b
    | exist _ (Continue st') Hstep => dfs_loop upstream_id adj st' }.
Proof. eapply dfs_step_decreases; eauto. Qed.

(** [would_create_cycle(upstream_id, downstream_id, adjacency)]. *)
Definition would_create_cycle (upstream_id downstream_id : Z) (adj : adjacency) : bool :=
  if decide (upstream_id = downstream_id) then true
  else dfs_loop upstream_id adj (DfsState ∅ [downstream_id]).

(** [adj.setdefault(u, set()).add(d)]. *)
Definition add_edge (adj : adjacency) (e : Z * Z) : adjacency :=
  <[e.1 := {[e.2]} ∪ default ∅ (adj !! e.1)]> adj.

(** [build_adjacency(edges)]: both accepted shapes of an edge, a 2-tuple
    and an object with [upstream_id] and [downstream_id], are read as the
    pair (upstream id, downstream id). *)
Definition build_adjacency (edges : list (Z * Z)) : adjacency :=
  fold_left add_edge edges ∅.

End Graph.

(* ===================================================================== *)
(** * Python [str] methods used by the schemas and services               *)
(* ===================================================================== *)

(** A Python [str] is a [string] whose characters stand for code points.
    The methods below are those of [str] on text in the ASCII range; on
    that range comparison of code points is comparison of characters. *)
Module PyStr.

Definition code (c : Ascii.ascii) : N := Ascii.N_of_ascii c.

(** [c.isspace()]: tab, line feed, vertical tab, form feed, carriage
    return, the four separators 0x1c to 0x1f, and space. *)
Definition isspace (c : Ascii.ascii) : bool :=
  ((9 <=? code c) && (code c <=? 13) || (28 <=? code c) && (code c <=? 32))%N.

Definition isupper (c : Ascii.ascii) : bool := ((65 <=? code c) && (code c <=? 90))%N.
Definition islower (c : Ascii.ascii) : bool := ((97 <=? code c) && (code c <=? 122))%N.

Definition lower_char (c : Ascii.ascii) : Ascii.ascii :=
  if isupper c then Ascii.ascii_of_N (code c + 32) else c.
Definition upper_char (c : Ascii.ascii) : Ascii.ascii :=
  if islower c then Ascii.ascii_of_N (code c - 32) else c.

Fixpoint map_chars (f : Ascii.ascii → Ascii.ascii) (s : string) : string :=
  match s with
  | EmptyString => EmptyString
  | String c s' => String (f c) (map_chars f s')
  end.

(** [s.lower()] and [s.upper()]. *)
Definition lower : string → string := map_chars lower_char.
Definition upper : string → string := map_chars upper_char.

(** [s.lstrip()], [s.rstrip()] and [s.strip()]. *)
Fixpoint lstrip (s : string) : string :=
  match s with
  | EmptyString => EmptyString
  | String c s' => if isspace c then lstrip s' else s
  end.

Fixpoint rstrip (s : string) : string :=
  match s with
  | EmptyString => EmptyString
  | String c s' =>
      match rstrip s' with
      | EmptyString => if isspace c then EmptyString else String c EmptyString
      | r => String c r
      end
  end.

Definition strip (s : string) : string := rstrip (lstrip s).

(** [len(s)]. *)
Definition len (s : string) : Z := Z.of_nat (String.length s).

(** [l[:stop]] for an [int] stop: a negative stop counts from the end. *)
Definition slice_to {A} (l : list A) (stop : Z) : list A :=
  if 0 <=? stop then take (Z.to_nat stop) l
  else take (Z.to_nat (Z.of_nat (length l) + stop)) l.

(** [l.sort(key=key)] where the keys are compared by [le]: a stable sort,
    written as insertion from the right so that of two items with equal
    keys the one that came first stays first. *)
Section sort.
Context {A K : Type} (le : K → K → bool) (key : A → K).

Fixpoint insert_by (x : A) (l : list A) : list A :=
  match l with
  | [] => [x]
  | y :: l' => if le (key x) (key y) then x :: l else y :: insert_by x l'
  end.

Definition sort_by (l : list A) : list A := foldr insert_by [] l.
End sort.

End PyStr.

(* ===================================================================== *)
(** * app/models/orm.py and the record store behind the session           *)
(* ===================================================================== *)

Module Orm.

Inductive SourceSystem := MYSQL | MSSQL | POSTGRESQL | SNOWFLAKE | BIGQUERY | OTHER.

(** Rows of the three tables.  The [created_at] and [updated_at] columns,
    filled by the server clock, are left out. *)
Module Dataset.
Record t := {
  id : Z;
  fqn : string;
  connection_name : string;
  database_name : string;
  schema_name : string;
  table_name : string;
  source_system : SourceSystem;
  description : option string }.
End Dataset.

Module DatasetColumn.
Record t := {
  id : Z;
  dataset_id : Z;
  name : string;
  data_type : string;
  description : option string }.

(** A column object as the service constructs it, before the flush gives
    it a primary key and the key of its dataset. *)
Record transient := {
  new_name : string;
  new_data_type : string;
  new_description : option string }.
End DatasetColumn.

Module Lineage.
Record t := {
  id : Z;
  upstream_id : Z;
  downstream_id : Z }.
End Lineage.

(** The tables in row order, and the autoincrement counters of their
    primary keys.  A query without ORDER BY lists the rows it selects in
    the order of the table. *)
Record database := {
  datasets : list Dataset.t;
  dataset_columns : list DatasetColumn.t;
  lineage : list Lineage.t;
  next_dataset_id : Z;
  next_column_id : Z;
  next_lineage_id : Z }.

(** The relationships [Dataset.columns], [Dataset.upstream_edges],
    [Dataset.downstream_edges], [Lineage.upstream], [Lineage.downstream]. *)
Definition columns (db : database) (ds : Dataset.t) : list DatasetColumn.t :=
  filter (fun c => DatasetColumn.dataset_id c = Dataset.id ds) (dataset_columns db).

Definition upstream_edges (db : database) (ds : Dataset.t) : list Lineage.t :=
  filter (fun e => Lineage.downstream_id e = Dataset.id ds) (lineage db).

Definition downstream_edges (db : database) (ds : Dataset.t) : list Lineage.t :=
  filter (fun e => Lineage.upstream_id e = Dataset.id ds) (lineage db).

Definition dataset_by_id (db : database) (i : Z) : option Dataset.t :=
  List.find (fun ds => Dataset.id ds =? i) (datasets db).

Definition upstream (db : database) (e : Lineage.t) : option Dataset.t :=
  dataset_by_id db (Lineage.upstream_id e).

Definition downstream (db : database) (e : Lineage.t) : option Dataset.t :=
  dataset_by_id db (Lineage.downstream_id e).

(** The exceptions of app/exceptions.py, and the store's own error for a
    violated constraint. *)
Inductive error :=
| NotFoundError (msg : string)
| ConflictError (msg : string)
| CycleError (msg : string)
| IntegrityError (constraint : string).

Inductive result (A : Type) :=
| Ok (a : A)
| Raise (e : error).
Arguments Ok {A} a.
Arguments Raise {A} e.

(** Statements sent to the store, in the order they were sent. *)
Inductive statement :=
| SelectDatasetByFqn (f : string)
| SelectLineageEdge (u d : Z)
| SelectAllLineage
| InsertLineage (u d : Z)
| DeleteLineage (i : Z)
| InsertDataset (f : string).

(** [db: Session]: the store and the statements seen so far. *)
Record session := Session { store : database; statements : list statement }.

(** A service function: runs against a session, returns or raises. *)
Definition M (A : Type) : Type := session → result A * session.

Definition ret {A} (a : A) : M A := fun s => (Ok a, s).
Definition raise {A} (e : error) : M A := fun s => (Raise e, s).
Definition bind {A B} (m : M A) (k : A → M B) : M B :=
  fun s => match m s with
           | (Ok a, s') => k a s'
           | (Raise e, s') => (Raise e, s')
           end.

(** A query: the store is read and the statement recorded. *)
Definition execute {A} (st : statement) (read : database → A) : M A :=
  fun s => (Ok (read (store s)), Session (store s) (statements s ++ [st])).

(** The first row a query for a dataset by FQN, or for an edge by its two
    ends, finds. *)
Definition find_dataset_by_fqn (db : database) (f : string) : option Dataset.t :=
  List.find (fun ds => String.eqb (Dataset.fqn ds) f) (datasets db).

Definition find_lineage_edge (db : database) (u d : Z) : option Lineage.t :=
  List.find (fun e => (Lineage.upstream_id e =? u) && (Lineage.downstream_id e =? d))
            (lineage db).

(** [db.scalar(select(Dataset).where(Dataset.fqn == fqn))] *)
Definition select_dataset_by_fqn (f : string) : M (option Dataset.t) :=
  execute (SelectDatasetByFqn f) (fun db => find_dataset_by_fqn db f).

(** [db.scalar(select(Lineage).where(Lineage.upstream_id == u,
    Lineage.downstream_id == d))] *)
Definition select_lineage_edge (u d : Z) : M (option Lineage.t) :=
  execute (SelectLineageEdge u d) (fun db => find_lineage_edge db u d).

(** [db.scalars(select(Lineage)).all()] *)
Definition select_all_lineage : M (list Lineage.t) :=
  execute SelectAllLineage lineage.

(** [db.add(edge); db.commit(); db.refresh(edge)] for a new [Lineage]
    object; the table's constraint [uq_lineage_edge] is checked by the
    store. *)
Definition insert_lineage (u d : Z) : M Lineage.t :=
  fun s =>
    let db := store s in
    let log := statements s ++ [InsertLineage u d] in
    if find_lineage_edge db u d is Some _
    then (Raise (IntegrityError "uq_lineage_edge"), Session db log)
    else
      let edge := {| Lineage.id := next_lineage_id db;
                     Lineage.upstream_id := u;
                     Lineage.downstream_id := d |} in
      (Ok edge,
       Session {| datasets := datasets db;
                  dataset_columns := dataset_columns db;
                  lineage := lineage db ++ [edge];
                  next_dataset_id := next_dataset_id db;
                  next_column_id := next_column_id db;
                  next_lineage_id := next_lineage_id db + 1 |} log).

(** [db.delete(edge); db.commit()]: the row with the primary key of
    [edge] goes. *)
Definition delete_lineage (edge : Lineage.t) : M unit :=
  fun s =>
    let db := store s in
    (Ok tt,
     Session {| datasets := datasets db;
                dataset_columns := dataset_columns db;
                lineage := filter (fun e => Lineage.id e ≠ Lineage.id edge) (lineage db);
                next_dataset_id := next_dataset_id db;
                next_column_id := next_column_id db;
                next_lineage_id := next_lineage_id db |}
             (statements s ++ [DeleteLineage (Lineage.id edge)])).

Definition names_distinct (cols : list DatasetColumn.transient) : bool :=
  bool_decide (NoDup (DatasetColumn.new_name <$> cols)).

(** [db.add(dataset); db.commit(); db.refresh(dataset)] for a new
    [Dataset] object carrying new column objects.  The store checks the
    unique index on [datasets.fqn] and the constraint
    [uq_column_dataset_name], and numbers the new rows. *)
Definition insert_dataset
    (f conn dbn sch tbl : string) (src : SourceSystem) (descr : option string)
    (cols : list DatasetColumn.transient) : M Dataset.t :=
  fun s =>
    let db := store s in
    let log := statements s ++ [InsertDataset f] in
    if find_dataset_by_fqn db f is Some _
    then (Raise (IntegrityError "ix_datasets_fqn"), Session db log)
    else if negb (names_distinct cols)
    then (Raise (IntegrityError "uq_column_dataset_name"), Session db log)
    else
      let dataset := {| Dataset.id := next_dataset_id db;
                        Dataset.fqn := f;
                        Dataset.connection_name := conn;
                        Dataset.database_name := dbn;
                        Dataset.schema_name := sch;
                        Dataset.table_name := tbl;
                        Dataset.source_system := src;
                        Dataset.description := descr |} in
      let rows := imap (fun i c =>
                    {| DatasetColumn.id := next_column_id db + Z.of_nat i;
                       DatasetColumn.dataset_id := next_dataset_id db;
                       DatasetColumn.name := DatasetColumn.new_name c;
                       DatasetColumn.data_type := DatasetColumn.new_data_type c;
                       DatasetColumn.description := DatasetColumn.new_description c |})
                    cols in
      (Ok dataset,
       Session {| datasets := datasets db ++ [dataset];
                  dataset_columns := dataset_columns db ++ rows;
                  lineage := lineage db;
                  next_dataset_id := next_dataset_id db + 1;
                  next_column_id := next_column_id db + Z.of_nat (length cols);
                  next_lineage_id := next_lineage_id db |} log).

End Orm.

Notation "x <-- m ;; k" := (Orm.bind m (fun x => k))
  (at level 100, m at next level, right associativity, only parsing).

(* ===================================================================== *)
(** * app/schemas/dataset.py                                              *)
(* ===================================================================== *)

Module Schemas.
Import PyStr Orm.

(** One entry of a validation error. *)
Inductive issue :=
| StringTooShort (field : string)
| StringTooLong (field : string)
| NumberTooSmall (field : string)
| NumberTooLarge (field : string)
| ValueError (msg : string).

(** [Field(min_length=lo, max_length=hi)] on a [str] field. *)
Definition check_length (field : string) (lo : option Z) (hi : Z) (v : string) : list issue :=
  (if lo is Some n then if len v <? n then [StringTooShort field] else [] else [])
  ++ (if hi <? len v then [StringTooLong field] else []).

Definition check_optional (field : string) (hi : Z) (v : option string) : list issue :=
  if v is Some d then check_length field None hi d else [].

Module ColumnBase.
(** The fields as they arrive; [data_type] may be absent. *)
Record input := {
  in_name : string;
  in_data_type : option string;
  in_description : option string }.

Record t := {
  name : string;
  data_type : string;
  description : option string }.

Definition strip_name (v : string) : string := strip v.

Definition validate (r : input) : list issue + t :=
  let name := strip_name (in_name r) in
  let data_type := default "STRING" (in_data_type r) in
  match check_length "name" (Some 1) 128 name
        ++ check_length "data_type" None 64 data_type
        ++ check_optional "description" 512 (in_description r) with
  | [] => inr {| name := name; data_type := data_type; description := in_description r |}
  | issues => inl issues
  end.
End ColumnBase.

(** Validation of a list field: every item is validated, and the issues
    of all items are reported together. *)
Fixpoint validate_list {I T} (validate : I → list issue + T) (l : list I)
  : list issue + list T :=
  match l with
  | [] => inr []
  | x :: l' =>
      match validate x, validate_list validate l' with
      | inr v, inr vs => inr (v :: vs)
      | inl e, inr _ => inl e
      | inr _, inl es => inl es
      | inl e, inl es => inl (e ++ es)
      end
  end.

Module DatasetCreate.
Record input := {
  in_connection_name : string;
  in_database_name : string;
  in_schema_name : string;
  in_table_name : string;
  in_source_system : option SourceSystem;
  in_description : option string;
  in_columns : list ColumnBase.input }.

Record t := {
  connection_name : string;
  database_name : string;
  schema_name : string;
  table_name : string;
  source_system : SourceSystem;
  description : option string;
  columns : list ColumnBase.t }.

Definition normalize_component (v : string) : string := lower (strip v).

Definition fqn (self : t) : string :=
  connection_name self +:+ "." +:+ database_name self +:+ "."
    +:+ schema_name self +:+ "." +:+ table_name self.

Definition validate (r : input) : list issue + t :=
  let connection_name := normalize_component (in_connection_name r) in
  let database_name := normalize_component (in_database_name r) in
  let schema_name := normalize_component (in_schema_name r) in
  let table_name := normalize_component (in_table_name r) in
  let issues :=
    check_length "connection_name" (Some 1) 128 connection_name
    ++ check_length "database_name" (Some 1) 128 database_name
    ++ check_length "schema_name" (Some 1) 128 schema_name
    ++ check_length "table_name" (Some 1) 128 table_name
    ++ check_optional "description" 1024 (in_description r) in
  match issues, validate_list ColumnBase.validate (in_columns r) with
  | [], inr columns =>
      inr {| connection_name := connection_name;
             database_name := database_name;
             schema_name := schema_name;
             table_name := table_name;
             source_system := default OTHER (in_source_system r);
             description := in_description r;
             columns := columns |}
  | _, inl column_issues => inl (issues ++ column_issues)
  | _, inr _ => inl issues
  end.
End DatasetCreate.

Module LineageCreate.
Record t := {
  upstream_fqn : string;
  downstream_fqn : string }.

(** [@model_validator(mode="after")] *)
Definition check_not_self_loop (self : t) : list issue + t :=
  if String.eqb (upstream_fqn self) (downstream_fqn self)
  then inl [ValueError "upstream_fqn and downstream_fqn must be different datasets."]
  else inr self.

(** The field constraints first; the model validator runs only on a
    payload whose fields are valid. *)
Definition validate (r : t) : list issue + t :=
  match check_length "upstream_fqn" (Some 1) 512 (upstream_fqn r)
        ++ check_length "downstream_fqn" (Some 1) 512 (downstream_fqn r) with
  | [] => check_not_self_loop r
  | issues => inl issues
  end.
End LineageCreate.

Module LineageNodeResponse.
Record t := {
  fqn : string;
  source_system : SourceSystem;
  description : option string }.

Definition model_validate (ds : Dataset.t) : t :=
  {| fqn := Dataset.fqn ds;
     source_system := Dataset.source_system ds;
     description := Dataset.description ds |}.
End LineageNodeResponse.

Module ColumnResponse.
Record t := {
  id : Z;
  name : string;
  data_type : string;
  description : option string }.

Definition model_validate (c : DatasetColumn.t) : t :=
  {| id := DatasetColumn.id c;
     name := DatasetColumn.name c;
     data_type := DatasetColumn.data_type c;
     description := DatasetColumn.description c |}.
End ColumnResponse.

Module DatasetResponse.
Record t := {
  fqn : string;
  connection_name : string;
  database_name : string;
  schema_name : string;
  table_name : string;
  source_system : SourceSystem;
  description : option string;
  columns : list ColumnResponse.t }.

Definition model_validate (db : database) (ds : Dataset.t) : t :=
  {| fqn := Dataset.fqn ds;
     connection_name := Dataset.connection_name ds;
     database_name := Dataset.database_name ds;
     schema_name := Dataset.schema_name ds;
     table_name := Dataset.table_name ds;
     source_system := Dataset.source_system ds;
     description := Dataset.description ds;
     columns := ColumnResponse.model_validate <$> Orm.columns db ds |}.
End DatasetResponse.

(** The four values [match_type] takes, the constants of
    [SearchMatchType]. *)
Inductive SearchMatchType := TABLE_NAME | COLUMN_NAME | SCHEMA_NAME | DATABASE_NAME.

Module SearchResultItem.
Record t := {
  dataset : DatasetResponse.t;
  match_type : SearchMatchType;
  matched_on : string;
  priority : Z;
  upstream_datasets : list LineageNodeResponse.t;
  downstream_datasets : list LineageNodeResponse.t }.
End SearchResultItem.

Module SearchResponse.
Record t := {
  query : string;
  total : Z;
  results : list SearchResultItem.t }.
End SearchResponse.

End Schemas.

(* ===================================================================== *)
(** * app/services/dataset_service.py                                     *)
(* ===================================================================== *)

Module DatasetService.
Import PyStr Orm Schemas.

Definition get_dataset_by_fqn (fqn : string) : M (option Dataset.t) :=
  select_dataset_by_fqn fqn.

Definition create_dataset (payload : DatasetCreate.t) : M Dataset.t :=
  let fqn := DatasetCreate.fqn payload in
  existing <-- get_dataset_by_fqn fqn ;;
  match existing with
  | Some _ => raise (ConflictError ("Dataset '" +:+ fqn +:+ "' already exists."))
  | None =>
      let columns :=
        (fun col =>
           {| DatasetColumn.new_name := strip (ColumnBase.name col);
              DatasetColumn.new_data_type := upper (strip (ColumnBase.data_type col));
              DatasetColumn.new_description := ColumnBase.description col |})
          <$> DatasetCreate.columns payload in
      insert_dataset fqn
        (DatasetCreate.connection_name payload)
        (DatasetCreate.database_name payload)
        (DatasetCreate.schema_name payload)
        (DatasetCreate.table_name payload)
        (DatasetCreate.source_system payload)
        (DatasetCreate.description payload)
        columns
  end.

End DatasetService.

(* ===================================================================== *)
(** * app/services/lineage_service.py                                     *)
(* ===================================================================== *)

Module LineageService.
Import PyStr Orm Schemas Graph.
Import DatasetService.

(** The pair read off an edge object by [build_adjacency]. *)
Definition edge_pair (e : Lineage.t) : Z * Z :=
  (Lineage.upstream_id e, Lineage.downstream_id e).

Definition _load_full_adjacency : M adjacency :=
  edges <-- select_all_lineage ;;
  ret (build_adjacency (edge_pair <$> edges)).

Definition add_lineage (upstream_fqn downstream_fqn : string) : M Lineage.t :=
  upstream <-- get_dataset_by_fqn upstream_fqn ;;
  match upstream with
  | None => raise (NotFoundError ("Upstream dataset '" +:+ upstream_fqn +:+ "' not found."))
  | Some upstream =>
  downstream <-- get_dataset_by_fqn downstream_fqn ;;
  match downstream with
  | None => raise (NotFoundError ("Downstream dataset '" +:+ downstream_fqn +:+ "' not found."))
  | Some downstream =>
  existing <-- select_lineage_edge (Dataset.id upstream) (Dataset.id downstream) ;;
  match existing with
  | Some _ =>
      raise (ConflictError ("Lineage edge '" +:+ upstream_fqn +:+ "' → '"
                              +:+ downstream_fqn +:+ "' already exists."))
  | None =>
  adjacency <-- _load_full_adjacency ;;
  if would_create_cycle (Dataset.id upstream) (Dataset.id downstream) adjacency
  then
    raise (CycleError ("Cannot add lineage '" +:+ upstream_fqn +:+ "' → '"
                         +:+ downstream_fqn +:+ "': "
                         +:+ "this would create a cycle. "
                         +:+ "'" +:+ upstream_fqn +:+ "' is already downstream of '"
                         +:+ downstream_fqn +:+ "' "
                         +:+ "(directly or transitively)."))
  else insert_lineage (Dataset.id upstream) (Dataset.id downstream)
  end end end.

Definition remove_lineage (upstream_fqn downstream_fqn : string) : M unit :=
  upstream <-- get_dataset_by_fqn upstream_fqn ;;
  match upstream with
  | None => raise (NotFoundError ("Upstream dataset '" +:+ upstream_fqn +:+ "' not found."))
  | Some upstream =>
  downstream <-- get_dataset_by_fqn downstream_fqn ;;
  match downstream with
  | None => raise (NotFoundError ("Downstream dataset '" +:+ downstream_fqn +:+ "' not found."))
  | Some downstream =>
  edge <-- select_lineage_edge (Dataset.id upstream) (Dataset.id downstream) ;;
  match edge with
  | None =>
      raise (NotFoundError ("Lineage edge '" +:+ upstream_fqn +:+ "' → '"
                              +:+ downstream_fqn +:+ "' does not exist."))
  | Some edge => delete_lineage edge
  end end end.

End LineageService.

(* ===================================================================== *)
(** * app/routers/lineage.py                                              *)
(* ===================================================================== *)

Module LineageRouter.
Import Orm Schemas.

(** What the endpoint answers: the created edge with status 201, an
    [HTTPException] with its status and detail, the 422 answer the
    framework gives to a body that fails validation (the endpoint function
    is then not called), or the 500 answer to an exception nobody
    catches. *)
Inductive response :=
| Created (edge : Lineage.t)
| HTTPException (status_code : Z) (detail : string)
| RequestValidationError (issues : list issue)
| InternalServerError.

(** [POST /lineage]. *)
Definition add_lineage (body : LineageCreate.t) (db : session) : response * session :=
  match LineageCreate.validate body with
  | inl issues => (RequestValidationError issues, db)
  | inr payload =>
      match LineageService.add_lineage
              (LineageCreate.upstream_fqn payload)
              (LineageCreate.downstream_fqn payload) db with
      | (Ok edge, db') => (Created edge, db')
      | (Raise (CycleError exc), db') => (HTTPException 422 exc, db')
      | (Raise (ConflictError exc), db') => (HTTPException 409 exc, db')
      | (Raise (NotFoundError exc), db') => (HTTPException 404 exc, db')
      | (Raise (IntegrityError _), db') => (InternalServerError, db')
      end
  end.

End LineageRouter.

(* ===================================================================== *)
(** * app/services/search_service.py                                      *)
(* ===================================================================== *)

Module SearchService.
Import PyStr Orm Schemas.

Definition _PRIORITY (match_type : SearchMatchType) : Z :=
  match match_type with
  | TABLE_NAME => 1
  | COLUMN_NAME => 2
  | SCHEMA_NAME => 3
  | DATABASE_NAME => 4
  end.

(** The two locals the closure [_add] writes to. *)
Record collector := {
  seen_fqns : gset string;
  results : list SearchResultItem.t }.

(** A call [_add(dataset, match_type, matched_on)]. *)
Definition _add (db : database) (acc : collector)
    (dataset : Dataset.t) (match_type : SearchMatchType) (matched_on : string) : collector :=
  if decide (Dataset.fqn dataset ∈ seen_fqns acc) then acc
  else
    let upstream :=
      omap (fun edge => LineageNodeResponse.model_validate <$> Orm.upstream db edge)
           (upstream_edges db dataset) in
    let downstream :=
      omap (fun edge => LineageNodeResponse.model_validate <$> Orm.downstream db edge)
           (downstream_edges db dataset) in
    {| seen_fqns := {[Dataset.fqn dataset]} ∪ seen_fqns acc;
       results := results acc ++
         [ {| SearchResultItem.dataset := DatasetResponse.model_validate db dataset;
              SearchResultItem.match_type := match_type;
              SearchResultItem.matched_on := matched_on;
              SearchResultItem.priority := _PRIORITY match_type;
              SearchResultItem.upstream_datasets := upstream;
              SearchResultItem.downstream_datasets := downstream |} ] |}.

(** [col_dataset_map.setdefault(k, v)] *)
Definition setdefault (m : gmap Z string) (k : Z) (v : string) : gmap Z string :=
  match m !! k with
  | Some _ => m
  | None => <[k := v]> m
  end.

(** The sort key [(r.priority, r.dataset.fqn)] and the order of such
    tuples. *)
Definition sort_key (r : SearchResultItem.t) : Z * string :=
  (SearchResultItem.priority r, DatasetResponse.fqn (SearchResultItem.dataset r)).

Definition key_le (a b : Z * string) : bool :=
  (a.1 <? b.1) || ((a.1 =? b.1) && String.leb a.2 b.2).

Section search.
(** [column.ilike(pattern)] is evaluated by the store: the operator, taking
    the column value and the pattern, is a parameter of the service. *)
Variable ilike : string → string → bool.
Variable db : database.
(** [term = query.strip()] *)
Variable term : string.

Definition like : string := "%" +:+ term +:+ "%".

(** The locals of [search_datasets] that hold the answers of the five
    queries, under their names. *)
Definition table_matches : list Dataset.t :=
  filter (fun ds => ilike (Dataset.table_name ds) like) (datasets db).

Definition col_dataset_ids : list Z :=
  remove_dups (DatasetColumn.dataset_id <$>
    filter (fun col => ilike (DatasetColumn.name col) like) (dataset_columns db)).

Definition col_dataset_map : gmap Z string :=
  match col_dataset_ids with
  | [] => ∅
  | _ =>
      fold_left
        (fun m col => setdefault m (DatasetColumn.dataset_id col) (DatasetColumn.name col))
        (filter (fun col => DatasetColumn.dataset_id col ∈ col_dataset_ids
                            ∧ ilike (DatasetColumn.name col) like)
                (dataset_columns db))
        ∅
  end.

Definition col_datasets : list Dataset.t :=
  match col_dataset_ids with
  | [] => []
  | _ => filter (fun ds => Dataset.id ds ∈ col_dataset_ids) (datasets db)
  end.

Definition schema_matches : list Dataset.t :=
  filter (fun ds => ilike (Dataset.schema_name ds) like) (datasets db).

Definition db_matches : list Dataset.t :=
  filter (fun ds => ilike (Dataset.database_name ds) like) (datasets db).

(** The four loops over [_add], in source order. *)
Definition collected : collector :=
  let acc := {| seen_fqns := ∅; results := [] |} in
  let acc :=
    fold_left (fun acc ds => _add db acc ds TABLE_NAME (Dataset.table_name ds))
              table_matches acc in
  let acc :=
    fold_left (fun acc ds =>
                 _add db acc ds COLUMN_NAME (default term (col_dataset_map !! Dataset.id ds)))
              col_datasets acc in
  let acc :=
    fold_left (fun acc ds => _add db acc ds SCHEMA_NAME (Dataset.schema_name ds))
              schema_matches acc in
  fold_left (fun acc ds => _add db acc ds DATABASE_NAME (Dataset.database_name ds))
            db_matches acc.

(** [results] after [results.sort(...)], before it is cut to [limit]. *)
Definition sorted_results : list SearchResultItem.t :=
  sort_by key_le sort_key (results collected).
End search.

(** The service only reads the store. *)
Definition search_datasets (ilike : string → string → bool)
    (db : database) (query : string) (limit : Z) : SearchResponse.t :=
  if String.eqb query "" || String.eqb (strip query) ""
  then {| SearchResponse.query := query;
          SearchResponse.total := 0;
          SearchResponse.results := [] |}
  else
    let term := strip query in
    let results := sorted_results ilike db term in
    {| SearchResponse.query := term;
       SearchResponse.total := Z.of_nat (length results);
       SearchResponse.results := slice_to results limit |}.

End SearchService.

(* ===================================================================== *)
(** * app/routers/search.py                                               *)
(* ===================================================================== *)

Module SearchRouter.
Import PyStr Orm Schemas.

(** [GET /search] with [q: str = Query(..., min_length=1)] and
    [limit: int = Query(default=50, ge=1, le=200)]: a request outside
    these bounds is answered with a validation error and the service is
    not called. *)
Definition search (ilike : string → string → bool) (db : database)
    (q : string) (limit : option Z) : list issue + SearchResponse.t :=
  let limit := default 50 limit in
  match (if len q <? 1 then [StringTooShort "q"] else [])
        ++ (if limit <? 1 then [NumberTooSmall "limit"] else [])
        ++ (if 200 <? limit then [NumberTooLarge "limit"] else []) with
  | [] => inr (SearchService.search_datasets ilike db q limit)
  | issues => inl issues
  end.

End SearchRouter.

(* ===================================================================== *)
(** * Facts about the lineage graph engine                                *)
(* ===================================================================== *)

Module GraphFacts.
Import Graph.

(** ** Reachability along the recorded forward edges *)

Definition edge (adj : adjacency) (a b : Z) : Prop := b ∈ neighbours adj a.

Definition reachable (adj : adjacency) (a b : Z) : Prop := rtc (edge adj) a b.

Lemma dfs_loop_unfold (u : Z) (adj : adjacency) (st : dfs_state) :
  dfs_loop u adj st =
  match dfs_step u adj st with
  | Return b => b
  | Continue st' => dfs_loop u adj st'
  end.
Proof.
  funelim (dfs_loop u adj st);
    match goal with H : dfs_step _ _ _ = _ |- _ => rewrite H end; reflexivity.
Qed.

(** Induction along the iterations of the loop. *)
Lemma dfs_loop_ind (u : Z) (adj : adjacency) (P : dfs_state → bool → Prop) :
  (∀ st b, dfs_step u adj st = Return b → P st b) →
  (∀ st st' b, dfs_step u adj st = Continue st' → P st' b → P st b) →
  ∀ st, P st (dfs_loop u adj st).
Proof.
  intros Hret Hcont st.
  remember (dfs_measure adj st) as n eqn:Hn.
  revert st Hn. induction n as [n IH] using lt_wf_ind. intros st ->.
  rewrite dfs_loop_unfold.
  destruct (dfs_step u adj st) as [b|st'] eqn:Hstep.
  - by apply Hret.
  - apply (Hcont st st'); [done|].
    eapply IH; [|reflexivity]. by eapply dfs_step_decreases.
Qed.

Lemma elem_of_push_unvisited (vis : gset Z) (nbrs stk : list Z) (x : Z) :
  x ∈ push_unvisited vis stk nbrs ↔ x ∈ stk ∨ (x ∈ nbrs ∧ x ∉ vis).
Proof.
  unfold push_unvisited. revert stk.
  induction nbrs as [|nb nbrs IH]; intros stk; simpl.
  - rewrite elem_of_nil. tauto.
  - rewrite IH, elem_of_cons. case_decide.
    + split; [tauto|]. intros [?|[[->|?] ?]]; tauto.
    + rewrite elem_of_cons. split; [|intros [?|[[->|?] ?]]; tauto].
      intros [[->|?]|?]; tauto.
Qed.

(** What one pass does to the two locals, case by case. *)
Lemma dfs_step_Return (u : Z) (adj : adjacency) (st : dfs_state) (b : bool) :
  dfs_step u adj st = Return b →
  (b = false ∧ stack st = []) ∨ (b = true ∧ ∃ rest, stack st = u :: rest).
Proof.
  unfold dfs_step. destruct (stack st) as [|node rest]; [intros [= <-]; by left|].
  repeat case_decide; intros [= <-]. right. subst. eauto.
Qed.

Lemma dfs_step_Continue (u : Z) (adj : adjacency) (st st' : dfs_state) :
  dfs_step u adj st = Continue st' →
  ∃ node rest, stack st = node :: rest ∧ node ≠ u ∧
    ((node ∈ visited st ∧ st' = DfsState (visited st) rest) ∨
     ((node ∉ visited st) ∧
      st' = DfsState ({[node]} ∪ visited st)
              (push_unvisited ({[node]} ∪ visited st) rest
                 (elements (neighbours adj node))))).
Proof.
  unfold dfs_step. destruct (stack st) as [|node rest]; [done|].
  repeat case_decide; intros [= <-]; exists node, rest; naive_solver.
Qed.

(** Soundness of the traversal: everything on the stack is reachable from
    the start node, so an answer of [true] exhibits a path. *)
Lemma dfs_loop_sound (u d : Z) (adj : adjacency) (st : dfs_state) :
  (∀ x, x ∈ stack st → reachable adj d x) →
  dfs_loop u adj st = true → reachable adj d u.
Proof.
  revert st. apply (dfs_loop_ind u adj
    (fun st b => (∀ x, x ∈ stack st → reachable adj d x) → b = true → reachable adj d u)).
  - intros st b Hstep Hstk ->.
    apply dfs_step_Return in Hstep as [[? _]|[_ [rest Hrest]]]; [done|].
    apply Hstk. rewrite Hrest. left.
  - intros st st' b Hstep IH Hstk Hb. apply IH; [|done].
    apply dfs_step_Continue in Hstep
      as (node & rest & Hst & _ & [[_ ->]|[_ ->]]); simpl; intros x Hx.
    + apply Hstk. rewrite Hst. by right.
    + apply elem_of_push_unvisited in Hx as [Hx|[Hx _]].
      * apply Hstk. rewrite Hst. by right.
      * apply elem_of_elements in Hx.
        eapply rtc_r; [apply Hstk; rewrite Hst; left|exact Hx].
Qed.

(** The visited set is closed under edges up to the stack. *)
Definition frontier_closed (adj : adjacency) (st : dfs_state) : Prop :=
  ∀ v w, v ∈ visited st → edge adj v w → w ∈ visited st ∨ w ∈ stack st.

(** Completeness: an answer of [false] means the target is reachable from
    nothing that was visited or stacked. *)
Lemma dfs_loop_complete (u : Z) (adj : adjacency) (st : dfs_state) :
  u ∉ visited st → frontier_closed adj st →
  dfs_loop u adj st = false →
  ∀ x, x ∈ visited st ∨ x ∈ stack st → ¬ reachable adj x u.
Proof.
  revert st. apply (dfs_loop_ind u adj
    (fun st b => u ∉ visited st → frontier_closed adj st → b = false →
       ∀ x, x ∈ visited st ∨ x ∈ stack st → ¬ reachable adj x u)).
  - intros st b Hstep Hu Hclosed -> x Hx Hreach.
    apply dfs_step_Return in Hstep as [[_ Hnil]|[? _]]; [|done].
    rewrite Hnil in Hx. destruct Hx as [Hx|Hx]; [|by apply elem_of_nil in Hx].
    apply Hu. clear Hu. induction Hreach as [|a b c Hab _ IH]; [done|].
    apply IH. destruct (Hclosed a b Hx Hab) as [?|Hb]; [done|].
    rewrite Hnil in Hb. by apply elem_of_nil in Hb.
  - intros st st' b Hstep IH Hu Hclosed Hb x Hx.
    apply dfs_step_Continue in Hstep
      as (node & rest & Hst & Hne & [[Hvis ->]|[Hvis ->]]).
    + apply IH; simpl; [done| |done|].
      * intros v w Hv Hvw. destruct (Hclosed v w Hv Hvw) as [?|Hw]; [by left|].
        rewrite Hst in Hw. apply elem_of_cons in Hw as [->|?]; [by left|by right].
      * destruct Hx as [?|Hx]; [by left|].
        rewrite Hst in Hx. apply elem_of_cons in Hx as [->|?]; [by left|by right].
    + apply IH; simpl; [set_solver| |done|].
      * intros v w Hv Hvw. simpl in *.
        rewrite elem_of_push_unvisited, elem_of_elements.
        destruct (decide (w ∈ {[node]} ∪ visited st)) as [?|Hw]; [by left|].
        right. apply elem_of_union in Hv as [Hv|Hv].
        -- apply elem_of_singleton in Hv as ->. right. done.
        -- destruct (Hclosed v w Hv Hvw) as [?|Hw']; [set_solver|].
           rewrite Hst in Hw'. apply elem_of_cons in Hw' as [->|?]; [set_solver|by left].
      * rewrite elem_of_push_unvisited. destruct Hx as [?|Hx]; [left; set_solver|].
        rewrite Hst in Hx. apply elem_of_cons in Hx as [->|?]; [left; set_solver|].
        right. by left.
Qed.

Lemma would_create_cycle_true_iff (u d : Z) (adj : adjacency) :
  would_create_cycle u d adj = true ↔ u = d ∨ reachable adj d u.
Proof.
  unfold would_create_cycle. case_decide as Hud; [by intuition|]. split.
  - intros Hloop. right. apply (dfs_loop_sound u d adj _) in Hloop; [done|].
    simpl. intros x ->%list_elem_of_singleton. apply rtc_refl.
  - intros [?|Hreach]; [done|].
    destruct (dfs_loop u adj (DfsState ∅ [d])) eqn:Hloop; [done|]. exfalso.
    eapply (dfs_loop_complete u adj _ _ _ Hloop d); [|exact Hreach].
    right. simpl. left.
    Unshelve.
    + simpl. apply not_elem_of_empty.
    + intros v w Hv _. simpl in Hv. by apply not_elem_of_empty in Hv.
Qed.

(** C1.  [would_create_cycle u d adj] answers [True] exactly when [u = d]
    or [u] can be reached from [d] along the forward edges recorded in
    [adj]; on a self-loop it answers [True] whatever the map, the empty
    map included. *)
Theorem would_create_cycle_iff_reachable (u d : Z) (adj : adjacency) :
  (would_create_cycle u d adj = true ↔ u = d ∨ reachable adj d u) ∧
  would_create_cycle u u adj = true ∧
  would_create_cycle u u ∅ = true.
Proof.
  split; [apply would_create_cycle_true_iff|].
  split; apply would_create_cycle_true_iff; by left.
Qed.

(** ** Termination of the traversal *)

(** Total number of (node, neighbour) entries of the map. *)
Definition edge_count (adj : adjacency) : nat :=
  sum_list_with (fun kv => size kv.2) (map_to_list adj).

(** [n] passes through the loop, stopping as soon as the function returns. *)
Fixpoint dfs_iterate (n : nat) (u : Z) (adj : adjacency) (o : dfs_outcome) : dfs_outcome :=
  match n, o with
  | S n', Continue st => dfs_iterate n' u adj (dfs_step u adj st)
  | _, _ => o
  end.

Lemma pending_empty (adj : adjacency) : pending adj ∅ = edge_count adj.
Proof.
  unfold pending, edge_count.
  induction (map_to_list adj) as [|kv l IH]; simpl; [done|].
  rewrite decide_False by apply not_elem_of_empty. by rewrite IH.
Qed.

Lemma dfs_iterate_reaches (u : Z) (adj : adjacency) (st : dfs_state) :
  ∃ n, (n ≤ dfs_measure adj st + 1)%nat ∧
       dfs_iterate n u adj (Continue st) = Return (dfs_loop u adj st).
Proof.
  revert st. apply (dfs_loop_ind u adj (fun st b =>
    ∃ n, (n ≤ dfs_measure adj st + 1)%nat ∧ dfs_iterate n u adj (Continue st) = Return b)).
  - intros st b Hstep. exists 1%nat. simpl. rewrite Hstep. split; [lia|done].
  - intros st st' b Hstep (n & Hn & Hrun). exists (S n). simpl. rewrite Hstep.
    apply dfs_step_decreases in Hstep. split; [lia|].
    destruct n; simpl in *; done.
Qed.

(** ** build_adjacency *)

Lemma add_edge_comm (adj : adjacency) (e1 e2 : Z * Z) :
  add_edge (add_edge adj e1) e2 = add_edge (add_edge adj e2) e1.
Proof.
  destruct e1 as [u1 d1], e2 as [u2 d2]. unfold add_edge. simpl.
  apply map_eq. intros k.
  destruct (decide (u1 = u2)) as [->|Hne].
  - rewrite !lookup_insert_eq. simpl.
    destruct (decide (k = u2)) as [->|Hk].
    + rewrite !lookup_insert_eq. f_equal. set_solver.
    + by rewrite !lookup_insert_ne by done.
  - rewrite (lookup_insert_ne _ u1 u2) by done.
    rewrite (lookup_insert_ne _ u2 u1) by done.
    destruct (decide (k = u1)) as [->|Hk1].
    + rewrite lookup_insert_ne by done. by rewrite !lookup_insert_eq.
    + destruct (decide (k = u2)) as [->|Hk2].
      * rewrite lookup_insert_eq, lookup_insert_ne by done. by rewrite lookup_insert_eq.
      * by rewrite !lookup_insert_ne by done.
Qed.

Lemma add_edge_idemp (adj : adjacency) (e : Z * Z) :
  add_edge (add_edge adj e) e = add_edge adj e.
Proof.
  destruct e as [u d]. unfold add_edge. simpl.
  rewrite lookup_insert_eq, insert_insert_eq. simpl. f_equal. set_solver.
Qed.

Lemma fold_add_edge_perm (l l' : list (Z * Z)) :
  l ≡ₚ l' → ∀ adj, fold_left add_edge l adj = fold_left add_edge l' adj.
Proof.
  induction 1 as [|e l l' _ IH|e1 e2 l|l1 l2 l3 _ IH1 _ IH2]; intros adj; simpl.
  - done.
  - apply IH.
  - by rewrite add_edge_comm.
  - by rewrite IH1.
Qed.

Lemma fold_add_edge_neighbours (l : list (Z * Z)) (adj : adjacency) (u d : Z) :
  d ∈ neighbours (fold_left add_edge l adj) u ↔ d ∈ neighbours adj u ∨ (u, d) ∈ l.
Proof.
  revert adj. induction l as [|[u' d'] l IH]; intros adj; simpl.
  - rewrite elem_of_nil. tauto.
  - rewrite IH, elem_of_cons. unfold neighbours, add_edge. simpl.
    destruct (decide (u = u')) as [->|Hne].
    + rewrite lookup_insert_eq. simpl. rewrite elem_of_union, elem_of_singleton.
      split; [intros [[->|?]|?]; auto|intros [?|[[= ->]|?]]; auto].
    + rewrite lookup_insert_ne by done.
      split; [intros [?|?]; auto|intros [?|[[= ? ?]|?]]; auto; done].
Qed.

Lemma fold_add_edge_dom (l : list (Z * Z)) (adj : adjacency) (u : Z) :
  is_Some (fold_left add_edge l adj !! u) ↔ is_Some (adj !! u) ∨ ∃ d, (u, d) ∈ l.
Proof.
  revert adj. induction l as [|[u' d'] l IH]; intros adj; simpl.
  - split; [auto|]. intros [?|[d Hd]]; [done|]. by apply elem_of_nil in Hd.
  - rewrite IH. unfold add_edge. simpl.
    destruct (decide (u = u')) as [->|Hne].
    + rewrite lookup_insert_eq. split.
      * intros _. right. exists d'. left.
      * intros _. left. eauto.
    + rewrite lookup_insert_ne by done. split.
      * intros [?|[d Hd]]; [by left|]. right. exists d. by right.
      * intros [?|[d Hd]]; [by left|]. right. exists d.
        apply elem_of_cons in Hd as [[= ? ?]|?]; done.
Qed.

(** C10.  [would_create_cycle] terminates on every adjacency map, cyclic
    or not: on a self-loop it returns at once; otherwise, from the initial
    locals, the loop leaves with the function's value after at most
    (number of recorded edges + 2) passes.  A pass that pops an already
    visited node pushes nothing; the visited set never shrinks; and every
    pass that goes round again strictly lowers the measure (stack length +
    recorded edges out of unvisited nodes). *)
Theorem would_create_cycle_terminates (u d : Z) (adj : adjacency) :
  (∃ n b, (n ≤ edge_count adj + 2)%nat ∧
          dfs_iterate n u adj (Continue (DfsState ∅ [d])) = Return b ∧
          would_create_cycle u d adj = if decide (u = d) then true else b) ∧
  (∀ st st', dfs_step u adj st = Continue st' →
     visited st ⊆ visited st' ∧
     (dfs_measure adj st' < dfs_measure adj st)%nat ∧
     (∀ node rest, stack st = node :: rest → node ∈ visited st →
        stack st' = rest ∧ visited st' = visited st)).
Proof.
  split.
  - destruct (dfs_iterate_reaches u adj (DfsState ∅ [d])) as (n & Hn & Hrun).
    exists n, (dfs_loop u adj (DfsState ∅ [d])). split_and!; [|done|done].
    unfold dfs_measure in Hn. simpl in Hn. rewrite pending_empty in Hn. lia.
  - intros st st' Hstep. split; [|split].
    + apply dfs_step_Continue in Hstep
        as (node & rest & _ & _ & [[_ ->]|[_ ->]]); simpl; set_solver.
    + by eapply dfs_step_decreases.
    + intros node rest Hst Hvis.
      apply dfs_step_Continue in Hstep
        as (node' & rest' & Hst' & _ & [[_ ->]|[Hnot ->]]);
        rewrite Hst in Hst'; injection Hst' as <- <-; [done|].
      by destruct Hnot.
Qed.

Lemma build_adjacency_neighbours (edges : list (Z * Z)) (u d : Z) :
  d ∈ neighbours (build_adjacency edges) u ↔ (u, d) ∈ edges.
Proof.
  unfold build_adjacency. rewrite fold_add_edge_neighbours.
  unfold neighbours. rewrite lookup_empty. simpl.
  split; [intros [H|H]; [by apply not_elem_of_empty in H|done]|by right].
Qed.

(** C8.  [build_adjacency] gives the same map for every reordering of its
    input, is unchanged by appending a pair the input already has, and
    maps each node to exactly the set of its direct downstream ids (a node
    is a key exactly when it is the upstream end of some pair). *)
Theorem build_adjacency_order_independent_idempotent (edges : list (Z * Z)) :
  (∀ edges', edges ≡ₚ edges' → build_adjacency edges = build_adjacency edges') ∧
  (∀ e, e ∈ edges → build_adjacency (edges ++ [e]) = build_adjacency edges) ∧
  (∀ u d, d ∈ neighbours (build_adjacency edges) u ↔ (u, d) ∈ edges) ∧
  (∀ u, is_Some (build_adjacency edges !! u) ↔ ∃ d, (u, d) ∈ edges).
Proof.
  unfold build_adjacency. repeat split.
  - intros edges' Hperm. by apply fold_add_edge_perm.
  - intros e He. apply list_elem_of_split in He as (l1 & l2 & ->).
    assert (Hp : l1 ++ e :: l2 ≡ₚ e :: l1 ++ l2) by (by rewrite Permutation_middle).
    assert (Hp' : (l1 ++ e :: l2) ++ [e] ≡ₚ e :: e :: l1 ++ l2)
      by (by rewrite Hp, Permutation_app_comm).
    rewrite (fold_add_edge_perm _ _ Hp), (fold_add_edge_perm _ _ Hp'). simpl.
    by rewrite add_edge_idemp.
  - rewrite fold_add_edge_neighbours. unfold neighbours. rewrite lookup_empty. simpl.
    intros [H|H]; [by apply not_elem_of_empty in H|done].
  - rewrite fold_add_edge_neighbours. by right.
  - rewrite fold_add_edge_dom. rewrite lookup_empty.
    intros [[? [=]]|H]; done.
  - rewrite fold_add_edge_dom. by right.
Qed.

Lemma build_adjacency_order_independent_idempotent_witness :
  build_adjacency [(1, 2); (2, 3)] = build_adjacency [(2, 3); (1, 2)] ∧
  build_adjacency ([(1, 2); (2, 3)] ++ [(1, 2)]) = build_adjacency [(1, 2); (2, 3)].
Proof.
  pose proof (build_adjacency_order_independent_idempotent [(1, 2); (2, 3)])
    as (Hperm & Hdup & _).
  split.
  - apply Hperm. apply perm_swap.
  - apply Hdup. apply list_elem_of_here.
Defined.

End GraphFacts.

(* ===================================================================== *)
(** * Facts about the list methods and the sort key                       *)
(* ===================================================================== *)

Module PyStrFacts.
Import PyStr.

Lemma slice_to_take {A} (l : list A) (stop : Z) :
  ∃ n, slice_to l stop = take n l.
Proof. unfold slice_to. case_match; eauto. Qed.

Lemma slice_to_nonneg {A} (l : list A) (stop : Z) :
  0 ≤ stop → slice_to l stop = take (Z.to_nat stop) l.
Proof. intros H. unfold slice_to. by rewrite (proj2 (Z.leb_le _ _) H). Qed.

(** Upper-casing twice is upper-casing once. *)
Lemma upper_char_idemp (c : Ascii.ascii) : upper_char (upper_char c) = upper_char c.
Proof. by destruct c as [[] [] [] [] [] [] [] []]. Qed.

Lemma upper_idemp (s : string) : upper (upper s) = upper s.
Proof.
  unfold upper. induction s as [|c s IH]; simpl; [done|].
  by rewrite upper_char_idemp, IH.
Qed.

(** Stripping twice is stripping once. *)
Lemma lstrip_head (s : string) (c : Ascii.ascii) (s' : string) :
  lstrip s = String c s' → isspace c = false.
Proof.
  induction s as [|d s IH]; simpl; [done|].
  destruct (isspace d) eqn:Hd; [done|]. by intros [= <- _].
Qed.

Lemma rstrip_head (s : string) (c : Ascii.ascii) (r : string) :
  rstrip s = String c r → ∃ s', s = String c s'.
Proof.
  destruct s as [|d s]; simpl; [done|].
  destruct (rstrip s); [destruct (isspace d)|]; intros [= <- _]; eauto.
Qed.

Lemma rstrip_idemp (s : string) : rstrip (rstrip s) = rstrip s.
Proof.
  induction s as [|c s IH]; simpl; [done|].
  destruct (rstrip s) as [|d r] eqn:Hr.
  - destruct (isspace c) eqn:Hc; simpl; [done|]. by rewrite Hc.
  - simpl in *. by rewrite IH.
Qed.

Lemma strip_idemp (s : string) : strip (strip s) = strip s.
Proof.
  unfold strip. destruct (rstrip (lstrip s)) as [|c r] eqn:Hr; [done|].
  destruct (rstrip_head _ _ _ Hr) as [s' Hs'].
  apply lstrip_head in Hs'. simpl lstrip. rewrite Hs', <- Hr. apply rstrip_idemp.
Qed.

Section sort.
Context {A K : Type} (le : K → K → bool) (key : A → K).
Hypothesis le_total : ∀ a b, le a b = true ∨ le b a = true.

Let R (x y : A) : Prop := le (key x) (key y) = true.

Lemma insert_by_Permutation (x : A) (l : list A) :
  insert_by le key x l ≡ₚ x :: l.
Proof.
  induction l as [|y l IH]; simpl; [done|].
  case_match; [done|]. by rewrite IH, perm_swap.
Qed.

Lemma sort_by_Permutation (l : list A) : sort_by le key l ≡ₚ l.
Proof.
  induction l as [|x l IH]; simpl; [done|].
  by rewrite insert_by_Permutation, IH.
Qed.

Lemma insert_by_Sorted (x : A) (l : list A) :
  Sorted R l → Sorted R (insert_by le key x l).
Proof.
  induction 1 as [|y l Hl IH Hhd]; simpl.
  - by repeat constructor.
  - destruct (le (key x) (key y)) eqn:Hxy.
    + constructor; [by constructor|]. by constructor.
    + constructor; [done|].
      assert (Hyx : R y x) by (destruct (le_total (key x) (key y)); [congruence|done]).
      destruct Hhd as [|z l' Hyz]; simpl; [by constructor|].
      case_match; by constructor.
Qed.

Lemma sort_by_Sorted (l : list A) : Sorted R (sort_by le key l).
Proof.
  induction l as [|x l IH]; simpl; [constructor|]. by apply insert_by_Sorted.
Qed.
End sort.

End PyStrFacts.

(* ===================================================================== *)
(** * Facts about the search ranking                                      *)
(* ===================================================================== *)

Module SearchFacts.
Import PyStr Orm Schemas SearchService PyStrFacts.

(** ** The order of sort keys *)

Lemma key_le_total (a b : Z * string) : key_le a b = true ∨ key_le b a = true.
Proof.
  unfold key_le. destruct a as [p s], b as [q t]; simpl.
  destruct (Z.lt_total p q) as [H|[->|H]].
  - left. apply orb_true_iff. left. by apply Z.ltb_lt.
  - rewrite Z.eqb_refl, Z.ltb_irrefl. simpl. apply String.leb_total.
  - right. apply orb_true_iff. left. by apply Z.ltb_lt.
Qed.

Lemma key_le_spec (a b : Z * string) :
  key_le a b = true ↔ a.1 < b.1 ∨ (a.1 = b.1 ∧ String.le a.2 b.2).
Proof.
  unfold key_le, String.le.
  rewrite orb_true_iff, andb_true_iff, Z.ltb_lt, Z.eqb_eq, Is_true_true. tauto.
Qed.

Lemma key_le_trans (a b c : Z * string) :
  key_le a b = true → key_le b c = true → key_le a c = true.
Proof.
  rewrite !key_le_spec. intros [?|[? Hab]] [?|[? Hbc]]; try (left; lia).
  right. split; [lia|]. by etrans.
Qed.

Lemma key_le_antisym (a b : Z * string) :
  key_le a b = true → key_le b a = true → a = b.
Proof.
  rewrite !key_le_spec. destruct a as [p s], b as [q t]; simpl.
  intros [?|[? Hab]] [?|[? Hba]]; try lia.
  f_equal; [done|]. by apply (anti_symm String.le).
Qed.

(** The order the result list is sorted by, and its trace on priorities. *)
Definition key_order (r1 r2 : SearchResultItem.t) : Prop :=
  key_le (sort_key r1) (sort_key r2) = true.

Definition priority_order (r1 r2 : SearchResultItem.t) : Prop :=
  SearchResultItem.priority r1 ≤ SearchResultItem.priority r2.

Global Instance key_order_trans : Transitive key_order.
Proof. intros a b c. apply key_le_trans. Qed.

Lemma key_order_priority (r1 r2 : SearchResultItem.t) :
  key_order r1 r2 → priority_order r1 r2.
Proof. unfold key_order, priority_order. rewrite key_le_spec. simpl. lia. Qed.

(** ** The collector *)

Definition result_fqn (r : SearchResultItem.t) : string :=
  DatasetResponse.fqn (SearchResultItem.dataset r).

(** One call of [_add], as data. *)
Definition candidate : Type := Dataset.t * SearchMatchType * string.

Definition cand_fqn (c : candidate) : string := Dataset.fqn c.1.1.

Definition add_candidate (db : database) (acc : collector) (c : candidate) : collector :=
  _add db acc c.1.1 c.1.2 c.2.

(** The item [_add] appends for a dataset it has not seen. *)
Definition item (db : database) (c : candidate) : SearchResultItem.t :=
  {| SearchResultItem.dataset := DatasetResponse.model_validate db c.1.1;
     SearchResultItem.match_type := c.1.2;
     SearchResultItem.matched_on := c.2;
     SearchResultItem.priority := _PRIORITY c.1.2;
     SearchResultItem.upstream_datasets :=
       omap (fun edge => LineageNodeResponse.model_validate <$> Orm.upstream db edge)
            (upstream_edges db c.1.1);
     SearchResultItem.downstream_datasets :=
       omap (fun edge => LineageNodeResponse.model_validate <$> Orm.downstream db edge)
            (downstream_edges db c.1.1) |}.

Lemma add_candidate_unfold (db : database) (acc : collector) (c : candidate) :
  add_candidate db acc c =
  if decide (cand_fqn c ∈ seen_fqns acc) then acc
  else {| seen_fqns := {[cand_fqn c]} ∪ seen_fqns acc;
          results := results acc ++ [item db c] |}.
Proof. reflexivity. Qed.

Lemma result_fqn_item (db : database) (c : candidate) :
  result_fqn (item db c) = cand_fqn c.
Proof. reflexivity. Qed.

(** The seen set is the set of FQNs of the results. *)
Definition seen_exact (acc : collector) : Prop :=
  ∀ f, f ∈ seen_fqns acc ↔ f ∈ result_fqn <$> results acc.

Lemma collect_spec (db : database) (cs : list candidate) (acc : collector) :
  seen_exact acc → NoDup (result_fqn <$> results acc) →
  let acc' := fold_left (add_candidate db) cs acc in
  seen_exact acc' ∧
  NoDup (result_fqn <$> results acc') ∧
  (∀ r, r ∈ results acc' →
     r ∈ results acc ∨
     ∃ cs1 c cs2, cs = cs1 ++ c :: cs2 ∧ r = item db c ∧
                  (cand_fqn c ∉ cand_fqn <$> cs1) ∧ cand_fqn c ∉ seen_fqns acc) ∧
  (∀ r, r ∈ results acc → r ∈ results acc') ∧
  (∀ c, c ∈ cs → cand_fqn c ∈ result_fqn <$> results acc').
Proof.
  revert acc. induction cs as [|c cs IH]; intros acc Hseen Hnodup; simpl.
  - split_and!; try done; [by left|]. intros c Hc. by apply elem_of_nil in Hc.
  - rewrite add_candidate_unfold. case_decide as Hc.
    + destruct (IH acc Hseen Hnodup) as (Hseen' & Hnodup' & Hfrom & Hkeep & Hall).
      split_and!; try done.
      * intros r Hr. destruct (Hfrom r Hr) as [?|(cs1 & c' & cs2 & -> & -> & Hfirst & Hnew)];
          [by left|]. right. exists (c :: cs1), c', cs2. split_and!; [done..| |done].
        rewrite fmap_cons, not_elem_of_cons. split; [|done]. congruence.
      * intros c' [->|Hc']%elem_of_cons; [|by apply Hall].
        apply Hseen in Hc. apply list_elem_of_fmap in Hc as (r & -> & Hr).
        apply list_elem_of_fmap. exists r. split; [done|]. by apply Hkeep.
    + set (acc1 := {| seen_fqns := {[cand_fqn c]} ∪ seen_fqns acc;
                      results := results acc ++ [item db c] |}).
      assert (Hseen1 : seen_exact acc1).
      { intros f. unfold acc1. simpl. rewrite fmap_app, elem_of_app. simpl.
        rewrite list_elem_of_singleton, elem_of_union, elem_of_singleton, (Hseen f).
        rewrite result_fqn_item. tauto. }
      assert (Hnodup1 : NoDup (result_fqn <$> results acc1)).
      { unfold acc1. simpl. rewrite fmap_app. apply NoDup_app. split_and!; [done| |].
        - intros f Hf. simpl. rewrite list_elem_of_singleton, result_fqn_item.
          intros ->. by apply Hseen in Hf.
        - simpl. apply NoDup_singleton. }
      destruct (IH acc1 Hseen1 Hnodup1) as (Hseen' & Hnodup' & Hfrom & Hkeep & Hall).
      split_and!; try done.
      * intros r Hr.
        destruct (Hfrom r Hr) as [Hr1|(cs1 & c' & cs2 & -> & -> & Hfirst & Hnew)].
        -- unfold acc1 in Hr1. simpl in Hr1.
           apply elem_of_app in Hr1 as [?|Hr1]; [by left|].
           apply list_elem_of_singleton in Hr1 as ->.
           right. exists [], c, cs. split_and!; [done..| |done]. simpl. apply not_elem_of_nil.
        -- right. exists (c :: cs1), c', cs2. unfold acc1 in Hnew. simpl in Hnew.
           split_and!; [done..| |set_solver]. rewrite fmap_cons, not_elem_of_cons.
           split; [set_solver|done].
      * intros r Hr. apply Hkeep. unfold acc1. simpl. apply elem_of_app. by left.
      * intros c' [->|Hc']%elem_of_cons; [|by apply Hall].
        apply list_elem_of_fmap. exists (item db c). split; [done|].
        apply Hkeep. unfold acc1. simpl. apply elem_of_app. right. left.
Qed.

Lemma fold_left_fmap_arg {X Y Z'} (f : X → Y → X) (g : Z' → Y) (l : list Z') (a : X) :
  fold_left (fun acc z => f acc (g z)) l a = fold_left f (g <$> l) a.
Proof. revert a. induction l as [|z l IH]; intros a; simpl; [done|]. apply IH. Qed.

Lemma fold_setdefault_lookup (l : list DatasetColumn.t) (m : gmap Z string) (k : Z) :
  fold_left (fun m col => setdefault m (DatasetColumn.dataset_id col) (DatasetColumn.name col))
            l m !! k
  = match m !! k with
    | Some v => Some v
    | None => DatasetColumn.name <$>
                head (filter (fun col => DatasetColumn.dataset_id col = k) l)
    end.
Proof.
  revert m. induction l as [|col l IH]; intros m; simpl.
  - by destruct (m !! k).
  - rewrite IH. unfold setdefault.
    destruct (m !! DatasetColumn.dataset_id col) as [v|] eqn:Hcol.
    + destruct (m !! k) as [w|] eqn:Hk; [done|].
      rewrite filter_cons. case_decide as Heq; [|done]. congruence.
    + destruct (decide (DatasetColumn.dataset_id col = k)) as [<-|Hne].
      * rewrite lookup_insert_eq, Hcol, filter_cons, decide_True by done. done.
      * rewrite lookup_insert_ne by done. rewrite filter_cons, decide_False by done. done.
Qed.

Section ranking.
Variable ilike : string → string → bool.
Variable db : database.
Variable term : string.

(** ** What it means for a tier to match a dataset, and the value that
    matched: the words of the ranking contract *)

(** A column of the dataset whose name contains the term. *)
Definition matching_column (ds : Dataset.t) (col : DatasetColumn.t) : Prop :=
  DatasetColumn.dataset_id col = Dataset.id ds ∧
  ilike (DatasetColumn.name col) (like term).

Definition tier_matches (t : SearchMatchType) (ds : Dataset.t) : Prop :=
  match t with
  | TABLE_NAME => ilike (Dataset.table_name ds) (like term)
  | COLUMN_NAME => ∃ col, col ∈ dataset_columns db ∧ matching_column ds col
  | SCHEMA_NAME => ilike (Dataset.schema_name ds) (like term)
  | DATABASE_NAME => ilike (Dataset.database_name ds) (like term)
  end.

(** The field value that matched; for the column tier, the name of the
    first matching column in the order the store lists them. *)
Definition matched_value (t : SearchMatchType) (ds : Dataset.t) : option string :=
  match t with
  | TABLE_NAME => Some (Dataset.table_name ds)
  | COLUMN_NAME =>
      DatasetColumn.name <$> head (filter (matching_column ds) (dataset_columns db))
  | SCHEMA_NAME => Some (Dataset.schema_name ds)
  | DATABASE_NAME => Some (Dataset.database_name ds)
  end.

(** The calls of [_add] made by the four loops, in order. *)
Definition candidates : list candidate :=
  ((fun ds => (ds, TABLE_NAME, Dataset.table_name ds)) <$> table_matches ilike db term)
  ++ ((fun ds => (ds, COLUMN_NAME,
                  default term (col_dataset_map ilike db term !! Dataset.id ds)))
        <$> col_datasets ilike db term)
  ++ ((fun ds => (ds, SCHEMA_NAME, Dataset.schema_name ds)) <$> schema_matches ilike db term)
  ++ ((fun ds => (ds, DATABASE_NAME, Dataset.database_name ds)) <$> db_matches ilike db term).

Lemma collected_candidates :
  collected ilike db term
  = fold_left (add_candidate db) candidates {| seen_fqns := ∅; results := [] |}.
Proof.
  unfold collected, candidates. rewrite !fold_left_app.
  rewrite <- !fold_left_fmap_arg. reflexivity.
Qed.

Lemma elem_of_col_dataset_ids (i : Z) :
  i ∈ col_dataset_ids ilike db term ↔
  ∃ col, col ∈ dataset_columns db ∧ DatasetColumn.dataset_id col = i ∧
         ilike (DatasetColumn.name col) (like term).
Proof.
  unfold col_dataset_ids. rewrite elem_of_remove_dups, list_elem_of_fmap.
  setoid_rewrite list_elem_of_filter. naive_solver.
Qed.

Lemma elem_of_col_datasets (ds : Dataset.t) :
  ds ∈ col_datasets ilike db term ↔ ds ∈ datasets db ∧ tier_matches COLUMN_NAME ds.
Proof.
  unfold col_datasets. simpl.
  assert (Hids : Dataset.id ds ∈ col_dataset_ids ilike db term ↔ tier_matches COLUMN_NAME ds).
  { rewrite elem_of_col_dataset_ids. unfold matching_column. simpl. naive_solver. }
  destruct (col_dataset_ids ilike db term) as [|i ids] eqn:Heq.
  - rewrite elem_of_nil. rewrite <- Hids, elem_of_nil. tauto.
  - rewrite list_elem_of_filter, Hids. tauto.
Qed.

Lemma col_dataset_map_lookup (ds : Dataset.t) :
  tier_matches COLUMN_NAME ds →
  col_dataset_map ilike db term !! Dataset.id ds = matched_value COLUMN_NAME ds
  ∧ is_Some (matched_value COLUMN_NAME ds).
Proof.
  intros Hmatch.
  assert (Hid : Dataset.id ds ∈ col_dataset_ids ilike db term).
  { apply elem_of_col_dataset_ids. destruct Hmatch as (col & ? & ? & ?). eauto. }
  assert (Hsome : is_Some (matched_value COLUMN_NAME ds)).
  { simpl. destruct Hmatch as (col & Hcol & Hm).
    apply fmap_is_Some, head_is_Some. intros Hnil.
    assert (Hin : col ∈ filter (matching_column ds) (dataset_columns db))
      by (by apply list_elem_of_filter).
    rewrite Hnil in Hin. by apply elem_of_nil in Hin. }
  split; [|done].
  unfold col_dataset_map. destruct (col_dataset_ids ilike db term) as [|i ids] eqn:Heq.
  { by apply elem_of_nil in Hid. }
  rewrite <- Heq in *. rewrite fold_setdefault_lookup, lookup_empty, list_filter_filter.
  simpl. do 2 f_equal. apply list_filter_iff. intros col. unfold matching_column.
  split; [tauto|]. intros [Hd ?]. rewrite Hd. tauto.
Qed.

(** Every call of [_add] is for a dataset of the catalog that its tier
    matches, with the value that matched; and every such pair of a
    dataset and a tier is the subject of a call. *)
Lemma elem_of_candidates (c : candidate) :
  c ∈ candidates ↔
  c.1.1 ∈ datasets db ∧ tier_matches c.1.2 c.1.1 ∧ matched_value c.1.2 c.1.1 = Some c.2.
Proof.
  destruct c as [[ds t] v]. unfold candidates. simpl.
  rewrite !elem_of_app, !list_elem_of_fmap.
  unfold table_matches, schema_matches, db_matches.
  setoid_rewrite list_elem_of_filter. setoid_rewrite elem_of_col_datasets.
  split.
  - intros [(ds' & [= -> -> ->] & ? & ?)|[(ds' & [= -> -> ->] & ? & Hm)|
            [(ds' & [= -> -> ->] & ? & ?)|(ds' & [= -> -> ->] & ? & ?)]]]; try done.
    split_and!; [done..|].
    destruct (col_dataset_map_lookup ds' Hm) as [-> [v Hv]]. by rewrite Hv.
  - intros (Hds & Hm & Hv). destruct t; simpl in Hv.
    + left. exists ds. injection Hv as <-. done.
    + right. left. exists ds. split; [|done].
      destruct (col_dataset_map_lookup ds Hm) as [-> _]. simpl. by rewrite Hv.
    + right. right. left. exists ds. injection Hv as <-. done.
    + right. right. right. exists ds. injection Hv as <-. done.
Qed.

Definition cand_priority_order (c1 c2 : candidate) : Prop :=
  _PRIORITY c1.1.2 ≤ _PRIORITY c2.1.2.

Lemma fmap_constant_tier_sorted (t : SearchMatchType) (f : Dataset.t → string)
    (l : list Dataset.t) :
  StronglySorted cand_priority_order ((fun ds => (ds, t, f ds)) <$> l).
Proof.
  induction l as [|ds l IH]; simpl; constructor; [done|].
  apply Forall_forall. intros c (ds' & -> & _)%list_elem_of_fmap.
  unfold cand_priority_order. simpl. lia.
Qed.

Lemma block_tier (t : SearchMatchType) (f : Dataset.t → string)
    (l : list Dataset.t) (c : candidate) :
  c ∈ (fun ds => (ds, t, f ds)) <$> l → c.1.2 = t.
Proof. by intros (ds & -> & _)%list_elem_of_fmap. Qed.

(** The loops run in ascending order of priority. *)
Lemma candidates_sorted : StronglySorted cand_priority_order candidates.
Proof.
  unfold candidates.
  apply StronglySorted_app_2;
    [|apply fmap_constant_tier_sorted
     |apply StronglySorted_app_2;
        [|apply fmap_constant_tier_sorted
         |apply StronglySorted_app_2;
            [|apply fmap_constant_tier_sorted|apply fmap_constant_tier_sorted]]].
  all: intros c1 c2 Hc1 Hc2; apply block_tier in Hc1;
    repeat (apply elem_of_app in Hc2 as [Hc2|Hc2]);
    apply block_tier in Hc2;
    unfold cand_priority_order; rewrite Hc1, Hc2; simpl; lia.
Qed.

End ranking.

Section results.
Variable ilike : string → string → bool.
Variable db : database.

(** What the loops leave in [results]: one item per FQN, built from the
    first call of [_add] for that FQN, whose tier is the best of all
    calls for it. *)
Lemma collected_spec (term : string) :
  NoDup (result_fqn <$> results (collected ilike db term)) ∧
  (∀ r, r ∈ results (collected ilike db term) →
     ∃ c, c ∈ candidates ilike db term ∧ r = item db c ∧
          ∀ c', c' ∈ candidates ilike db term → cand_fqn c' = cand_fqn c →
                _PRIORITY c.1.2 ≤ _PRIORITY c'.1.2) ∧
  (∀ c, c ∈ candidates ilike db term →
     cand_fqn c ∈ result_fqn <$> results (collected ilike db term)).
Proof.
  rewrite collected_candidates.
  destruct (collect_spec db (candidates ilike db term) {| seen_fqns := ∅; results := [] |})
    as (_ & Hnodup & Hfrom & _ & Hall).
  { intros f. simpl. rewrite elem_of_nil. split; [|done]. apply not_elem_of_empty. }
  { simpl. constructor. }
  split_and!; [done| |done].
  intros r Hr. destruct (Hfrom r Hr) as [Hnil|(cs1 & c & cs2 & Hcs & -> & Hfirst & _)].
  { by apply elem_of_nil in Hnil. }
  exists c. split_and!; [rewrite Hcs; set_solver|done|].
  intros c' Hc' Hfqn. pose proof (candidates_sorted ilike db term) as Hsorted.
  rewrite Hcs in Hc', Hsorted.
  apply elem_of_app in Hc' as [Hc'|Hc'].
  { destruct Hfirst. rewrite <- Hfqn. apply list_elem_of_fmap. eauto. }
  apply StronglySorted_app_1_r, StronglySorted_cons in Hsorted as [Hall' _].
  apply elem_of_cons in Hc' as [->|Hc']; [done|].
  rewrite Forall_forall in Hall'. by apply Hall'.
Qed.

Lemma elem_of_sorted_results (term : string) (r : SearchResultItem.t) :
  r ∈ sorted_results ilike db term ↔ r ∈ results (collected ilike db term).
Proof. unfold sorted_results. by rewrite sort_by_Permutation. Qed.

Lemma sorted_results_NoDup (term : string) :
  NoDup (result_fqn <$> sorted_results ilike db term).
Proof.
  unfold sorted_results. rewrite sort_by_Permutation. apply collected_spec.
Qed.

Lemma sorted_results_StronglySorted (term : string) :
  StronglySorted key_order (sorted_results ilike db term).
Proof.
  apply Sorted_StronglySorted; [apply _|].
  apply (sort_by_Sorted key_le sort_key key_le_total).
Qed.

(** [query] is empty or blank: the early return. *)
Definition blank (query : string) : bool :=
  String.eqb query "" || String.eqb (strip query) "".

(** The fully ranked and de-duplicated result list of a query. *)
Definition full_ranking (query : string) : list SearchResultItem.t :=
  if blank query then [] else sorted_results ilike db (strip query).

Lemma search_datasets_results (query : string) (limit : Z) :
  SearchResponse.results (search_datasets ilike db query limit)
  = slice_to (full_ranking query) limit ∧
  SearchResponse.total (search_datasets ilike db query limit)
  = Z.of_nat (length (full_ranking query)).
Proof.
  unfold search_datasets, full_ranking, blank.
  destruct (String.eqb query "" || String.eqb (strip query) ""); simpl; [|done].
  split; [|done]. unfold slice_to. case_match; by rewrite take_nil.
Qed.

Lemma elem_of_full_ranking (query : string) (r : SearchResultItem.t) :
  r ∈ full_ranking query →
  blank query = false ∧ r ∈ results (collected ilike db (strip query)).
Proof.
  unfold full_ranking. destruct (blank query).
  - by intros ?%elem_of_nil.
  - by rewrite elem_of_sorted_results.
Qed.

Lemma full_ranking_NoDup (query : string) : NoDup (result_fqn <$> full_ranking query).
Proof.
  unfold full_ranking. destruct (blank query); [constructor|apply sorted_results_NoDup].
Qed.

Lemma full_ranking_StronglySorted (query : string) :
  StronglySorted key_order (full_ranking query).
Proof.
  unfold full_ranking.
  destruct (blank query); [constructor|apply sorted_results_StronglySorted].
Qed.

Lemma candidate_of_match (term : string) (ds : Dataset.t) (t : SearchMatchType) :
  ds ∈ datasets db → tier_matches ilike db term t ds →
  ∃ v, (ds, t, v) ∈ candidates ilike db term.
Proof.
  intros Hds Hm.
  assert (is_Some (matched_value ilike db term t ds)) as [v Hv].
  { destruct t; simpl; eauto.
    by destruct (col_dataset_map_lookup ilike db term ds Hm) as [_ ?]. }
  exists v. apply elem_of_candidates. simpl. by split_and!.
Qed.

(** What an item of the ranking says about the catalog. *)
Lemma full_ranking_item (query : string) (r : SearchResultItem.t) :
  r ∈ full_ranking query →
  ∃ ds, ds ∈ datasets db ∧
    SearchResultItem.dataset r = DatasetResponse.model_validate db ds ∧
    result_fqn r = Dataset.fqn ds ∧
    tier_matches ilike db (strip query) (SearchResultItem.match_type r) ds ∧
    SearchResultItem.priority r = _PRIORITY (SearchResultItem.match_type r) ∧
    matched_value ilike db (strip query) (SearchResultItem.match_type r) ds
      = Some (SearchResultItem.matched_on r) ∧
    (∀ ds' t, ds' ∈ datasets db → Dataset.fqn ds' = Dataset.fqn ds →
              tier_matches ilike db (strip query) t ds' →
              SearchResultItem.priority r ≤ _PRIORITY t).
Proof.
  intros [_ Hr]%elem_of_full_ranking.
  destruct (collected_spec (strip query)) as (_ & Hitem & _).
  destruct (Hitem r Hr) as (c & Hc & -> & Hbest).
  apply elem_of_candidates in Hc as (Hds & Hm & Hv).
  exists c.1.1. split_and!; try done.
  intros ds' t Hds' Hfqn Hm'.
  destruct (candidate_of_match (strip query) ds' t Hds' Hm') as [v Hc'].
  by apply (Hbest (ds', t, v)).
Qed.

(** Every dataset that some tier matches is in the ranking, at that tier
    or a better one. *)
Lemma full_ranking_complete (query : string) (ds : Dataset.t) (t : SearchMatchType) :
  blank query = false → ds ∈ datasets db →
  tier_matches ilike db (strip query) t ds →
  ∃ r, r ∈ full_ranking query ∧ result_fqn r = Dataset.fqn ds ∧
       SearchResultItem.priority r ≤ _PRIORITY t.
Proof.
  intros Hblank Hds Hm.
  destruct (candidate_of_match (strip query) ds t Hds Hm) as [v Hc].
  destruct (collected_spec (strip query)) as (_ & Hitem & Hall).
  pose proof Hc as Hc0.
  apply Hall, list_elem_of_fmap in Hc as (r & Hfqn & Hr).
  exists r. split_and!.
  - unfold full_ranking. rewrite Hblank. by apply elem_of_sorted_results.
  - done.
  - destruct (Hitem r Hr) as (c & Hc & -> & Hbest).
    by apply (Hbest (ds, t, v)).
Qed.

(** The answer is a prefix of the ranking. *)
Lemma search_datasets_prefix (query : string) (limit : Z) :
  ∃ n, SearchResponse.results (search_datasets ilike db query limit)
       = take n (full_ranking query).
Proof.
  destruct (search_datasets_results query limit) as [-> _]. apply slice_to_take.
Qed.

End results.

Lemma StronglySorted_lookup {A} (R : relation A) (l : list A) (i j : nat) (x y : A) :
  StronglySorted R l → (i < j)%nat → l !! i = Some x → l !! j = Some y → R x y.
Proof.
  intros Hl. revert i j. induction Hl as [|z l _ IH Hz]; intros i j Hij Hi Hj.
  - by rewrite lookup_nil in Hi.
  - destruct j as [|j]; [lia|]. simpl in Hj. destruct i as [|i]; simpl in Hi.
    + injection Hi as ->. rewrite Forall_forall in Hz. apply Hz.
      by eapply list_elem_of_lookup_2.
    + apply (IH i j); [lia|done..].
Qed.

Lemma StronglySorted_take {A} (R : relation A) (l : list A) (n : nat) :
  StronglySorted R l → StronglySorted R (take n l).
Proof.
  intros Hl. rewrite <- (take_drop n l) in Hl. by apply StronglySorted_app_1_l in Hl.
Qed.

(** C5.  The answer of a search has at most one item per FQN.  Each item
    is for a dataset of the catalog that its tier matches, carries that
    tier's priority and the value that matched (for the column tier the
    name of the first matching column), and no tier of a better priority
    matches a dataset of that FQN. *)
Theorem search_results_unique_best_tier
    (ilike : string → string → bool) (db : database) (query : string) (limit : Z) :
  let answer := SearchResponse.results (search_datasets ilike db query limit) in
  NoDup (result_fqn <$> answer) ∧
  ∀ r, r ∈ answer →
    ∃ ds, ds ∈ datasets db ∧
      SearchResultItem.dataset r = DatasetResponse.model_validate db ds ∧
      result_fqn r = Dataset.fqn ds ∧
      tier_matches ilike db (strip query) (SearchResultItem.match_type r) ds ∧
      SearchResultItem.priority r = _PRIORITY (SearchResultItem.match_type r) ∧
      matched_value ilike db (strip query) (SearchResultItem.match_type r) ds
        = Some (SearchResultItem.matched_on r) ∧
      (∀ ds' t, ds' ∈ datasets db → Dataset.fqn ds' = Dataset.fqn ds →
                tier_matches ilike db (strip query) t ds' →
                SearchResultItem.priority r ≤ _PRIORITY t).
Proof.
  simpl. destruct (search_datasets_prefix ilike db query limit) as [n ->]. split.
  - rewrite fmap_take. eapply sublist_NoDup; [apply full_ranking_NoDup|apply sublist_take].
  - intros r Hr. apply (full_ranking_item ilike db query).
    eapply elem_of_sublist; [exact Hr|apply sublist_take].
Qed.

(** C6.  The answer of a search is sorted ascending by (priority, FQN):
    of two items the earlier has the smaller priority, or the same
    priority and the FQN that is not greater; so the priorities never
    decrease along the answer. *)
Theorem search_results_sorted
    (ilike : string → string → bool) (db : database) (query : string) (limit : Z) :
  let answer := SearchResponse.results (search_datasets ilike db query limit) in
  StronglySorted key_order answer ∧
  ∀ i j r1 r2, (i < j)%nat → answer !! i = Some r1 → answer !! j = Some r2 →
    (SearchResultItem.priority r1 < SearchResultItem.priority r2 ∨
     (SearchResultItem.priority r1 = SearchResultItem.priority r2 ∧
      String.le (result_fqn r1) (result_fqn r2))) ∧
    SearchResultItem.priority r1 ≤ SearchResultItem.priority r2.
Proof.
  simpl. destruct (search_datasets_prefix ilike db query limit) as [n ->].
  assert (Hsorted : StronglySorted key_order (take n (full_ranking ilike db query)))
    by apply StronglySorted_take, full_ranking_StronglySorted.
  split; [done|]. intros i j r1 r2 Hij Hi Hj.
  pose proof (StronglySorted_lookup _ _ i j r1 r2 Hsorted Hij Hi Hj) as Hle.
  split; [|by apply key_order_priority].
  by apply key_le_spec in Hle.
Qed.

(** C7.  The answer is cut to [limit] only after the four tiers are
    merged, de-duplicated and sorted.  Through the endpoint, every limit
    either is refused (it is below 1 or above 200, or the query is empty)
    or gives exactly the first [limit] items of the fully ranked list; the
    service does the same for every limit that is not negative, and
    [total] is the length of the full list.  That list holds every dataset
    some tier matches, at that tier or a better one, once per FQN, in
    sorted order; so every item left out by the cut sorts after every item
    kept. *)
Theorem search_truncates_after_ranking
    (ilike : string → string → bool) (db : database) (query : string) (limit : Z) :
  let resp := search_datasets ilike db query limit in
  let full := full_ranking ilike db query in
  match SearchRouter.search ilike db query (Some limit) with
  | inr answer =>
      1 ≤ limit ≤ 200 ∧ answer = resp ∧
      SearchResponse.results answer = take (Z.to_nat limit) full
  | inl _ => limit < 1 ∨ 200 < limit ∨ query = ""
  end ∧
  (0 ≤ limit → SearchResponse.results resp = take (Z.to_nat limit) full) ∧
  SearchResponse.total resp = Z.of_nat (length full) ∧
  NoDup (result_fqn <$> full) ∧
  StronglySorted key_order full ∧
  (∀ ds t, blank query = false → ds ∈ datasets db →
           tier_matches ilike db (strip query) t ds →
           ∃ r, r ∈ full ∧ result_fqn r = Dataset.fqn ds ∧
                SearchResultItem.priority r ≤ _PRIORITY t) ∧
  (∀ r r', r ∈ SearchResponse.results resp → r' ∈ full →
           r' ∉ SearchResponse.results resp → key_order r r').
Proof.
  simpl.
  destruct (search_datasets_results ilike db query limit) as [Hres Htotal].
  split_and!.
  - unfold SearchRouter.search. simpl.
    destruct (len query <? 1) eqn:Hq; simpl.
    { right. right. apply Z.ltb_lt in Hq. unfold len in Hq.
      destruct query; [done|]. simpl in Hq. lia. }
    destruct (limit <? 1) eqn:Hlo; simpl; [left; by apply Z.ltb_lt|].
    destruct (200 <? limit) eqn:Hhi; simpl; [right; left; by apply Z.ltb_lt|].
    apply Z.ltb_ge in Hlo, Hhi. split_and!; [lia|lia|done|].
    rewrite Hres. apply slice_to_nonneg. lia.
  - intros Hlimit. rewrite Hres. by apply slice_to_nonneg.
  - done.
  - apply full_ranking_NoDup.
  - apply full_ranking_StronglySorted.
  - intros ds t. apply full_ranking_complete.
  - intros r r' Hr Hr' Hout.
    destruct (search_datasets_prefix ilike db query limit) as [n Hn].
    rewrite Hn in Hr, Hout.
    pose proof (full_ranking_StronglySorted ilike db query) as Hsorted.
    rewrite <- (take_drop n) in Hsorted, Hr'.
    apply elem_of_app in Hr' as [?|Hr']; [done|].
    by eapply StronglySorted_app_1_elem_of.
Qed.

End SearchFacts.

(* ===================================================================== *)
(** * Facts about the lineage orchestration                               *)
(* ===================================================================== *)

Module LineageFacts.
Import PyStr Orm Schemas Graph GraphFacts DatasetService LineageService.

(** The stored edge set, as pairs of dataset ids, and the graph it is. *)
Definition edges_of (db : database) : list (Z * Z) := edge_pair <$> lineage db.

Definition edge_rel (db : database) (a b : Z) : Prop := (a, b) ∈ edges_of db.

Definition acyclic (db : database) : Prop := ∀ x, ¬ tc (edge_rel db) x x.

(** [msg] has [f] in it. *)
Definition mentions (msg f : string) : Prop := ∃ pre post, msg = pre +:+ f +:+ post.

Lemma append_assoc (a b c : string) : (a +:+ b) +:+ c = a +:+ b +:+ c.
Proof.
  induction a as [|x a IH]; [done|].
  change (String x ((a +:+ b) +:+ c) = String x (a +:+ b +:+ c)). by f_equal.
Qed.

Lemma find_dataset_by_fqn_None (db : database) (f : string) :
  find_dataset_by_fqn db f = None ↔ ∀ ds, ds ∈ datasets db → Dataset.fqn ds ≠ f.
Proof.
  unfold find_dataset_by_fqn. induction (datasets db) as [|ds l IH]; simpl.
  - split; [|done]. intros _ ds Hds. by apply elem_of_nil in Hds.
  - destruct (String.eqb (Dataset.fqn ds) f) eqn:Heq.
    + apply String.eqb_eq in Heq. split; [done|]. intros H. destruct (H ds); [left|done].
    + apply String.eqb_neq in Heq. rewrite IH. split.
      * intros H ds' [->|?]%elem_of_cons; auto.
      * intros H ds' ?. apply H. by right.
Qed.

Lemma find_dataset_by_fqn_Some (db : database) (f : string) (ds : Dataset.t) :
  find_dataset_by_fqn db f = Some ds → ds ∈ datasets db ∧ Dataset.fqn ds = f.
Proof.
  intros [Hin Heq]%List.find_some. apply String.eqb_eq in Heq.
  by apply list_elem_of_In in Hin.
Qed.

Lemma find_lineage_edge_None (db : database) (u d : Z) :
  find_lineage_edge db u d = None ↔ (u, d) ∉ edges_of db.
Proof.
  unfold find_lineage_edge, edges_of. induction (lineage db) as [|e l IH]; csimpl.
  - split; [|done]. intros _. apply not_elem_of_nil.
  - rewrite not_elem_of_cons. unfold edge_pair at 1.
    destruct ((Lineage.upstream_id e =? u) && (Lineage.downstream_id e =? d)) eqn:Heq.
    + apply andb_true_iff in Heq as [->%Z.eqb_eq ->%Z.eqb_eq]. split; [done|]. by intros [? _].
    + rewrite IH. split; [|tauto]. intros H. split; [|done]. intros [= -> ->].
      by rewrite !Z.eqb_refl in Heq.
Qed.

Lemma find_lineage_edge_Some (db : database) (u d : Z) (e : Lineage.t) :
  find_lineage_edge db u d = Some e → e ∈ lineage db ∧ edge_pair e = (u, d).
Proof.
  intros [Hin Heq]%List.find_some.
  apply andb_true_iff in Heq as [Hu%Z.eqb_eq Hd%Z.eqb_eq].
  apply list_elem_of_In in Hin. unfold edge_pair. by rewrite Hu, Hd.
Qed.

(** Reachability in the adjacency map the service builds is reachability
    in the stored edge set. *)
Lemma reachable_edges_of (db : database) (a b : Z) :
  reachable (build_adjacency (edges_of db)) a b ↔ rtc (edge_rel db) a b.
Proof.
  unfold reachable. split; apply rtc_subrel; intros x y Hxy;
    by apply build_adjacency_neighbours.
Qed.

Lemma would_create_cycle_edges_of (db : database) (u d : Z) :
  would_create_cycle u d (build_adjacency (edges_of db)) = true
  ↔ u = d ∨ rtc (edge_rel db) d u.
Proof. by rewrite would_create_cycle_true_iff, reachable_edges_of. Qed.

(** A path in a graph with one more edge either avoids the new edge or
    reaches its source and leaves from its target. *)
Lemma tc_extra_edge (R R' : relation Z) (u d x y : Z) :
  (∀ a b, R' a b → R a b ∨ (a = u ∧ b = d)) →
  tc R' x y → tc R x y ∨ (rtc R x u ∧ rtc R d y).
Proof.
  intros Hstep. induction 1 as [x y Hxy|x y z Hxy _ IH].
  - destruct (Hstep x y Hxy) as [?|[-> ->]]; [left; by apply tc_once|by right].
  - destruct (Hstep x y Hxy) as [HR|[-> ->]], IH as [IH|[IH1 IH2]].
    + left. by eapply tc_l.
    + right. split; [by eapply rtc_l|done].
    + right. split; [done|by apply tc_rtc].
    + by right.
Qed.

(** The store after a new edge row. *)
Definition with_edge (db : database) (e : Lineage.t) : database :=
  {| datasets := datasets db;
     dataset_columns := dataset_columns db;
     lineage := lineage db ++ [e];
     next_dataset_id := next_dataset_id db;
     next_column_id := next_column_id db;
     next_lineage_id := next_lineage_id db + 1 |}.

(** The store after the row with key [i] is deleted from [lineage]. *)
Definition without_edge (db : database) (i : Z) : database :=
  {| datasets := datasets db;
     dataset_columns := dataset_columns db;
     lineage := filter (fun e => Lineage.id e ≠ i) (lineage db);
     next_dataset_id := next_dataset_id db;
     next_column_id := next_column_id db;
     next_lineage_id := next_lineage_id db |}.

Definition upstream_not_found (up : string) : string :=
  "Upstream dataset '" +:+ up +:+ "' not found.".
Definition downstream_not_found (down : string) : string :=
  "Downstream dataset '" +:+ down +:+ "' not found.".
Definition edge_exists_message (up down : string) : string :=
  "Lineage edge '" +:+ up +:+ "' → '" +:+ down +:+ "' already exists.".
Definition edge_missing_message (up down : string) : string :=
  "Lineage edge '" +:+ up +:+ "' → '" +:+ down +:+ "' does not exist.".
Definition cycle_message (up down : string) : string :=
  "Cannot add lineage '" +:+ up +:+ "' → '" +:+ down +:+ "': "
    +:+ "this would create a cycle. "
    +:+ "'" +:+ up +:+ "' is already downstream of '" +:+ down +:+ "' "
    +:+ "(directly or transitively).".

(** [add_lineage] unfolded along its checks. *)
Lemma add_lineage_run (s : session) (up down : string) :
  add_lineage up down s =
  let db := store s in
  let log := statements s in
  match find_dataset_by_fqn db up with
  | None =>
      (Raise (NotFoundError (upstream_not_found up)),
       Session db (log ++ [SelectDatasetByFqn up]))
  | Some u =>
  match find_dataset_by_fqn db down with
  | None =>
      (Raise (NotFoundError (downstream_not_found down)),
       Session db (log ++ [SelectDatasetByFqn up; SelectDatasetByFqn down]))
  | Some d =>
  let log := log ++ [SelectDatasetByFqn up; SelectDatasetByFqn down;
                     SelectLineageEdge (Dataset.id u) (Dataset.id d)] in
  match find_lineage_edge db (Dataset.id u) (Dataset.id d) with
  | Some _ => (Raise (ConflictError (edge_exists_message up down)), Session db log)
  | None =>
  if would_create_cycle (Dataset.id u) (Dataset.id d) (build_adjacency (edges_of db))
  then (Raise (CycleError (cycle_message up down)),
        Session db (log ++ [SelectAllLineage]))
  else
    let e := {| Lineage.id := next_lineage_id db;
                Lineage.upstream_id := Dataset.id u;
                Lineage.downstream_id := Dataset.id d |} in
    (Ok e, Session (with_edge db e)
                   (log ++ [SelectAllLineage;
                            InsertLineage (Dataset.id u) (Dataset.id d)]))
  end end end.
Proof.
  unfold add_lineage, bind, get_dataset_by_fqn, select_dataset_by_fqn,
    select_lineage_edge, _load_full_adjacency, select_all_lineage, execute, ret, raise.
  simpl.
  destruct (find_dataset_by_fqn (store s) up) as [u|]; simpl; [|done].
  destruct (find_dataset_by_fqn (store s) down) as [d|]; simpl.
  2: { by rewrite <- app_assoc. }
  destruct (find_lineage_edge (store s) (Dataset.id u) (Dataset.id d)) eqn:Hedge; simpl.
  { by rewrite <- !app_assoc. }
  unfold edges_of.
  destruct (would_create_cycle _ _ _); unfold raise, insert_lineage; simpl.
  - by rewrite <- !app_assoc.
  - rewrite Hedge. by rewrite <- !app_assoc.
Qed.

Lemma remove_lineage_run (s : session) (up down : string) :
  remove_lineage up down s =
  let db := store s in
  let log := statements s in
  match find_dataset_by_fqn db up with
  | None =>
      (Raise (NotFoundError (upstream_not_found up)),
       Session db (log ++ [SelectDatasetByFqn up]))
  | Some u =>
  match find_dataset_by_fqn db down with
  | None =>
      (Raise (NotFoundError (downstream_not_found down)),
       Session db (log ++ [SelectDatasetByFqn up; SelectDatasetByFqn down]))
  | Some d =>
  let log := log ++ [SelectDatasetByFqn up; SelectDatasetByFqn down;
                     SelectLineageEdge (Dataset.id u) (Dataset.id d)] in
  match find_lineage_edge db (Dataset.id u) (Dataset.id d) with
  | None => (Raise (NotFoundError (edge_missing_message up down)), Session db log)
  | Some e => (Ok tt, Session (without_edge db (Lineage.id e))
                              (log ++ [DeleteLineage (Lineage.id e)]))
  end end end.
Proof.
  unfold remove_lineage, bind, get_dataset_by_fqn, select_dataset_by_fqn,
    select_lineage_edge, execute, raise.
  simpl.
  destruct (find_dataset_by_fqn (store s) up) as [u|]; simpl; [|done].
  destruct (find_dataset_by_fqn (store s) down) as [d|]; simpl.
  2: { by rewrite <- app_assoc. }
  destruct (find_lineage_edge (store s) (Dataset.id u) (Dataset.id d)) eqn:Hedge; simpl.
  - unfold delete_lineage. simpl. by rewrite <- !app_assoc.
  - unfold raise. by rewrite <- !app_assoc.
Qed.

Lemma mentions_cycle_message (up down : string) :
  mentions (cycle_message up down) up ∧
  mentions (cycle_message up down) down ∧
  mentions (cycle_message up down) "cycle".
Proof.
  unfold mentions, cycle_message. split_and!.
  - by eexists "Cannot add lineage '", _.
  - exists ("Cannot add lineage '" +:+ up +:+ "' → '"). eexists.
    by rewrite !append_assoc.
  - exists ("Cannot add lineage '" +:+ up +:+ "' → '" +:+ down +:+ "': "
            +:+ "this would create a ").
    exists (". " +:+ "'" +:+ up +:+ "' is already downstream of '" +:+ down +:+ "' "
            +:+ "(directly or transitively).").
    by rewrite !append_assoc.
Qed.

(** C4.  The checks of [add_lineage], in their order.  An upstream FQN
    that no dataset has: [NotFoundError] naming it, after one lookup.
    Else a downstream FQN that no dataset has: [NotFoundError] naming it.
    Else an edge with this ordered pair already stored: [ConflictError].
    Else the upstream id equal to the downstream id, or reachable from it
    through the stored edges: [CycleError], the message naming both FQNs.
    Else the new edge is appended to the stored edges and returned.  On
    every failure the store is as it was. *)
Theorem add_lineage_checks_in_order (s : session) (up down : string) :
  let db := store s in
  let sent := fun l => Session db (statements s ++ l) in
  ((∀ ds, ds ∈ datasets db → Dataset.fqn ds ≠ up) →
     add_lineage up down s
     = (Raise (NotFoundError (upstream_not_found up)), sent [SelectDatasetByFqn up])
     ∧ mentions (upstream_not_found up) up) ∧
  (∀ u, find_dataset_by_fqn db up = Some u →
     (∀ ds, ds ∈ datasets db → Dataset.fqn ds ≠ down) →
     add_lineage up down s
     = (Raise (NotFoundError (downstream_not_found down)),
        sent [SelectDatasetByFqn up; SelectDatasetByFqn down])
     ∧ mentions (downstream_not_found down) down) ∧
  (∀ u d, find_dataset_by_fqn db up = Some u → find_dataset_by_fqn db down = Some d →
     let lookups := [SelectDatasetByFqn up; SelectDatasetByFqn down;
                     SelectLineageEdge (Dataset.id u) (Dataset.id d)] in
     ((Dataset.id u, Dataset.id d) ∈ edges_of db →
        add_lineage up down s
        = (Raise (ConflictError (edge_exists_message up down)), sent lookups)) ∧
     ((Dataset.id u, Dataset.id d) ∉ edges_of db →
      Dataset.id u = Dataset.id d ∨ rtc (edge_rel db) (Dataset.id d) (Dataset.id u) →
        add_lineage up down s
        = (Raise (CycleError (cycle_message up down)), sent (lookups ++ [SelectAllLineage]))
        ∧ mentions (cycle_message up down) up
        ∧ mentions (cycle_message up down) down
        ∧ mentions (cycle_message up down) "cycle") ∧
     ((Dataset.id u, Dataset.id d) ∉ edges_of db →
      Dataset.id u ≠ Dataset.id d →
      ¬ rtc (edge_rel db) (Dataset.id d) (Dataset.id u) →
        let e := {| Lineage.id := next_lineage_id db;
                    Lineage.upstream_id := Dataset.id u;
                    Lineage.downstream_id := Dataset.id d |} in
        add_lineage up down s
        = (Ok e, Session (with_edge db e)
                   (statements s ++ lookups ++
                      [SelectAllLineage; InsertLineage (Dataset.id u) (Dataset.id d)])))).
Proof.
  simpl. rewrite add_lineage_run. simpl. split_and!.
  - intros Hup%find_dataset_by_fqn_None. rewrite Hup. split; [done|].
    by eexists "Upstream dataset '", _.
  - intros u Hu Hdown%find_dataset_by_fqn_None. rewrite Hu, Hdown. split; [done|].
    by eexists "Downstream dataset '", _.
  - intros u d Hu Hd. rewrite Hu, Hd. split_and!.
    + intros Hedge.
      destruct (find_lineage_edge (store s) (Dataset.id u) (Dataset.id d)) eqn:Hfind; [done|].
      by apply find_lineage_edge_None in Hfind.
    + intros Hedge%find_lineage_edge_None Hcycle%would_create_cycle_edges_of.
      rewrite Hedge, Hcycle. rewrite <- app_assoc.
      split; [done|apply mentions_cycle_message].
    + intros Hedge%find_lineage_edge_None Hne Hreach. rewrite Hedge.
      destruct (would_create_cycle _ _ _) eqn:Hcycle.
      { apply would_create_cycle_edges_of in Hcycle. tauto. }
      by rewrite <- app_assoc.
Qed.

(** ** The DAG invariant *)

(** An attempted edge operation. *)
Inductive operation :=
| AddLineage (upstream_fqn downstream_fqn : string)
| RemoveLineage (upstream_fqn downstream_fqn : string).

(** The session after the attempt, whether it returned or raised. *)
Definition run (s : session) (op : operation) : session :=
  match op with
  | AddLineage up down => (add_lineage up down s).2
  | RemoveLineage up down => (remove_lineage up down s).2
  end.

Lemma acyclic_subset (db db' : database) :
  (∀ a b, edge_rel db' a b → edge_rel db a b) → acyclic db → acyclic db'.
Proof.
  intros Hsub Hacyc x Hx. apply (Hacyc x). clear Hacyc.
  assert (Hmono : ∀ a b, tc (edge_rel db') a b → tc (edge_rel db) a b); [|by apply Hmono].
  clear x Hx. induction 1 as [a b Hab|a b c Hab _ IH].
  - by apply tc_once, Hsub.
  - eapply tc_l; [by apply Hsub|done].
Qed.

Lemma edge_rel_with_edge (db : database) (e : Lineage.t) (a b : Z) :
  edge_rel (with_edge db e) a b →
  edge_rel db a b ∨ (a = Lineage.upstream_id e ∧ b = Lineage.downstream_id e).
Proof.
  unfold edge_rel, edges_of, with_edge. simpl. rewrite fmap_app, elem_of_app. simpl.
  rewrite list_elem_of_singleton. unfold edge_pair at 2. intros [?|[= -> ->]]; auto.
Qed.

Lemma edge_rel_without_edge (db : database) (i : Z) (a b : Z) :
  edge_rel (without_edge db i) a b → edge_rel db a b.
Proof.
  unfold edge_rel, edges_of, without_edge. simpl. rewrite !list_elem_of_fmap.
  intros (e & -> & [_ He]%list_elem_of_filter). eauto.
Qed.

(** Adding an edge the cycle check lets through keeps the graph acyclic. *)
Lemma acyclic_with_edge (db : database) (e : Lineage.t) :
  acyclic db →
  would_create_cycle (Lineage.upstream_id e) (Lineage.downstream_id e)
    (build_adjacency (edges_of db)) = false →
  acyclic (with_edge db e).
Proof.
  intros Hacyc Hcheck x Hx.
  assert (Hno : ¬ (Lineage.upstream_id e = Lineage.downstream_id e
                   ∨ rtc (edge_rel db) (Lineage.downstream_id e) (Lineage.upstream_id e))).
  { rewrite <- would_create_cycle_edges_of. by rewrite Hcheck. }
  apply (tc_extra_edge (edge_rel db) _ (Lineage.upstream_id e) (Lineage.downstream_id e))
    in Hx as [Hx|[Hxu Hdx]]; [by apply (Hacyc x)| |apply edge_rel_with_edge].
  apply Hno. right. by etrans.
Qed.

(** What a successful [add_lineage] did. *)
Lemma add_lineage_Ok (s s' : session) (up down : string) (e : Lineage.t) :
  add_lineage up down s = (Ok e, s') →
  would_create_cycle (Lineage.upstream_id e) (Lineage.downstream_id e)
    (build_adjacency (edges_of (store s))) = false ∧
  store s' = with_edge (store s) e.
Proof.
  rewrite add_lineage_run. simpl.
  destruct (find_dataset_by_fqn (store s) up) as [u|]; [|done].
  destruct (find_dataset_by_fqn (store s) down) as [d|]; [|done].
  destruct (find_lineage_edge _ _ _); [done|].
  destruct (would_create_cycle _ _ _) eqn:Hcheck; [done|].
  by intros [= <- <-].
Qed.

Lemma add_lineage_Raise (s s' : session) (up down : string) (exc : error) :
  add_lineage up down s = (Raise exc, s') → store s' = store s.
Proof.
  rewrite add_lineage_run. simpl.
  destruct (find_dataset_by_fqn (store s) up) as [u|]; [|by intros [= _ <-]].
  destruct (find_dataset_by_fqn (store s) down) as [d|]; [|by intros [= _ <-]].
  destruct (find_lineage_edge _ _ _); [by intros [= _ <-]|].
  destruct (would_create_cycle _ _ _); [by intros [= _ <-]|done].
Qed.

(** What [remove_lineage] can do to the store. *)
Lemma remove_lineage_store (s s' : session) (up down : string) (r : result unit) :
  remove_lineage up down s = (r, s') →
  (r = Ok tt ∧ ∃ e, e ∈ lineage (store s) ∧ store s' = without_edge (store s) (Lineage.id e))
  ∨ ((∃ exc, r = Raise exc) ∧ store s' = store s).
Proof.
  rewrite remove_lineage_run. simpl.
  destruct (find_dataset_by_fqn (store s) up) as [u|]; [|intros [= <- <-]; right; eauto].
  destruct (find_dataset_by_fqn (store s) down) as [d|]; [|intros [= <- <-]; right; eauto].
  destruct (find_lineage_edge _ _ _) as [e|] eqn:He; intros [= <- <-]; [|right; eauto].
  left. split; [done|]. exists e. split; [|done]. by apply find_lineage_edge_Some in He as [? _].
Qed.

Lemma run_acyclic (s : session) (op : operation) :
  acyclic (store s) → acyclic (store (run s op)).
Proof.
  intros Hacyc. destruct op as [up down|up down]; simpl.
  - destruct (add_lineage up down s) as [[e|exc] s'] eqn:Hrun; simpl.
    + apply add_lineage_Ok in Hrun as [Hcheck ->]. by apply acyclic_with_edge.
    + apply add_lineage_Raise in Hrun as ->. done.
  - destruct (remove_lineage up down s) as [r s'] eqn:Hrun; simpl.
    apply remove_lineage_store in Hrun as [[_ (e & _ & ->)]|[_ ->]]; [|done].
    eapply acyclic_subset; [|exact Hacyc]. apply edge_rel_without_edge.
Qed.

(** C2.  From a store whose edges form a DAG, every sequence of
    [add_lineage] and [remove_lineage] calls leaves a store whose edges
    form a DAG.  A call of [add_lineage] that returns appended exactly the
    returned edge, and [would_create_cycle] on its two ends over the
    adjacency map of the edges stored before was [False]; a call that
    raises leaves the edges as they were; [remove_lineage] only takes rows
    away. *)
Theorem lineage_stays_acyclic (s : session) (ops : list operation) :
  acyclic (store s) →
  acyclic (store (fold_left run ops s)) ∧
  (∀ up down e s', add_lineage up down s = (Ok e, s') →
     would_create_cycle (Lineage.upstream_id e) (Lineage.downstream_id e)
       (build_adjacency (edges_of (store s))) = false ∧
     lineage (store s') = lineage (store s) ++ [e]) ∧
  (∀ up down exc s', add_lineage up down s = (Raise exc, s') →
     lineage (store s') = lineage (store s)) ∧
  (∀ up down r s', remove_lineage up down s = (r, s') →
     lineage (store s') `sublist_of` lineage (store s)).
Proof.
  intros Hacyc. split_and!.
  - revert s Hacyc. induction ops as [|op ops IH]; intros s Hacyc; simpl; [done|].
    by apply IH, run_acyclic.
  - intros up down e s' [Hcheck ->]%add_lineage_Ok. done.
  - by intros up down exc s' ->%add_lineage_Raise.
  - intros up down r s' [[_ (e & _ & ->)]|[_ ->]]%remove_lineage_store; [|done].
    simpl. apply sublist_filter.
Qed.

End LineageFacts.

(* ===================================================================== *)
(** * Facts about the lineage endpoint                                    *)
(* ===================================================================== *)

Module RouterFacts.
Import PyStr Orm Schemas.

(** C3.  A request whose upstream FQN equals its downstream FQN is
    answered with a validation error, whether or not the FQN resolves, and
    the session comes back as it went in: no statement was sent to the
    store, so no dataset was looked up and nothing was written. *)
Theorem self_loop_rejected_before_lookup (body : LineageCreate.t) (db : session) :
  LineageCreate.upstream_fqn body = LineageCreate.downstream_fqn body →
  ∃ issues, issues ≠ [] ∧
    LineageRouter.add_lineage body db = (LineageRouter.RequestValidationError issues, db).
Proof.
  intros Hself. unfold LineageRouter.add_lineage, LineageCreate.validate.
  destruct (check_length "upstream_fqn" _ _ _ ++ check_length "downstream_fqn" _ _ _)
    as [|i issues].
  - unfold LineageCreate.check_not_self_loop. rewrite Hself, String.eqb_refl.
    by eexists; split; [|reflexivity].
  - by eexists; split; [|reflexivity].
Qed.

End RouterFacts.

(* ===================================================================== *)
(** * Facts about dataset creation                                        *)
(* ===================================================================== *)

Module DatasetFacts.
Import PyStr Orm Schemas DatasetService.
Import LineageFacts.

(** The column objects [create_dataset] builds from a payload. *)
Definition new_columns (payload : DatasetCreate.t) : list DatasetColumn.transient :=
  (fun col =>
     {| DatasetColumn.new_name := strip (ColumnBase.name col);
        DatasetColumn.new_data_type := upper (strip (ColumnBase.data_type col));
        DatasetColumn.new_description := ColumnBase.description col |})
    <$> DatasetCreate.columns payload.

(** What is recorded of a stored column: its dataset, name, data type and
    description. *)
Definition column_content (c : DatasetColumn.t) : Z * string * string * option string :=
  (DatasetColumn.dataset_id c, DatasetColumn.name c, DatasetColumn.data_type c,
   DatasetColumn.description c).

Lemma validate_list_inr {I T} (validate : I → list issue + T) (l : list I) (vs : list T) :
  validate_list validate l = inr vs → Forall2 (fun x v => validate x = inr v) l vs.
Proof.
  revert vs. induction l as [|x l IH]; intros vs; simpl.
  - intros [= <-]. constructor.
  - destruct (validate x) as [e|v] eqn:Hx, (validate_list validate l) as [es|vs'];
      try done. intros [= <-]. constructor; [done|]. by apply IH.
Qed.

Lemma ColumnBase_validate_inr (r : ColumnBase.input) (col : ColumnBase.t) :
  ColumnBase.validate r = inr col →
  ColumnBase.name col = strip (ColumnBase.in_name r) ∧
  ColumnBase.data_type col = default "STRING" (ColumnBase.in_data_type r) ∧
  ColumnBase.description col = ColumnBase.in_description r.
Proof.
  unfold ColumnBase.validate. case_match; [|done]. by intros [= <-].
Qed.

Lemma DatasetCreate_validate_inr (raw : DatasetCreate.input) (payload : DatasetCreate.t) :
  DatasetCreate.validate raw = inr payload →
  DatasetCreate.connection_name payload = lower (strip (DatasetCreate.in_connection_name raw)) ∧
  DatasetCreate.database_name payload = lower (strip (DatasetCreate.in_database_name raw)) ∧
  DatasetCreate.schema_name payload = lower (strip (DatasetCreate.in_schema_name raw)) ∧
  DatasetCreate.table_name payload = lower (strip (DatasetCreate.in_table_name raw)) ∧
  Forall2 (fun r col => ColumnBase.validate r = inr col)
          (DatasetCreate.in_columns raw) (DatasetCreate.columns payload).
Proof.
  unfold DatasetCreate.validate.
  destruct (check_length "connection_name" _ _ _ ++ _) as [|i issues];
    destruct (validate_list _ _) as [es|cols] eqn:Hcols; try done.
  intros [= <-]. simpl. split_and!; try done. by apply validate_list_inr.
Qed.

(** [create_dataset] unfolded along its checks. *)
Lemma create_dataset_run (payload : DatasetCreate.t) (s : session) :
  create_dataset payload s =
  let fqn := DatasetCreate.fqn payload in
  match find_dataset_by_fqn (store s) fqn with
  | Some _ =>
      (Raise (ConflictError ("Dataset '" +:+ fqn +:+ "' already exists.")),
       Session (store s) (statements s ++ [SelectDatasetByFqn fqn]))
  | None =>
      insert_dataset fqn
        (DatasetCreate.connection_name payload) (DatasetCreate.database_name payload)
        (DatasetCreate.schema_name payload) (DatasetCreate.table_name payload)
        (DatasetCreate.source_system payload) (DatasetCreate.description payload)
        (new_columns payload)
        (Session (store s) (statements s ++ [SelectDatasetByFqn fqn]))
  end.
Proof.
  unfold create_dataset, bind, get_dataset_by_fqn, select_dataset_by_fqn, execute, raise.
  simpl. by destruct (find_dataset_by_fqn _ _).
Qed.

(** How the stored columns of a new dataset relate to the columns of the
    request: what the schema and the service do to each field. *)
Definition stored_column (dataset_id : Z) (r : ColumnBase.input)
  : Z * string * string * option string :=
  (dataset_id,
   strip (ColumnBase.in_name r),
   upper (strip (default "STRING" (ColumnBase.in_data_type r))),
   ColumnBase.in_description r).

Lemma new_columns_content (raws : list ColumnBase.input) (cols : list ColumnBase.t)
    (i : Z) (f : nat → Z) :
  Forall2 (fun r col => ColumnBase.validate r = inr col) raws cols →
  column_content <$>
    imap (fun n c =>
            {| DatasetColumn.id := f n;
               DatasetColumn.dataset_id := i;
               DatasetColumn.name := DatasetColumn.new_name c;
               DatasetColumn.data_type := DatasetColumn.new_data_type c;
               DatasetColumn.description := DatasetColumn.new_description c |})
         ((fun col =>
             {| DatasetColumn.new_name := strip (ColumnBase.name col);
                DatasetColumn.new_data_type := upper (strip (ColumnBase.data_type col));
                DatasetColumn.new_description := ColumnBase.description col |}) <$> cols)
  = stored_column i <$> raws.
Proof.
  intros Hvalid. revert f. induction Hvalid as [|r col raws cols Hr _ IH]; intros f.
  - done.
  - rewrite fmap_cons, imap_cons, !fmap_cons. f_equal; [|apply (IH (f ∘ S))].
    apply ColumnBase_validate_inr in Hr as (Hname & Htype & Hdescr).
    unfold column_content, stored_column. simpl.
    by rewrite Hname, Htype, Hdescr, PyStrFacts.strip_idemp.
Qed.

(** A stored column whose name is trimmed and whose data-type label is
    upper-cased: stripping the one and upper-casing the other change
    nothing. *)
Definition canonical_column (c : DatasetColumn.t) : Prop :=
  strip (DatasetColumn.name c) = DatasetColumn.name c ∧
  upper (DatasetColumn.data_type c) = DatasetColumn.data_type c.

Lemma stored_column_canonical (i : Z) (raws : list ColumnBase.input)
    (rows : list DatasetColumn.t) :
  column_content <$> rows = stored_column i <$> raws → Forall canonical_column rows.
Proof.
  revert raws. induction rows as [|c rows IH]; intros [|r raws]; try done.
  rewrite !fmap_cons. intros [= Hid Hname Htype Hdescr Hrest]. constructor; [|by eapply IH].
  unfold canonical_column.
  by rewrite Hname, Htype, PyStrFacts.strip_idemp, PyStrFacts.upper_idemp.
Qed.

(** The names the store is given for the new columns are the trimmed
    names of the request. *)
Lemma new_columns_names (raws : list ColumnBase.input) (payload : DatasetCreate.t) :
  Forall2 (fun r col => ColumnBase.validate r = inr col) raws (DatasetCreate.columns payload) →
  DatasetColumn.new_name <$> new_columns payload
  = (fun r => strip (ColumnBase.in_name r)) <$> raws.
Proof.
  unfold new_columns. rewrite <- list_fmap_compose.
  induction 1 as [|r col raws cols Hr _ IH]; csimpl; [done|].
  apply ColumnBase_validate_inr in Hr as (-> & _). by rewrite PyStrFacts.strip_idemp, IH.
Qed.

(** A dataset appended under an FQN that no stored dataset has is the one
    a lookup of that FQN finds. *)
Lemma find_dataset_by_fqn_appended (db db' : database) (ds : Dataset.t) (f : string) :
  datasets db' = datasets db ++ [ds] → Dataset.fqn ds = f →
  find_dataset_by_fqn db f = None →
  find_dataset_by_fqn db' f = Some ds.
Proof.
  unfold find_dataset_by_fqn. intros -> <- Hnone.
  induction (datasets db) as [|x l IH]; simpl in *.
  - by rewrite String.eqb_refl.
  - destruct (String.eqb (Dataset.fqn x) (Dataset.fqn ds)); [done|]. by apply IH.
Qed.

(** C9.  For a payload that passes validation: each of the four identity
    components is the trimmed, lower-cased component of the request, and
    the FQN is their dot-join.  [create_dataset] raises [ConflictError]
    exactly when a stored dataset has that FQN.  It returns exactly when
    no stored dataset has that FQN and the trimmed column names of the
    request are distinct; a call that raises leaves the stored rows as
    they were.  When it returns, the dataset is appended to the stored
    datasets under that FQN and those components and is what a lookup of
    the FQN then finds, and one column row per requested column is
    appended, in order: its name is the trimmed name of the request, its
    data-type label the upper-cased (and trimmed) label of the request,
    so every stored name is trimmed and every stored label is
    upper-cased. *)
Theorem create_dataset_normalizes_and_persists
    (raw : DatasetCreate.input) (payload : DatasetCreate.t) (s : session) :
  DatasetCreate.validate raw = inr payload →
  let connection := lower (strip (DatasetCreate.in_connection_name raw)) in
  let database := lower (strip (DatasetCreate.in_database_name raw)) in
  let schema := lower (strip (DatasetCreate.in_schema_name raw)) in
  let table := lower (strip (DatasetCreate.in_table_name raw)) in
  let fqn := connection +:+ "." +:+ database +:+ "." +:+ schema +:+ "." +:+ table in
  (DatasetCreate.connection_name payload = connection ∧
   DatasetCreate.database_name payload = database ∧
   DatasetCreate.schema_name payload = schema ∧
   DatasetCreate.table_name payload = table ∧
   DatasetCreate.fqn payload = fqn) ∧
  ((∃ msg s', create_dataset payload s = (Raise (ConflictError msg), s'))
   ↔ ∃ ds, ds ∈ datasets (store s) ∧ Dataset.fqn ds = fqn) ∧
  ((∃ ds s', create_dataset payload s = (Ok ds, s'))
   ↔ (∀ ds, ds ∈ datasets (store s) → Dataset.fqn ds ≠ fqn) ∧
     NoDup ((fun r => strip (ColumnBase.in_name r)) <$> DatasetCreate.in_columns raw)) ∧
  (∀ exc s', create_dataset payload s = (Raise exc, s') → store s' = store s) ∧
  (∀ ds s', create_dataset payload s = (Ok ds, s') →
     (Dataset.fqn ds = fqn ∧
      Dataset.connection_name ds = connection ∧
      Dataset.database_name ds = database ∧
      Dataset.schema_name ds = schema ∧
      Dataset.table_name ds = table) ∧
     datasets (store s') = datasets (store s) ++ [ds] ∧
     find_dataset_by_fqn (store s') fqn = Some ds ∧
     ∃ rows, dataset_columns (store s') = dataset_columns (store s) ++ rows ∧
             column_content <$> rows
             = stored_column (Dataset.id ds) <$> DatasetCreate.in_columns raw ∧
             Forall canonical_column rows).
Proof.
  intros (Hc & Hd & Hs & Ht & Hcols)%DatasetCreate_validate_inr. simpl.
  assert (Hfqn : DatasetCreate.fqn payload
                 = lower (strip (DatasetCreate.in_connection_name raw)) +:+ "."
                   +:+ lower (strip (DatasetCreate.in_database_name raw)) +:+ "."
                   +:+ lower (strip (DatasetCreate.in_schema_name raw)) +:+ "."
                   +:+ lower (strip (DatasetCreate.in_table_name raw))).
  { unfold DatasetCreate.fqn. by rewrite Hc, Hd, Hs, Ht. }
  rewrite <- Hfqn, <- Hc, <- Hd, <- Hs, <- Ht. clear Hfqn Hc Hd Hs Ht.
  assert (Hnames : names_distinct (new_columns payload) = true
                   ↔ NoDup ((fun r => strip (ColumnBase.in_name r))
                              <$> DatasetCreate.in_columns raw)).
  { unfold names_distinct. rewrite bool_decide_eq_true.
    by rewrite (new_columns_names _ _ Hcols). }
  rewrite create_dataset_run. simpl. split_and!; try done.
  - destruct (find_dataset_by_fqn (store s) (DatasetCreate.fqn payload)) as [ds|] eqn:Hfind.
    + split; [|eauto]. intros _. exists ds. by apply find_dataset_by_fqn_Some.
    + split.
      * unfold insert_dataset. simpl. rewrite Hfind.
        intros (msg & s' & Hrun). by destruct (negb _).
      * intros (ds & Hds & Heq). exfalso.
        by apply (proj1 (find_dataset_by_fqn_None _ _) Hfind ds).
  - rewrite <- find_dataset_by_fqn_None, <- Hnames.
    destruct (find_dataset_by_fqn (store s) (DatasetCreate.fqn payload)) as [ds|] eqn:Hfind.
    + split; [by intros (? & ? & ?)|by intros [? _]].
    + unfold insert_dataset. simpl. rewrite Hfind.
      destruct (names_distinct (new_columns payload)); simpl.
      * split; [done|]. intros _. by eexists _, _.
      * split; [by intros (? & ? & ?)|by intros [_ ?]].
  - intros exc s'.
    destruct (find_dataset_by_fqn (store s) (DatasetCreate.fqn payload)) eqn:Hfind.
    + by intros [= _ <-].
    + unfold insert_dataset. simpl. rewrite Hfind.
      destruct (negb _); [|done]. by intros [= _ <-].
  - intros ds s'.
    destruct (find_dataset_by_fqn (store s) (DatasetCreate.fqn payload)) eqn:Hfind; [done|].
    unfold insert_dataset. simpl. rewrite Hfind.
    destruct (negb _); [done|]. intros [= <- <-]. simpl. split_and!; try done.
    + by eapply (find_dataset_by_fqn_appended (store s)).
    + eexists. split; [done|].
      assert (Hcontent := new_columns_content _ _ (next_dataset_id (store s))
                            (fun n => next_column_id (store s) + Z.of_nat n) Hcols).
      split; [exact Hcontent|]. by eapply stored_column_canonical.
Qed.

End DatasetFacts.

(* ===================================================================== *)
(** * The scenarios of the test suite, run on the embedding               *)
(* ===================================================================== *)

Module Scenarios.
Import PyStr Orm Schemas Graph GraphFacts.
Import DatasetService LineageService SearchService.
Import SearchFacts LineageFacts DatasetFacts.

(** ** tests/test_graph.py *)

Example test_empty_graph_no_cycle : would_create_cycle 1 2 ∅ = false.
Proof. reflexivity. Qed.

Example test_self_loop_always_cycle : would_create_cycle 1 1 ∅ = true.
Proof. reflexivity. Qed.

Example test_transitive_cycle :
  would_create_cycle 3 1 (build_adjacency [(1, 2); (2, 3)]) = true.
Proof. vm_compute. reflexivity. Qed.

Example test_diamond_valid :
  let adj := build_adjacency [(1, 2); (1, 3); (2, 4); (3, 4)] in
  would_create_cycle 4 5 adj = false ∧ would_create_cycle 4 1 adj = true.
Proof. vm_compute. done. Qed.

(** The traversal also stops on a map that already has a cycle. *)
Example cyclic_map_terminates :
  would_create_cycle 9 1 (build_adjacency [(1, 2); (2, 3); (3, 1)]) = false.
Proof. vm_compute. reflexivity. Qed.

(** ** A catalog to run the services on *)

Definition dataset (i : Z) (connection database schema table : string) : Dataset.t :=
  {| Dataset.id := i;
     Dataset.fqn := connection +:+ "." +:+ database +:+ "." +:+ schema +:+ "." +:+ table;
     Dataset.connection_name := connection;
     Dataset.database_name := database;
     Dataset.schema_name := schema;
     Dataset.table_name := table;
     Dataset.source_system := SNOWFLAKE;
     Dataset.description := None |}.

Definition raw_fqn : string := "sf.bi.bronze.orders_raw".
Definition clean_fqn : string := "sf.bi.silver.orders_clean".
Definition agg_fqn : string := "sf.bi.gold.orders_aggregated".

(** The three datasets of the fixture [three_layer], before any edge. *)
Definition three_layer : session :=
  Session
    {| datasets := [dataset 1 "sf" "bi" "bronze" "orders_raw";
                    dataset 2 "sf" "bi" "silver" "orders_clean";
                    dataset 3 "sf" "bi" "gold" "orders_aggregated"];
       dataset_columns := [];
       lineage := [];
       next_dataset_id := 4;
       next_column_id := 1;
       next_lineage_id := 1 |}
    [].

Definition chain : session :=
  fold_left run [AddLineage raw_fqn clean_fqn; AddLineage clean_fqn agg_fqn] three_layer.

Example chain_edges : edges_of (store chain) = [(1, 2); (2, 3)].
Proof. vm_compute. reflexivity. Qed.

(** Scenario A: on the chain raw → clean → agg, the edges agg → raw,
    agg → clean and clean → raw are each refused as a cycle. *)
Example scenario_A_cycles_rejected :
  (add_lineage agg_fqn raw_fqn chain).1 = Raise (CycleError (cycle_message agg_fqn raw_fqn)) ∧
  (add_lineage agg_fqn clean_fqn chain).1
    = Raise (CycleError (cycle_message agg_fqn clean_fqn)) ∧
  (add_lineage clean_fqn raw_fqn chain).1
    = Raise (CycleError (cycle_message clean_fqn raw_fqn)).
Proof. vm_compute. done. Qed.

Example test_duplicate_edge_rejected :
  (add_lineage raw_fqn clean_fqn chain).1
  = Raise (ConflictError (edge_exists_message raw_fqn clean_fqn)).
Proof. vm_compute. reflexivity. Qed.

Example test_missing_upstream :
  (add_lineage "non.existent.up.stream" raw_fqn chain).1
  = Raise (NotFoundError (upstream_not_found "non.existent.up.stream")).
Proof. vm_compute. reflexivity. Qed.

(** Called directly, below the schema, the service looks the FQN up first
    and refuses a self-loop only at the cycle check. *)
Example service_self_loop :
  (add_lineage raw_fqn raw_fqn three_layer).1
    = Raise (CycleError (cycle_message raw_fqn raw_fqn)) ∧
  statements (add_lineage raw_fqn raw_fqn three_layer).2
    = [SelectDatasetByFqn raw_fqn; SelectDatasetByFqn raw_fqn;
       SelectLineageEdge 1 1; SelectAllLineage].
Proof. vm_compute. done. Qed.

(** The endpoint refuses the same request before the service runs. *)
Lemma self_loop_rejected_before_lookup_witness :
  ∃ issues, issues ≠ [] ∧
    LineageRouter.add_lineage
      {| LineageCreate.upstream_fqn := raw_fqn; LineageCreate.downstream_fqn := raw_fqn |}
      three_layer
    = (LineageRouter.RequestValidationError issues, three_layer).
Proof.
  apply (RouterFacts.self_loop_rejected_before_lookup
           {| LineageCreate.upstream_fqn := raw_fqn; LineageCreate.downstream_fqn := raw_fqn |}
           three_layer).
  reflexivity.
Defined.

Lemma three_layer_acyclic : acyclic (store three_layer).
Proof.
  intros x Hx.
  assert (Hnone : ∀ a b, ¬ edge_rel (store three_layer) a b).
  { intros a b Hab. unfold edge_rel in Hab. simpl in Hab. by apply elem_of_nil in Hab. }
  destruct Hx as [? ? H|? ? ? H _]; by apply Hnone in H.
Defined.

(** A run of edge operations from the empty DAG: two additions, a refused
    cycle, a removal. *)
Lemma lineage_stays_acyclic_witness :
  acyclic (store three_layer) ∧
  acyclic (store (fold_left run
                    [AddLineage raw_fqn clean_fqn; AddLineage clean_fqn agg_fqn;
                     AddLineage agg_fqn raw_fqn; RemoveLineage raw_fqn clean_fqn]
                    three_layer)).
Proof.
  split; [exact three_layer_acyclic|].
  apply (lineage_stays_acyclic three_layer
           [AddLineage raw_fqn clean_fqn; AddLineage clean_fqn agg_fqn;
            AddLineage agg_fqn raw_fqn; RemoveLineage raw_fqn clean_fqn]).
  exact three_layer_acyclic.
Defined.

Example run_of_operations :
  edges_of (store (fold_left run
                     [AddLineage raw_fqn clean_fqn; AddLineage clean_fqn agg_fqn;
                      AddLineage agg_fqn raw_fqn; RemoveLineage raw_fqn clean_fqn]
                     three_layer))
  = [(2, 3)].
Proof. vm_compute. reflexivity. Qed.

(** Scenario B: the four edges of a diamond are all accepted. *)
Definition diamond_datasets : session :=
  Session
    {| datasets := [dataset 1 "s" "d" "sc" "da"; dataset 2 "s" "d" "sc" "db";
                    dataset 3 "s" "d" "sc" "dc"; dataset 4 "s" "d" "sc" "dd"];
       dataset_columns := [];
       lineage := [];
       next_dataset_id := 5;
       next_column_id := 1;
       next_lineage_id := 1 |}
    [].

Example scenario_B_diamond :
  edges_of (store (fold_left run
                     [AddLineage "s.d.sc.da" "s.d.sc.db"; AddLineage "s.d.sc.da" "s.d.sc.dc";
                      AddLineage "s.d.sc.db" "s.d.sc.dd"; AddLineage "s.d.sc.dc" "s.d.sc.dd"]
                     diamond_datasets))
  = [(1, 2); (1, 3); (2, 4); (3, 4)].
Proof. vm_compute. reflexivity. Qed.

(** ** Search *)

(** An ILIKE operator to run the search on: SQL LIKE with the wildcards
    percent (code 37) and underscore (code 95), on lower-cased text. *)
Fixpoint like_match (pattern value : list Ascii.ascii) {struct pattern} : bool :=
  match pattern with
  | [] => match value with [] => true | _ => false end
  | c :: pattern' =>
      if Ascii.eqb c (Ascii.ascii_of_N 37)
      then (fix skip (value : list Ascii.ascii) : bool :=
              like_match pattern' value
              || match value with [] => false | _ :: value' => skip value' end) value
      else match value with
           | [] => false
           | d :: value' => (Ascii.eqb c (Ascii.ascii_of_N 95) || Ascii.eqb c d) && like_match pattern' value'
           end
  end.

Definition sample_ilike (value pattern : string) : bool :=
  like_match (String.list_ascii_of_string (lower pattern))
             (String.list_ascii_of_string (lower value)).

(** The catalog of scenario C. *)
Definition scenario_C : database :=
  {| datasets := [dataset 1 "sf" "bi" "bronze" "orders_raw";
                  dataset 2 "mysql" "other" "other" "shipments2"];
     dataset_columns :=
       [ {| DatasetColumn.id := 1; DatasetColumn.dataset_id := 2;
            DatasetColumn.name := "order_id"; DatasetColumn.data_type := "INT";
            DatasetColumn.description := None |} ];
     lineage := [];
     next_dataset_id := 3;
     next_column_id := 2;
     next_lineage_id := 1 |}.

Definition summary (r : SearchResultItem.t) : string * Z * string :=
  (result_fqn r, SearchResultItem.priority r, SearchResultItem.matched_on r).

Example scenario_C_orders :
  summary <$> SearchResponse.results (search_datasets sample_ilike scenario_C "orders" 50)
  = [("sf.bi.bronze.orders_raw", 1, "orders_raw")].
Proof. vm_compute. reflexivity. Qed.

Example scenario_C_order_id :
  summary <$> SearchResponse.results (search_datasets sample_ilike scenario_C " Order_ID " 50)
  = [("mysql.other.other.shipments2", 2, "order_id")].
Proof. vm_compute. reflexivity. Qed.

Example blank_query_is_empty :
  search_datasets sample_ilike scenario_C "   " 50
  = {| SearchResponse.query := "   "; SearchResponse.total := 0;
       SearchResponse.results := [] |}.
Proof. vm_compute. reflexivity. Qed.

(** A dataset found by two tiers is listed once, at the better one, and
    the cut to [limit] comes after the ranking. *)
Definition two_tier_catalog : database :=
  {| datasets := [dataset 1 "c" "orders" "s" "zz"; dataset 2 "c" "orders" "s" "orders"];
     dataset_columns := [];
     lineage := [];
     next_dataset_id := 3;
     next_column_id := 1;
     next_lineage_id := 1 |}.

Example two_tiers_ranked :
  summary <$> full_ranking sample_ilike two_tier_catalog "orders"
  = [("c.orders.s.orders", 1, "orders"); ("c.orders.s.zz", 4, "orders")].
Proof. vm_compute. reflexivity. Qed.

Lemma search_truncates_after_ranking_witness :
  SearchResponse.results (search_datasets sample_ilike two_tier_catalog "orders" 1)
  = take (Z.to_nat 1) (full_ranking sample_ilike two_tier_catalog "orders").
Proof.
  apply (search_truncates_after_ranking sample_ilike two_tier_catalog "orders" 1).
  lia.
Defined.

Example limit_out_of_range :
  SearchRouter.search sample_ilike two_tier_catalog "orders" (Some (-1))
  = inl [NumberTooSmall "limit"].
Proof. vm_compute. reflexivity. Qed.

Example limit_one :
  summary <$> SearchResponse.results (search_datasets sample_ilike two_tier_catalog "orders" 1)
  = [("c.orders.s.orders", 1, "orders")].
Proof. vm_compute. reflexivity. Qed.

(** ** Dataset creation *)

Definition orders_request : DatasetCreate.input :=
  {| DatasetCreate.in_connection_name := " Snowflake_Prod ";
     DatasetCreate.in_database_name := "Sales";
     DatasetCreate.in_schema_name := "PUBLIC";
     DatasetCreate.in_table_name := "orders ";
     DatasetCreate.in_source_system := Some SNOWFLAKE;
     DatasetCreate.in_description := None;
     DatasetCreate.in_columns :=
       [ {| ColumnBase.in_name := " order_id";
            ColumnBase.in_data_type := Some " int ";
            ColumnBase.in_description := None |} ] |}.

Definition orders_payload : DatasetCreate.t :=
  {| DatasetCreate.connection_name := "snowflake_prod";
     DatasetCreate.database_name := "sales";
     DatasetCreate.schema_name := "public";
     DatasetCreate.table_name := "orders";
     DatasetCreate.source_system := SNOWFLAKE;
     DatasetCreate.description := None;
     DatasetCreate.columns :=
       [ {| ColumnBase.name := "order_id";
            ColumnBase.data_type := " int ";
            ColumnBase.description := None |} ] |}.

(** A run that stores a dataset: the request passes validation, the FQN
    is free on the three-layer fixture and the one column name is new, so
    [create_dataset] returns, and the lookup of the FQN then finds the
    dataset with its column trimmed and upper-cased. *)
Lemma create_dataset_normalizes_and_persists_witness :
  DatasetCreate.validate orders_request = inr orders_payload ∧
  ∃ ds s', create_dataset orders_payload three_layer = (Ok ds, s') ∧
    Dataset.fqn ds = "snowflake_prod.sales.public.orders" ∧
    datasets (store s') = datasets (store three_layer) ++ [ds] ∧
    find_dataset_by_fqn (store s') "snowflake_prod.sales.public.orders" = Some ds ∧
    ∃ rows, dataset_columns (store s') = dataset_columns (store three_layer) ++ rows ∧
            column_content <$> rows = [(Dataset.id ds, "order_id", "INT", None)].
Proof.
  assert (Hvalid : DatasetCreate.validate orders_request = inr orders_payload)
    by (vm_compute; reflexivity).
  split; [exact Hvalid|].
  destruct (create_dataset_normalizes_and_persists orders_request orders_payload three_layer
              Hvalid) as (_ & _ & Hreturns & _ & Hstored).
  destruct (proj2 Hreturns) as (ds & s' & Hrun).
  { split.
    - intros ds Hds Hfqn. vm_compute in Hds.
      repeat (apply elem_of_cons in Hds as [->|Hds]; [vm_compute in Hfqn; discriminate|]).
      by apply elem_of_nil in Hds.
    - vm_compute. apply NoDup_singleton. }
  exists ds, s'. split; [exact Hrun|].
  destruct (Hstored ds s' Hrun) as ((Hfqn & _) & Hds & Hfind & rows & Hrows & Hcontent & _).
  split_and!; [exact Hfqn|exact Hds|exact Hfind|].
  exists rows. split; [exact Hrows|exact Hcontent].
Defined.

(** The schema leaves the data-type label as sent; the service trims it
    before it upper-cases it. *)
Example data_type_label_is_trimmed_too :
  DatasetCreate.validate orders_request = inr orders_payload ∧
  (∃ ds s', create_dataset orders_payload three_layer = (Ok ds, s') ∧
            DatasetColumn.data_type <$> dataset_columns (store s') = ["INT"]) ∧
  upper <$> (ColumnBase.data_type <$> DatasetCreate.columns orders_payload) = [" INT "].
Proof.
  split_and!; [vm_compute; reflexivity| |vm_compute; reflexivity].
  eexists _, _. split; vm_compute; reflexivity.
Qed.

End Scenarios.

(* ===================================================================== *)
(** * The record store, continued: deleting and rewriting rows            *)
(* ===================================================================== *)

(** The functions below run against the store alone: they are written as
    functions of a [database] that give back the new [database], and the
    list of statements of a [session] is not kept for them. *)
Module OrmContinued.
Import PyStr Orm.

(** A unit of work against the store: returns or raises, and leaves a
    store. *)
Definition work (A : Type) : Type := database → result A * database.

(** [db.delete(dataset); db.commit()].  The relationships [columns],
    [downstream_edges] and [upstream_edges] of [Dataset] cascade
    ["all, delete-orphan"]: the columns of the dataset, the edges it is
    the upstream end of and the edges it is the downstream end of go with
    its row. *)
Definition delete_dataset_cascade (db : database) (dataset : Dataset.t) : database :=
  {| datasets := filter (fun ds => Dataset.id ds ≠ Dataset.id dataset) (datasets db);
     dataset_columns :=
       filter (fun c => DatasetColumn.dataset_id c ≠ Dataset.id dataset) (dataset_columns db);
     lineage :=
       filter (fun e => Lineage.upstream_id e ≠ Dataset.id dataset
                        ∧ Lineage.downstream_id e ≠ Dataset.id dataset)
              (lineage db);
     next_dataset_id := next_dataset_id db;
     next_column_id := next_column_id db;
     next_lineage_id := next_lineage_id db |}.

(** The row of a dataset after the assignments [dataset.source_system = v]
    and [dataset.description = v]. *)
Definition set_source_system (dataset : Dataset.t) (v : SourceSystem) : Dataset.t :=
  {| Dataset.id := Dataset.id dataset;
     Dataset.fqn := Dataset.fqn dataset;
     Dataset.connection_name := Dataset.connection_name dataset;
     Dataset.database_name := Dataset.database_name dataset;
     Dataset.schema_name := Dataset.schema_name dataset;
     Dataset.table_name := Dataset.table_name dataset;
     Dataset.source_system := v;
     Dataset.description := Dataset.description dataset |}.

Definition set_description (dataset : Dataset.t) (v : string) : Dataset.t :=
  {| Dataset.id := Dataset.id dataset;
     Dataset.fqn := Dataset.fqn dataset;
     Dataset.connection_name := Dataset.connection_name dataset;
     Dataset.database_name := Dataset.database_name dataset;
     Dataset.schema_name := Dataset.schema_name dataset;
     Dataset.table_name := Dataset.table_name dataset;
     Dataset.source_system := Dataset.source_system dataset;
     Dataset.description := Some v |}.

(** The commit of a changed dataset object: the row with its primary key
    is rewritten. *)
Definition rewrite_dataset (db : database) (dataset : Dataset.t) : database :=
  {| datasets :=
       (fun ds => if decide (Dataset.id ds = Dataset.id dataset) then dataset else ds)
         <$> datasets db;
     dataset_columns := dataset_columns db;
     lineage := lineage db;
     next_dataset_id := next_dataset_id db;
     next_column_id := next_column_id db;
     next_lineage_id := next_lineage_id db |}.

(** [for col in dataset.columns: db.delete(col)], [db.flush()], then the
    new column objects given to [dataset.columns] and numbered by the
    store at the commit. *)
Definition replace_columns (db : database) (dataset : Dataset.t)
    (cols : list DatasetColumn.transient) : database :=
  {| datasets := datasets db;
     dataset_columns :=
       filter (fun c => DatasetColumn.dataset_id c ≠ Dataset.id dataset) (dataset_columns db)
       ++ imap (fun i c =>
                  {| DatasetColumn.id := next_column_id db + Z.of_nat i;
                     DatasetColumn.dataset_id := Dataset.id dataset;
                     DatasetColumn.name := DatasetColumn.new_name c;
                     DatasetColumn.data_type := DatasetColumn.new_data_type c;
                     DatasetColumn.description := DatasetColumn.new_description c |})
               cols;
     lineage := lineage db;
     next_dataset_id := next_dataset_id db;
     next_column_id := next_column_id db + Z.of_nat (length cols);
     next_lineage_id := next_lineage_id db |}.

End OrmContinued.

(* ===================================================================== *)
(** * app/schemas/dataset.py, continued                                   *)
(* ===================================================================== *)

Module SchemasContinued.
Import PyStr Orm Schemas.

Module DatasetUpdate.
(** The fields as they arrive. *)
Record input := {
  in_source_system : option SourceSystem;
  in_description : option string;
  in_columns : option (list ColumnBase.input) }.

Record t := {
  source_system : option SourceSystem;
  description : option string;
  columns : option (list ColumnBase.t) }.

Definition validate (r : input) : list issue + t :=
  let issues := check_optional "description" 1024 (in_description r) in
  match in_columns r with
  | None =>
      match issues with
      | [] => inr {| source_system := in_source_system r;
                     description := in_description r;
                     columns := None |}
      | _ => inl issues
      end
  | Some cols =>
      match issues, validate_list ColumnBase.validate cols with
      | [], inr columns =>
          inr {| source_system := in_source_system r;
                 description := in_description r;
                 columns := Some columns |}
      | _, inl column_issues => inl (issues ++ column_issues)
      | _, inr _ => inl issues
      end
  end.
End DatasetUpdate.

Module DatasetLineageResponse.
Record t := {
  dataset : DatasetResponse.t;
  upstream_datasets : list LineageNodeResponse.t;
  downstream_datasets : list LineageNodeResponse.t }.
End DatasetLineageResponse.

End SchemasContinued.

(* ===================================================================== *)
(** * app/services/dataset_service.py, continued                          *)
(* ===================================================================== *)

Module DatasetServiceContinued.
Import PyStr Orm Schemas OrmContinued SchemasContinued.

(** [list_datasets(db, skip, limit)]:
    [select(Dataset).offset(skip).limit(limit).order_by(Dataset.fqn)].
    The order of FQNs is the store's collation, a parameter; [skip] and
    [limit] are taken in the range where OFFSET and LIMIT mean the same in
    every store, the natural numbers. *)
Definition list_datasets (collate_le : string → string → bool)
    (db : database) (skip limit : nat) : list Dataset.t :=
  take limit (drop skip (sort_by collate_le Dataset.fqn (datasets db))).

(** The column objects [update_dataset] builds from a payload. *)
Definition updated_columns (cols : list ColumnBase.t) : list DatasetColumn.transient :=
  (fun col =>
     {| DatasetColumn.new_name := strip (ColumnBase.name col);
        DatasetColumn.new_data_type := upper (strip (ColumnBase.data_type col));
        DatasetColumn.new_description := ColumnBase.description col |}) <$> cols.

(** [update_dataset(db, fqn, payload)].  A constraint the store finds
    violated at the commit leaves the store as it was. *)
Definition update_dataset (fqn : string) (payload : DatasetUpdate.t) : work Dataset.t :=
  fun db =>
    match find_dataset_by_fqn db fqn with
    | None => (Raise (NotFoundError ("Dataset '" +:+ fqn +:+ "' not found.")), db)
    | Some dataset =>
        let dataset :=
          if DatasetUpdate.source_system payload is Some v
          then set_source_system dataset v else dataset in
        let dataset :=
          if DatasetUpdate.description payload is Some v
          then set_description dataset v else dataset in
        match DatasetUpdate.columns payload with
        | None => (Ok dataset, rewrite_dataset db dataset)
        | Some cols =>
            if negb (names_distinct (updated_columns cols))
            then (Raise (IntegrityError "uq_column_dataset_name"), db)
            else (Ok dataset,
                  replace_columns (rewrite_dataset db dataset) dataset (updated_columns cols))
        end
    end.

(** [delete_dataset(db, fqn)]. *)
Definition delete_dataset (fqn : string) : work unit :=
  fun db =>
    match find_dataset_by_fqn db fqn with
    | None => (Raise (NotFoundError ("Dataset '" +:+ fqn +:+ "' not found.")), db)
    | Some dataset => (Ok tt, delete_dataset_cascade db dataset)
    end.

End DatasetServiceContinued.

(* ===================================================================== *)
(** * app/services/lineage_service.py, continued                          *)
(* ===================================================================== *)

Module LineageServiceContinued.
Import PyStr Orm Schemas OrmContinued SchemasContinued.

(** [get_dataset_lineage(db, fqn)]: the direct neighbours only. *)
Definition get_dataset_lineage (db : database) (fqn : string)
  : result DatasetLineageResponse.t :=
  match find_dataset_by_fqn db fqn with
  | None => Raise (NotFoundError ("Dataset '" +:+ fqn +:+ "' not found."))
  | Some dataset =>
      let upstream_datasets :=
        omap (fun edge => LineageNodeResponse.model_validate <$> Orm.upstream db edge)
             (upstream_edges db dataset) in
      let downstream_datasets :=
        omap (fun edge => LineageNodeResponse.model_validate <$> Orm.downstream db edge)
             (downstream_edges db dataset) in
      Ok {| DatasetLineageResponse.dataset := DatasetResponse.model_validate db dataset;
            DatasetLineageResponse.upstream_datasets := upstream_datasets;
            DatasetLineageResponse.downstream_datasets := downstream_datasets |}
  end.

(** [get_all_lineage_edges(db)]. *)
Definition get_all_lineage_edges (db : database) : list Lineage.t := lineage db.

End LineageServiceContinued.

(* ===================================================================== *)
(** * The invariants of the data model                                    *)
(* ===================================================================== *)

Module CatalogInvariants.
Import PyStr Orm Schemas Graph GraphFacts.
Import DatasetService LineageService LineageFacts DatasetFacts.
Import OrmContinued SchemasContinued DatasetServiceContinued.

(** ** Lists *)

Lemma NoDup_fmap_filter {A B} (f : A → B) (P : A → Prop) `{∀ x, Decision (P x)}
    (l : list A) :
  NoDup (f <$> l) → NoDup (f <$> filter P l).
Proof.
  induction l as [|x l IH]; csimpl; [done|].
  rewrite NoDup_cons. intros [Hx Hl]. rewrite filter_cons.
  case_decide; csimpl; [|by apply IH].
  apply NoDup_cons. split; [|by apply IH].
  intros (y & Hy & [_ ?]%list_elem_of_filter)%list_elem_of_fmap.
  apply Hx. rewrite Hy. by apply list_elem_of_fmap_2.
Qed.

Lemma NoDup_fmap_eq {A B} (f : A → B) (l : list A) (x y : A) :
  NoDup (f <$> l) → x ∈ l → y ∈ l → f x = f y → x = y.
Proof.
  induction l as [|z l IH]; csimpl; [by intros _ ?%elem_of_nil|].
  rewrite NoDup_cons, !elem_of_cons. intros [Hz Hl] [->|Hx] [->|Hy] Heq; auto.
  - destruct Hz. rewrite Heq. by apply list_elem_of_fmap_2.
  - destruct Hz. rewrite <- Heq. by apply list_elem_of_fmap_2.
Qed.

Lemma NoDup_tagged {A B C} (f : A → B) (tag : C) (l : list A) :
  NoDup (f <$> l) → NoDup ((fun x => (tag, f x)) <$> l).
Proof.
  induction l as [|x l IH]; csimpl; [intros _; constructor|].
  rewrite !NoDup_cons. intros [Hx Hl]. split; [|by apply IH].
  intros (y & [= Hy] & ?)%list_elem_of_fmap. apply Hx. rewrite Hy.
  by apply list_elem_of_fmap_2.
Qed.

(** The rows the store writes for new column objects: numbered from
    [base], owned by the dataset [owner]. *)
Definition numbered_rows (base owner : Z) (cols : list DatasetColumn.transient)
  : list DatasetColumn.t :=
  imap (fun i c =>
          {| DatasetColumn.id := base + Z.of_nat i;
             DatasetColumn.dataset_id := owner;
             DatasetColumn.name := DatasetColumn.new_name c;
             DatasetColumn.data_type := DatasetColumn.new_data_type c;
             DatasetColumn.description := DatasetColumn.new_description c |}) cols.

Lemma elem_of_numbered_rows (base owner : Z) (cols : list DatasetColumn.transient)
    (c : DatasetColumn.t) :
  c ∈ numbered_rows base owner cols →
  base ≤ DatasetColumn.id c < base + Z.of_nat (length cols) ∧
  DatasetColumn.dataset_id c = owner ∧
  DatasetColumn.name c ∈ DatasetColumn.new_name <$> cols.
Proof.
  unfold numbered_rows. intros (i & t & -> & Ht)%elem_of_lookup_imap. simpl.
  apply lookup_lt_Some in Ht as Hi. split_and!; [lia..|done|].
  apply list_elem_of_fmap_2. by eapply list_elem_of_lookup_2.
Qed.

Lemma numbered_rows_ids_NoDup (base owner : Z) (cols : list DatasetColumn.transient) :
  NoDup (DatasetColumn.id <$> numbered_rows base owner cols).
Proof.
  apply NoDup_alt. intros i j x. unfold numbered_rows.
  rewrite !list_lookup_fmap, !list_lookup_imap.
  destruct (cols !! i), (cols !! j); simpl; try done.
  intros [= <-] [= Heq]. lia.
Qed.

Lemma numbered_rows_names (base owner : Z) (cols : list DatasetColumn.transient) :
  (fun c => (DatasetColumn.dataset_id c, DatasetColumn.name c))
    <$> numbered_rows base owner cols
  = (fun t => (owner, DatasetColumn.new_name t)) <$> cols.
Proof.
  unfold numbered_rows. revert base. induction cols as [|t cols IH]; intros base; [done|].
  rewrite imap_cons, !fmap_cons. f_equal.
  rewrite <- (IH (base + 1)). f_equal. apply imap_ext. intros i x _. simpl.
  f_equal. lia.
Qed.

(** ** The invariants *)

(** What the schema of the store and the services together keep true of a
    catalog: primary keys are unique and below the counters; FQNs are
    unique; a column name is unique within its dataset; no edge is stored
    twice; no edge is a self-loop; every column and every end of an edge
    refers to a stored dataset; and the edges form a DAG. *)
Record consistent (db : database) : Prop := Consistent {
  dataset_ids_unique : NoDup (Dataset.id <$> datasets db);
  dataset_ids_below : ∀ ds, ds ∈ datasets db → Dataset.id ds < next_dataset_id db;
  column_ids_unique : NoDup (DatasetColumn.id <$> dataset_columns db);
  column_ids_below : ∀ c, c ∈ dataset_columns db → DatasetColumn.id c < next_column_id db;
  lineage_ids_unique : NoDup (Lineage.id <$> lineage db);
  lineage_ids_below : ∀ e, e ∈ lineage db → Lineage.id e < next_lineage_id db;
  fqn_unique : NoDup (Dataset.fqn <$> datasets db);
  column_names_unique :
    NoDup ((fun c => (DatasetColumn.dataset_id c, DatasetColumn.name c))
             <$> dataset_columns db);
  columns_owned :
    ∀ c, c ∈ dataset_columns db → DatasetColumn.dataset_id c ∈ Dataset.id <$> datasets db;
  edges_unique : NoDup (edges_of db);
  edges_no_self_loop : ∀ e, e ∈ lineage db → Lineage.upstream_id e ≠ Lineage.downstream_id e;
  edges_owned :
    ∀ e, e ∈ lineage db →
      Lineage.upstream_id e ∈ Dataset.id <$> datasets db ∧
      Lineage.downstream_id e ∈ Dataset.id <$> datasets db;
  edges_acyclic : acyclic db }.

(** The catalog before anything is stored. *)
Definition empty_database : database :=
  {| datasets := []; dataset_columns := []; lineage := [];
     next_dataset_id := 1; next_column_id := 1; next_lineage_id := 1 |}.

Lemma acyclic_no_edges (db : database) : lineage db = [] → acyclic db.
Proof.
  intros Hnil x Hx.
  assert (Hnone : ∀ a b, ¬ edge_rel db a b).
  { intros a b. unfold edge_rel, edges_of. rewrite Hnil. apply not_elem_of_nil. }
  destruct Hx as [? ? H|? ? ? H _]; by apply Hnone in H.
Qed.

Lemma consistent_empty : consistent empty_database.
Proof.
  split; simpl; try apply NoDup_nil_2; try (by intros ? ?%elem_of_nil).
  by apply acyclic_no_edges.
Qed.

(** ** Each write keeps the invariants *)

Lemma find_dataset_elem_of_ids (db : database) (f : string) (ds : Dataset.t) :
  find_dataset_by_fqn db f = Some ds → Dataset.id ds ∈ Dataset.id <$> datasets db.
Proof. intros [? _]%find_dataset_by_fqn_Some. by apply list_elem_of_fmap_2. Qed.

(** What a returning [add_lineage] found and did. *)
Lemma add_lineage_Ok_inv (s s' : session) (up down : string) (e : Lineage.t) :
  add_lineage up down s = (Ok e, s') →
  ∃ u d,
    find_dataset_by_fqn (store s) up = Some u ∧
    find_dataset_by_fqn (store s) down = Some d ∧
    ((Dataset.id u, Dataset.id d) ∉ edges_of (store s)) ∧
    would_create_cycle (Dataset.id u) (Dataset.id d)
      (build_adjacency (edges_of (store s))) = false ∧
    e = {| Lineage.id := next_lineage_id (store s);
           Lineage.upstream_id := Dataset.id u;
           Lineage.downstream_id := Dataset.id d |} ∧
    store s' = with_edge (store s) e.
Proof.
  rewrite add_lineage_run. simpl.
  destruct (find_dataset_by_fqn (store s) up) as [u|]; [|done].
  destruct (find_dataset_by_fqn (store s) down) as [d|]; [|done].
  destruct (find_lineage_edge _ _ _) eqn:Hedge; [done|].
  destruct (would_create_cycle _ _ _) eqn:Hcheck; [done|].
  intros [= <- <-]. exists u, d. split_and!; try done.
  by apply find_lineage_edge_None.
Qed.

Lemma consistent_with_edge (db : database) (u d : Z) :
  consistent db →
  u ∈ Dataset.id <$> datasets db → d ∈ Dataset.id <$> datasets db →
  (u, d) ∉ edges_of db →
  would_create_cycle u d (build_adjacency (edges_of db)) = false →
  consistent (with_edge db {| Lineage.id := next_lineage_id db;
                              Lineage.upstream_id := u;
                              Lineage.downstream_id := d |}).
Proof.
  intros [] Hu Hd Hnew Hcheck.
  assert (Hud : u ≠ d).
  { intros ->. by rewrite (proj2 (would_create_cycle_true_iff d d _)) in Hcheck by auto. }
  split; simpl; try done.
  - rewrite fmap_app. apply NoDup_app. split_and!; [done| |apply NoDup_singleton].
    intros i (e & -> & He)%list_elem_of_fmap Hi. simpl in Hi.
    apply list_elem_of_singleton in Hi. apply lineage_ids_below0 in He. lia.
  - intros e [He|He]%elem_of_app.
    + apply lineage_ids_below0 in He. lia.
    + apply list_elem_of_singleton in He as ->. simpl. lia.
  - unfold edges_of. simpl. rewrite fmap_app. apply NoDup_app.
    split_and!; [done| |apply NoDup_singleton].
    intros p Hp Hp'. simpl in Hp'. apply list_elem_of_singleton in Hp' as ->. done.
  - intros e [He|He]%elem_of_app; [by apply edges_no_self_loop0|].
    by apply list_elem_of_singleton in He as ->.
  - intros e [He|He]%elem_of_app; [by apply edges_owned0|].
    by apply list_elem_of_singleton in He as ->.
  - by apply acyclic_with_edge.
Qed.

Lemma consistent_without_edge (db : database) (i : Z) :
  consistent db → consistent (without_edge db i).
Proof.
  intros []. split; simpl; try done.
  - by apply NoDup_fmap_filter.
  - intros e [_ He]%list_elem_of_filter. by apply lineage_ids_below0.
  - unfold edges_of. simpl. by apply NoDup_fmap_filter.
  - intros e [_ He]%list_elem_of_filter. by apply edges_no_self_loop0.
  - intros e [_ He]%list_elem_of_filter. by apply edges_owned0.
  - eapply acyclic_subset; [|done]. apply edge_rel_without_edge.
Qed.

(** The store after a new dataset row and its column rows. *)
Definition with_dataset (db : database) (dataset : Dataset.t)
    (cols : list DatasetColumn.transient) : database :=
  {| datasets := datasets db ++ [dataset];
     dataset_columns :=
       dataset_columns db ++ numbered_rows (next_column_id db) (next_dataset_id db) cols;
     lineage := lineage db;
     next_dataset_id := next_dataset_id db + 1;
     next_column_id := next_column_id db + Z.of_nat (length cols);
     next_lineage_id := next_lineage_id db |}.

(** What a returning [create_dataset] found and did. *)
Lemma create_dataset_Ok_inv (payload : DatasetCreate.t) (s s' : session) (ds : Dataset.t) :
  create_dataset payload s = (Ok ds, s') →
  find_dataset_by_fqn (store s) (DatasetCreate.fqn payload) = None ∧
  names_distinct (new_columns payload) = true ∧
  ds = {| Dataset.id := next_dataset_id (store s);
          Dataset.fqn := DatasetCreate.fqn payload;
          Dataset.connection_name := DatasetCreate.connection_name payload;
          Dataset.database_name := DatasetCreate.database_name payload;
          Dataset.schema_name := DatasetCreate.schema_name payload;
          Dataset.table_name := DatasetCreate.table_name payload;
          Dataset.source_system := DatasetCreate.source_system payload;
          Dataset.description := DatasetCreate.description payload |} ∧
  store s' = with_dataset (store s) ds (new_columns payload).
Proof.
  rewrite create_dataset_run. simpl.
  destruct (find_dataset_by_fqn _ _) eqn:Hfind; [done|].
  unfold insert_dataset. simpl. rewrite Hfind.
  destruct (names_distinct _) eqn:Hnames; simpl; [|done].
  by intros [= <- <-].
Qed.

Lemma create_dataset_Raise (payload : DatasetCreate.t) (s s' : session) (exc : error) :
  create_dataset payload s = (Raise exc, s') → store s' = store s.
Proof.
  rewrite create_dataset_run. simpl.
  destruct (find_dataset_by_fqn _ _) eqn:Hfind; [by intros [= _ <-]|].
  unfold insert_dataset. simpl. rewrite Hfind.
  destruct (names_distinct _); simpl; [done|by intros [= _ <-]].
Qed.

Lemma consistent_with_dataset (db : database) (dataset : Dataset.t)
    (cols : list DatasetColumn.transient) :
  consistent db →
  Dataset.id dataset = next_dataset_id db →
  find_dataset_by_fqn db (Dataset.fqn dataset) = None →
  names_distinct cols = true →
  consistent (with_dataset db dataset cols).
Proof.
  intros [] Hid Hfqn Hnames.
  assert (Hfresh : ∀ i, i ∈ Dataset.id <$> datasets db → i < next_dataset_id db).
  { intros i (ds & -> & Hds)%list_elem_of_fmap. by apply dataset_ids_below0. }
  split; simpl.
  - rewrite fmap_app. apply NoDup_app. split_and!; [done| |apply NoDup_singleton].
    intros i Hi Hi'. simpl in Hi'. apply list_elem_of_singleton in Hi' as ->.
    apply Hfresh in Hi. lia.
  - intros ds [Hds|Hds]%elem_of_app.
    + apply dataset_ids_below0 in Hds. lia.
    + apply list_elem_of_singleton in Hds as ->. lia.
  - rewrite fmap_app. apply NoDup_app. split_and!; [done| |apply numbered_rows_ids_NoDup].
    intros i (c & -> & Hc)%list_elem_of_fmap (c' & Heq & Hc')%list_elem_of_fmap.
    apply column_ids_below0 in Hc. apply elem_of_numbered_rows in Hc' as [? _]. lia.
  - intros c [Hc|Hc]%elem_of_app.
    + apply column_ids_below0 in Hc. lia.
    + apply elem_of_numbered_rows in Hc as [? _]. lia.
  - done.
  - done.
  - rewrite fmap_app. apply NoDup_app. split_and!; [done| |apply NoDup_singleton].
    intros f (ds & -> & Hds)%list_elem_of_fmap Hf. simpl in Hf.
    apply list_elem_of_singleton in Hf.
    by apply (proj1 (find_dataset_by_fqn_None _ _) Hfqn ds).
  - rewrite fmap_app, numbered_rows_names. apply NoDup_app. split_and!; [done| |].
    + intros p (c & -> & Hc)%list_elem_of_fmap (t & [= Hown _] & _)%list_elem_of_fmap.
      apply columns_owned0, Hfresh in Hc. lia.
    + unfold names_distinct in Hnames. apply bool_decide_eq_true in Hnames.
      by apply NoDup_tagged.
  - intros c [Hc|Hc]%elem_of_app; rewrite fmap_app, elem_of_app.
    + left. by apply columns_owned0.
    + right. apply elem_of_numbered_rows in Hc as (_ & -> & _). simpl.
      rewrite Hid. left.
  - done.
  - done.
  - intros e He. rewrite fmap_app, !elem_of_app.
    destruct (edges_owned0 e He). auto.
  - done.
Qed.

Lemma consistent_delete_cascade (db : database) (dataset : Dataset.t) :
  consistent db → consistent (delete_dataset_cascade db dataset).
Proof.
  intros [].
  assert (Hkept : ∀ i, i ∈ Dataset.id <$> datasets db → i ≠ Dataset.id dataset →
            i ∈ Dataset.id <$> filter (fun ds => Dataset.id ds ≠ Dataset.id dataset)
                                      (datasets db)).
  { intros i (ds & -> & Hds)%list_elem_of_fmap Hne.
    apply list_elem_of_fmap_2. by apply list_elem_of_filter. }
  split; simpl.
  - by apply NoDup_fmap_filter.
  - intros ds [_ ?]%list_elem_of_filter. by apply dataset_ids_below0.
  - by apply NoDup_fmap_filter.
  - intros c [_ ?]%list_elem_of_filter. by apply column_ids_below0.
  - by apply NoDup_fmap_filter.
  - intros e [_ ?]%list_elem_of_filter. by apply lineage_ids_below0.
  - by apply NoDup_fmap_filter.
  - by apply NoDup_fmap_filter.
  - intros c [Hne Hc]%list_elem_of_filter. apply Hkept; [by apply columns_owned0|done].
  - unfold edges_of. simpl. by apply NoDup_fmap_filter.
  - intros e [_ ?]%list_elem_of_filter. by apply edges_no_self_loop0.
  - intros e [[Hu Hd] He]%list_elem_of_filter.
    destruct (edges_owned0 e He). split; by apply Hkept.
  - eapply acyclic_subset; [|done]. intros a b. unfold edge_rel, edges_of. simpl.
    rewrite !list_elem_of_fmap. intros (e & -> & [_ He]%list_elem_of_filter). eauto.
Qed.

(** Rewriting a row with a row of the same key and FQN changes neither
    the keys nor the FQNs of the table. *)
Lemma rewrite_dataset_ids (db : database) (dataset : Dataset.t) :
  Dataset.id <$> datasets (rewrite_dataset db dataset) = Dataset.id <$> datasets db.
Proof.
  simpl. rewrite <- list_fmap_compose. apply list_fmap_ext. intros i ds _. simpl.
  by case_decide.
Qed.

Lemma rewrite_dataset_fqns (db : database) (old dataset : Dataset.t) :
  NoDup (Dataset.id <$> datasets db) → old ∈ datasets db →
  Dataset.id dataset = Dataset.id old → Dataset.fqn dataset = Dataset.fqn old →
  Dataset.fqn <$> datasets (rewrite_dataset db dataset) = Dataset.fqn <$> datasets db.
Proof.
  intros Hids Hold Hid Hfqn. simpl. rewrite <- list_fmap_compose.
  apply list_fmap_ext. intros i ds Hds. simpl. case_decide as Heq; [|done].
  rewrite Hfqn. f_equal. symmetry. eapply NoDup_fmap_eq; [exact Hids| | |congruence].
  - by eapply list_elem_of_lookup_2.
  - done.
Qed.

Lemma consistent_rewrite_dataset (db : database) (old dataset : Dataset.t) :
  consistent db → old ∈ datasets db →
  Dataset.id dataset = Dataset.id old → Dataset.fqn dataset = Dataset.fqn old →
  consistent (rewrite_dataset db dataset).
Proof.
  intros [] Hold Hid Hfqn.
  pose proof (rewrite_dataset_ids db dataset) as Hids.
  pose proof (rewrite_dataset_fqns db old dataset dataset_ids_unique0 Hold Hid Hfqn) as Hfqns.
  split; try done.
  - by rewrite Hids.
  - simpl. intros ds (ds' & -> & Hds')%list_elem_of_fmap. case_decide as Heq.
    + rewrite Hid. by apply dataset_ids_below0.
    + by apply dataset_ids_below0.
  - by rewrite Hfqns.
  - intros c Hc. rewrite Hids. by apply columns_owned0.
  - intros e He. rewrite Hids. by apply edges_owned0.
Qed.

Lemma consistent_replace_columns (db : database) (dataset : Dataset.t)
    (cols : list DatasetColumn.transient) :
  consistent db → Dataset.id dataset ∈ Dataset.id <$> datasets db →
  names_distinct cols = true →
  consistent (replace_columns db dataset cols).
Proof.
  intros [] Hin Hnames. split; try done; simpl.
  - rewrite fmap_app. apply NoDup_app.
    split_and!; [by apply NoDup_fmap_filter| |apply numbered_rows_ids_NoDup].
    intros i (c & -> & [_ Hc]%list_elem_of_filter)%list_elem_of_fmap
             (c' & Heq & Hc')%list_elem_of_fmap.
    apply column_ids_below0 in Hc.
    apply (elem_of_numbered_rows (next_column_id db) (Dataset.id dataset)) in Hc' as [? _].
    lia.
  - intros c [[_ Hc]%list_elem_of_filter|Hc]%elem_of_app.
    + apply column_ids_below0 in Hc. lia.
    + apply (elem_of_numbered_rows (next_column_id db) (Dataset.id dataset)) in Hc as [? _].
      lia.
  - rewrite fmap_app.
    change (imap _ cols) with (numbered_rows (next_column_id db) (Dataset.id dataset) cols).
    rewrite numbered_rows_names. apply NoDup_app.
    split_and!; [by apply NoDup_fmap_filter| |].
    + intros p (c & -> & [Hne _]%list_elem_of_filter)%list_elem_of_fmap
               (t & [= Hown _] & _)%list_elem_of_fmap. done.
    + unfold names_distinct in Hnames. apply bool_decide_eq_true in Hnames.
      by apply NoDup_tagged.
  - intros c [[_ Hc]%list_elem_of_filter|Hc]%elem_of_app; [by apply columns_owned0|].
    by apply (elem_of_numbered_rows (next_column_id db) (Dataset.id dataset))
      in Hc as (_ & -> & _).
Qed.

(** What a returning [update_dataset] found and did, and that a raising
    one did nothing. *)
Lemma update_dataset_inv (fqn : string) (payload : DatasetUpdate.t) (db db' : database)
    (r : result Dataset.t) :
  update_dataset fqn payload db = (r, db') →
  ((∃ exc, r = Raise exc) ∧ db' = db) ∨
  ∃ old dataset,
    find_dataset_by_fqn db fqn = Some old ∧ r = Ok dataset ∧
    Dataset.id dataset = Dataset.id old ∧
    Dataset.fqn dataset = Dataset.fqn old ∧
    Dataset.connection_name dataset = Dataset.connection_name old ∧
    Dataset.database_name dataset = Dataset.database_name old ∧
    Dataset.schema_name dataset = Dataset.schema_name old ∧
    Dataset.table_name dataset = Dataset.table_name old ∧
    Dataset.source_system dataset
      = default (Dataset.source_system old) (DatasetUpdate.source_system payload) ∧
    Dataset.description dataset
      = (if DatasetUpdate.description payload is Some v then Some v
         else Dataset.description old) ∧
    match DatasetUpdate.columns payload with
    | None => db' = rewrite_dataset db dataset
    | Some cols =>
        names_distinct (updated_columns cols) = true ∧
        db' = replace_columns (rewrite_dataset db dataset) dataset (updated_columns cols)
    end.
Proof.
  unfold update_dataset.
  destruct (find_dataset_by_fqn db fqn) as [old|]; [|intros [= <- <-]; left; eauto].
  destruct (DatasetUpdate.columns payload) as [cols|] eqn:Hcols.
  - destruct (names_distinct (updated_columns cols)) eqn:Hnames; simpl;
      intros [= <- <-]; [|left; eauto].
    right. eexists old, _.
    split_and!; try done; by destruct (DatasetUpdate.source_system payload),
                                       (DatasetUpdate.description payload).
  - intros [= <- <-]. right. eexists old, _.
    split_and!; try done; by destruct (DatasetUpdate.source_system payload),
                                       (DatasetUpdate.description payload).
Qed.

Lemma consistent_update_dataset (fqn : string) (payload : DatasetUpdate.t)
    (db : database) :
  consistent db → consistent (update_dataset fqn payload db).2.
Proof.
  intros Hdb. destruct (update_dataset fqn payload db) as [r db'] eqn:Hrun. simpl.
  apply update_dataset_inv in Hrun
    as [[_ ->]|(old & dataset & Hfind & _ & Hid & Hfqn & _ & _ & _ & _ & _ & _ & Hcols)];
    [done|].
  apply find_dataset_by_fqn_Some in Hfind as [Hold _].
  pose proof (consistent_rewrite_dataset db old dataset Hdb Hold Hid Hfqn) as Hdb1.
  destruct (DatasetUpdate.columns payload) as [cols|]; [|by subst].
  destruct Hcols as [Hnames ->]. apply consistent_replace_columns; [done| |done].
  rewrite rewrite_dataset_ids, Hid. by apply list_elem_of_fmap_2.
Qed.

Lemma consistent_delete_dataset (fqn : string) (db : database) :
  consistent db → consistent (delete_dataset fqn db).2.
Proof.
  intros Hdb. unfold delete_dataset. destruct (find_dataset_by_fqn db fqn); simpl; [|done].
  by apply consistent_delete_cascade.
Qed.

Lemma consistent_add_lineage (up down : string) (s : session) :
  consistent (store s) → consistent (store (add_lineage up down s).2).
Proof.
  intros Hdb. destruct (add_lineage up down s) as [[e|exc] s'] eqn:Hrun; simpl.
  - apply add_lineage_Ok_inv in Hrun as (u & d & Hu & Hd & Hnew & Hcheck & -> & ->).
    apply consistent_with_edge; eauto using find_dataset_elem_of_ids.
  - by apply add_lineage_Raise in Hrun as ->.
Qed.

Lemma consistent_remove_lineage (up down : string) (s : session) :
  consistent (store s) → consistent (store (remove_lineage up down s).2).
Proof.
  intros Hdb. destruct (remove_lineage up down s) as [r s'] eqn:Hrun; simpl.
  apply remove_lineage_store in Hrun as [[_ (e & _ & ->)]|[_ ->]]; [|done].
  by apply consistent_without_edge.
Qed.

Lemma consistent_create_dataset (payload : DatasetCreate.t) (s : session) :
  consistent (store s) → consistent (store (create_dataset payload s).2).
Proof.
  intros Hdb. destruct (create_dataset payload s) as [[ds|exc] s'] eqn:Hrun; simpl.
  - apply create_dataset_Ok_inv in Hrun as (Hfind & Hnames & -> & ->).
    by apply consistent_with_dataset.
  - by apply create_dataset_Raise in Hrun as ->.
Qed.

(** ** Every reachable catalog *)

(** A call of one of the five writing service functions. *)
Inductive service_call :=
| CallCreateDataset (payload : DatasetCreate.t)
| CallUpdateDataset (fqn : string) (payload : DatasetUpdate.t)
| CallDeleteDataset (fqn : string)
| CallAddLineage (upstream_fqn downstream_fqn : string)
| CallRemoveLineage (upstream_fqn downstream_fqn : string).

(** The store the call leaves, whether it returned or raised. *)
Definition serve (db : database) (call : service_call) : database :=
  match call with
  | CallCreateDataset payload => store (create_dataset payload (Session db [])).2
  | CallUpdateDataset fqn payload => (update_dataset fqn payload db).2
  | CallDeleteDataset fqn => (delete_dataset fqn db).2
  | CallAddLineage up down => store (add_lineage up down (Session db [])).2
  | CallRemoveLineage up down => store (remove_lineage up down (Session db [])).2
  end.

Lemma consistent_serve (db : database) (call : service_call) :
  consistent db → consistent (serve db call).
Proof.
  intros Hdb. destruct call; simpl.
  - by apply (consistent_create_dataset payload (Session db [])).
  - by apply consistent_update_dataset.
  - by apply consistent_delete_dataset.
  - by apply (consistent_add_lineage _ _ (Session db [])).
  - by apply (consistent_remove_lineage _ _ (Session db [])).
Qed.

Lemma consistent_serve_all (db : database) (calls : list service_call) :
  consistent db → consistent (fold_left serve calls db).
Proof.
  revert db. induction calls as [|call calls IH]; intros db Hdb; simpl; [done|].
  by apply IH, consistent_serve.
Qed.

(** X1.  Whatever sequence of [create_dataset], [update_dataset],
    [delete_dataset], [add_lineage] and [remove_lineage] calls is made,
    with whatever arguments, and whether the calls return or raise, the
    catalog that results from the empty one satisfies every invariant of
    the data model: unique primary keys, unique FQNs, column names unique
    within a dataset, no duplicate edge, no self-loop, no column or edge
    that refers to a missing dataset, and no cycle.  The same holds from
    any catalog that satisfies them. *)
Theorem reachable_catalog_consistent (calls : list service_call) :
  consistent (fold_left serve calls empty_database) ∧
  ∀ db, consistent db → consistent (fold_left serve calls db).
Proof.
  split; [apply consistent_serve_all, consistent_empty|].
  intros db. apply consistent_serve_all.
Qed.

(** ** Adding an edge and removing it again *)

Lemma find_app_None {A} (f : A → bool) (l1 l2 : list A) :
  List.find f l1 = None → List.find f (l1 ++ l2) = List.find f l2.
Proof.
  induction l1 as [|x l1 IH]; simpl; [done|]. destruct (f x); [done|]. apply IH.
Qed.

Lemma filter_all {A} (P : A → Prop) `{∀ x, Decision (P x)} (l : list A) :
  (∀ x, x ∈ l → P x) → filter P l = l.
Proof.
  induction l as [|x l IH]; intros Hl; [done|].
  rewrite filter_cons, decide_True by (apply Hl; left).
  f_equal. apply IH. intros y Hy. apply Hl. by right.
Qed.

(** X2.  In a store whose edge keys are below the counter, an edge that
    [add_lineage] has just stored is removed again by [remove_lineage]
    with the same two FQNs, and the tables are then exactly as they were
    before the edge was added (only the counter of edge keys has moved
    on): so the adjacency map is restored. *)
Theorem add_then_remove_restores (s s1 : session) (up down : string) (e : Lineage.t) :
  (∀ e', e' ∈ lineage (store s) → Lineage.id e' < next_lineage_id (store s)) →
  add_lineage up down s = (Ok e, s1) →
  ∃ s2, remove_lineage up down s1 = (Ok tt, s2) ∧
        lineage (store s2) = lineage (store s) ∧
        datasets (store s2) = datasets (store s) ∧
        dataset_columns (store s2) = dataset_columns (store s) ∧
        build_adjacency (edges_of (store s2)) = build_adjacency (edges_of (store s)).
Proof.
  intros Hbelow (u & d & Hu & Hd & Hnew & _ & -> & Hs1)%add_lineage_Ok_inv.
  rewrite remove_lineage_run. simpl. rewrite Hs1. simpl.
  change (find_dataset_by_fqn (with_edge (store s) ?e) ?f)
    with (find_dataset_by_fqn (store s) f).
  rewrite Hu, Hd.
  apply find_lineage_edge_None in Hnew.
  unfold find_lineage_edge at 1. simpl. unfold find_lineage_edge in Hnew.
  rewrite (find_app_None _ _ _ Hnew). simpl. rewrite !Z.eqb_refl. simpl.
  eexists. split; [reflexivity|]. simpl.
  assert (Hlin : filter (fun e' => Lineage.id e' ≠ next_lineage_id (store s))
                        (lineage (store s) ++
                           [{| Lineage.id := next_lineage_id (store s);
                               Lineage.upstream_id := Dataset.id u;
                               Lineage.downstream_id := Dataset.id d |}])
                 = lineage (store s)).
  { rewrite filter_app, filter_cons, decide_False by (simpl; lia).
    rewrite filter_nil, app_nil_r. apply filter_all.
    intros e' He'. apply Hbelow in He'. lia. }
  split_and!; try done. unfold edges_of. simpl. by rewrite Hlin.
Qed.

End CatalogInvariants.

(* ===================================================================== *)
(** * Facts about updating and deleting datasets                          *)
(* ===================================================================== *)

Module DatasetLifecycleFacts.
Import PyStr Orm Schemas Graph GraphFacts.
Import DatasetService LineageService LineageFacts DatasetFacts.
Import OrmContinued SchemasContinued DatasetServiceContinued CatalogInvariants.

Lemma find_filter {A} (p : A → bool) (P : A → Prop) `{∀ x, Decision (P x)} (l : list A) :
  (∀ x, x ∈ l → p x = true → P x) → List.find p (filter P l) = List.find p l.
Proof.
  induction l as [|x l IH]; intros Hl; [done|].
  assert (IH' : List.find p (filter P l) = List.find p l).
  { apply IH. intros y Hy. apply Hl. by right. }
  rewrite filter_cons. simpl. destruct (p x) eqn:Hpx.
  - rewrite decide_True by (apply Hl; [left|done]). simpl. by rewrite Hpx.
  - case_decide; simpl; [by rewrite Hpx|done].
Qed.



(** In a consistent catalog a dataset is known by its key as well as by
    its FQN. *)
Lemma consistent_same_id (db : database) (ds ds' : Dataset.t) :
  consistent db → ds ∈ datasets db → ds' ∈ datasets db →
  Dataset.id ds = Dataset.id ds' → ds = ds'.
Proof. intros []. by apply NoDup_fmap_eq. Qed.

Lemma consistent_same_fqn (db : database) (ds ds' : Dataset.t) :
  consistent db → ds ∈ datasets db → ds' ∈ datasets db →
  Dataset.fqn ds = Dataset.fqn ds' → ds = ds'.
Proof. intros []. by apply NoDup_fmap_eq. Qed.

Lemma consistent_find_elem (db : database) (ds : Dataset.t) :
  consistent db → ds ∈ datasets db → find_dataset_by_fqn db (Dataset.fqn ds) = Some ds.
Proof.
  intros Hdb Hds.
  destruct (find_dataset_by_fqn db (Dataset.fqn ds)) as [ds'|] eqn:Hfind.
  - apply find_dataset_by_fqn_Some in Hfind as [Hds' Hfqn].
    f_equal. by eapply consistent_same_fqn.
  - exfalso. by apply (proj1 (find_dataset_by_fqn_None _ _) Hfind ds).
Qed.

Lemma not_found_message (fqn : string) :
  mentions ("Dataset '" +:+ fqn +:+ "' not found.") fqn.
Proof. by eexists "Dataset '", _. Qed.

(** X3.  [delete_dataset] on an FQN no dataset has raises [NotFoundError]
    naming it and leaves the store as it was.  On the FQN of a dataset of
    a consistent catalog it returns, and afterwards: the FQN resolves no
    more; every other FQN resolves as before; the columns that remain are
    exactly those of other datasets; and the edges that remain are exactly
    those that have the dataset at neither end, so no edge between two
    other datasets is lost. *)
Theorem delete_dataset_cascades (db : database) (fqn : string) :
  ((∀ ds, ds ∈ datasets db → Dataset.fqn ds ≠ fqn) →
     delete_dataset fqn db
     = (Raise (NotFoundError ("Dataset '" +:+ fqn +:+ "' not found.")), db)) ∧
  (∀ ds, consistent db → find_dataset_by_fqn db fqn = Some ds →
     ∃ db', delete_dataset fqn db = (Ok tt, db') ∧
       find_dataset_by_fqn db' fqn = None ∧
       (∀ f, f ≠ fqn → find_dataset_by_fqn db' f = find_dataset_by_fqn db f) ∧
       (∀ c, c ∈ dataset_columns db' ↔
             c ∈ dataset_columns db ∧ DatasetColumn.dataset_id c ≠ Dataset.id ds) ∧
       (∀ e, e ∈ lineage db' ↔
             e ∈ lineage db ∧ Lineage.upstream_id e ≠ Dataset.id ds
             ∧ Lineage.downstream_id e ≠ Dataset.id ds)).
Proof.
  unfold delete_dataset. split.
  - intros Hnone%find_dataset_by_fqn_None. by rewrite Hnone.
  - intros ds Hdb Hfind. rewrite Hfind. eexists. split; [reflexivity|].
    pose proof (find_dataset_by_fqn_Some _ _ _ Hfind) as [Hds Hfqn].
    split_and!.
    + apply find_dataset_by_fqn_None. simpl.
      intros ds' [Hne Hds']%list_elem_of_filter Hfqn'. apply Hne. f_equal.
      eapply consistent_same_fqn; eauto. congruence.
    + intros f Hf. unfold find_dataset_by_fqn. simpl. apply find_filter.
      intros ds' Hds' Heq%String.eqb_eq Hid. apply Hf.
      rewrite <- Heq, <- Hfqn. f_equal. by eapply consistent_same_id.
    + intros c. simpl. rewrite list_elem_of_filter. tauto.
    + intros e. simpl. rewrite list_elem_of_filter. tauto.
Qed.

(** The name, data type and description of a stored column. *)
Definition column_fields (c : DatasetColumn.t) : string * string * option string :=
  (DatasetColumn.name c, DatasetColumn.data_type c, DatasetColumn.description c).





End DatasetLifecycleFacts.

(* ===================================================================== *)
(** * Facts about the paginated listing                                  *)
(* ===================================================================== *)

Module ListingFacts.
Import PyStr Orm PyStrFacts DatasetServiceContinued.

Lemma StronglySorted_drop {A} (R : relation A) (l : list A) (n : nat) :
  StronglySorted R l → StronglySorted R (drop n l).
Proof.
  intros Hl. rewrite <- (take_drop n l) in Hl. by apply StronglySorted_app_1_r in Hl.
Qed.

(** The order of a listing: FQNs ascending in the collation. *)
Definition fqn_order (collate_le : string → string → bool) (a b : Dataset.t) : Prop :=
  collate_le (Dataset.fqn a) (Dataset.fqn b) = true.

Lemma sort_by_fqn_StronglySorted (collate_le : string → string → bool) (l : list Dataset.t) :
  (∀ a b, collate_le a b = true ∨ collate_le b a = true) →
  (∀ a b c, collate_le a b = true → collate_le b c = true → collate_le a c = true) →
  StronglySorted (fqn_order collate_le) (sort_by collate_le Dataset.fqn l).
Proof.
  intros Htotal Htrans. apply Sorted_StronglySorted.
  - intros a b c. unfold fqn_order. apply Htrans.
  - by apply sort_by_Sorted.
Qed.

(** X5.  Pages of [list_datasets] tile the listing: a page of [m + n]
    datasets is the page of [m] followed by the page of [n] that starts
    [m] further on.  A page has [limit] datasets or as many as are left
    after [skip], holds only stored datasets, and the page that starts at
    0 and is as long as the table is a rearrangement of the table, so no
    dataset is left out or listed twice.  Where the collation is a total
    preorder, every page is in ascending order of FQN, and every dataset
    of an earlier page comes before every dataset of a later one. *)
Theorem list_datasets_pages_tile
    (collate_le : string → string → bool) (db : database) (skip m n : nat) :
  list_datasets collate_le db skip (m + n)
    = list_datasets collate_le db skip m ++ list_datasets collate_le db (skip + m) n ∧
  length (list_datasets collate_le db skip m)
    = (m `min` (length (datasets db) - skip))%nat ∧
  (∀ ds, ds ∈ list_datasets collate_le db skip m → ds ∈ datasets db) ∧
  list_datasets collate_le db 0 (length (datasets db)) ≡ₚ datasets db ∧
  ((∀ a b, collate_le a b = true ∨ collate_le b a = true) →
   (∀ a b c, collate_le a b = true → collate_le b c = true → collate_le a c = true) →
   StronglySorted (fqn_order collate_le) (list_datasets collate_le db skip m) ∧
   ∀ a b, a ∈ list_datasets collate_le db skip m →
          b ∈ list_datasets collate_le db (skip + m) n →
          fqn_order collate_le a b).
Proof.
  unfold list_datasets.
  set (sorted := sort_by collate_le Dataset.fqn (datasets db)).
  assert (Hperm : sorted ≡ₚ datasets db) by apply sort_by_Permutation.
  split_and!.
  - by rewrite <- take_take_drop, drop_drop.
  - by rewrite length_take, length_drop, Hperm.
  - intros ds Hds%subseteq_take%subseteq_drop. by rewrite <- Hperm.
  - rewrite drop_0, <- Hperm at 1. by rewrite firstn_all.
  - intros Htotal Htrans.
    pose proof (sort_by_fqn_StronglySorted collate_le (datasets db) Htotal Htrans) as Hsorted.
    fold sorted in Hsorted. split.
    + by apply SearchFacts.StronglySorted_take, StronglySorted_drop.
    + intros a b Ha Hb.
      assert (Hpage : StronglySorted (fqn_order collate_le)
                        (take m (drop skip sorted) ++ take n (drop (skip + m) sorted))).
      { rewrite <- drop_drop, take_take_drop.
        by apply SearchFacts.StronglySorted_take, StronglySorted_drop. }
      by eapply StronglySorted_app_1_elem_of.
Qed.

End ListingFacts.

(* ===================================================================== *)
(** * Facts about the lineage view of a dataset                           *)
(* ===================================================================== *)

Module LineageViewFacts.
Import PyStr Orm Schemas SearchService SearchFacts LineageService LineageFacts.
Import OrmContinued SchemasContinued LineageServiceContinued.
Import CatalogInvariants DatasetLifecycleFacts.

Lemma dataset_by_id_Some (db : database) (i : Z) (ds : Dataset.t) :
  dataset_by_id db i = Some ds → ds ∈ datasets db ∧ Dataset.id ds = i.
Proof.
  unfold dataset_by_id. intros [Hds Hid%Z.eqb_eq]%find_some. split; [|done].
  by apply list_elem_of_In.
Qed.

Lemma dataset_by_id_is_Some (db : database) (i : Z) :
  i ∈ Dataset.id <$> datasets db → is_Some (dataset_by_id db i).
Proof.
  intros (ds & -> & Hds)%list_elem_of_fmap. unfold dataset_by_id.
  destruct (List.find _ _) eqn:Hfind; [done|]. exfalso.
  apply list_elem_of_In in Hds. apply (find_none _ _ Hfind ds) in Hds.
  simpl in Hds. by rewrite Z.eqb_refl in Hds.
Qed.

Lemma dataset_by_id_elem (db : database) (ds : Dataset.t) :
  consistent db → ds ∈ datasets db → dataset_by_id db (Dataset.id ds) = Some ds.
Proof.
  intros Hdb Hds.
  destruct (dataset_by_id_is_Some db (Dataset.id ds)) as [ds' Hfind];
    [by apply list_elem_of_fmap_2|].
  rewrite Hfind. f_equal. apply dataset_by_id_Some in Hfind as [Hds' Hid].
  by eapply consistent_same_id.
Qed.

Lemma NoDup_omap_inj {A B} (f : A → option B) (l : list A) :
  NoDup l →
  (∀ x y b, x ∈ l → y ∈ l → f x = Some b → f y = Some b → x = y) →
  NoDup (omap f l).
Proof.
  induction 1 as [|x l Hx Hl IH]; intros Hinj; csimpl; [constructor|].
  assert (IH' : NoDup (omap f l)).
  { apply IH. intros y z b Hy Hz. apply Hinj; by right. }
  destruct (f x) as [b|] eqn:Hfx; [|done].
  constructor; [|done]. intros (y & Hy & Hfy)%list_elem_of_omap.
  apply Hx. rewrite (Hinj x y b); [done|left|by right|done..].
Qed.

Lemma length_omap_is_Some {A B} (f : A → option B) (l : list A) :
  (∀ x, x ∈ l → is_Some (f x)) → length (omap f l) = length l.
Proof.
  induction l as [|x l IH]; intros Hl; csimpl; [done|].
  destruct (Hl x) as [b ->]; [left|]. simpl. f_equal. apply IH.
  intros y Hy. apply Hl. by right.
Qed.

(** The two lists [get_dataset_lineage] and the search closure [_add]
    both build for a dataset. *)
Definition upstream_nodes (db : database) (ds : Dataset.t) : list LineageNodeResponse.t :=
  omap (fun edge => LineageNodeResponse.model_validate <$> Orm.upstream db edge)
       (upstream_edges db ds).

Definition downstream_nodes (db : database) (ds : Dataset.t) : list LineageNodeResponse.t :=
  omap (fun edge => LineageNodeResponse.model_validate <$> Orm.downstream db edge)
       (downstream_edges db ds).

Lemma elem_of_upstream_nodes (db : database) (ds : Dataset.t) (n : LineageNodeResponse.t) :
  consistent db →
  n ∈ upstream_nodes db ds ↔
  ∃ u, u ∈ datasets db ∧ edge_rel db (Dataset.id u) (Dataset.id ds)
       ∧ n = LineageNodeResponse.model_validate u.
Proof.
  intros Hdb. unfold upstream_nodes, upstream_edges, Orm.upstream, edge_rel, edges_of.
  rewrite list_elem_of_omap. setoid_rewrite list_elem_of_filter.
  setoid_rewrite list_elem_of_fmap. split.
  - intros (e & [Hdown He] & Hn).
    destruct (dataset_by_id db (Lineage.upstream_id e)) as [u|] eqn:Hu; [|done].
    injection Hn as <-. apply dataset_by_id_Some in Hu as [Hu Hid].
    exists u. split_and!; [done| |done]. exists e. split; [|done].
    unfold edge_pair. congruence.
  - intros (u & Hu & (e & [= Hup Hdown] & He) & ->). exists e. split; [done|].
    by rewrite <- Hup, dataset_by_id_elem.
Qed.

Lemma elem_of_downstream_nodes (db : database) (ds : Dataset.t) (n : LineageNodeResponse.t) :
  consistent db →
  n ∈ downstream_nodes db ds ↔
  ∃ d, d ∈ datasets db ∧ edge_rel db (Dataset.id ds) (Dataset.id d)
       ∧ n = LineageNodeResponse.model_validate d.
Proof.
  intros Hdb. unfold downstream_nodes, downstream_edges, Orm.downstream, edge_rel, edges_of.
  rewrite list_elem_of_omap. setoid_rewrite list_elem_of_filter.
  setoid_rewrite list_elem_of_fmap. split.
  - intros (e & [Hup He] & Hn).
    destruct (dataset_by_id db (Lineage.downstream_id e)) as [d|] eqn:Hd; [|done].
    injection Hn as <-. apply dataset_by_id_Some in Hd as [Hd Hid].
    exists d. split_and!; [done| |done]. exists e. split; [|done].
    unfold edge_pair. congruence.
  - intros (d & Hd & (e & [= Hup Hdown] & He) & ->). exists e. split; [done|].
    by rewrite <- Hdown, dataset_by_id_elem.
Qed.

Lemma consistent_same_edge (db : database) (e e' : Lineage.t) :
  consistent db → e ∈ lineage db → e' ∈ lineage db →
  Lineage.upstream_id e = Lineage.upstream_id e' →
  Lineage.downstream_id e = Lineage.downstream_id e' → e = e'.
Proof.
  intros Hdb He He' Hup Hdown. apply (NoDup_fmap_eq edge_pair (lineage db)); try done.
  - apply Hdb.
  - unfold edge_pair. congruence.
Qed.

Lemma upstream_nodes_NoDup (db : database) (ds : Dataset.t) :
  consistent db → NoDup (LineageNodeResponse.fqn <$> upstream_nodes db ds).
Proof.
  intros Hdb. unfold upstream_nodes. rewrite list_fmap_omap.
  apply NoDup_omap_inj.
  - apply NoDup_filter. eapply NoDup_fmap_1, (lineage_ids_unique db Hdb).
  - intros e e' f [Hdown He]%list_elem_of_filter [Hdown' He']%list_elem_of_filter.
    unfold Orm.upstream.
    destruct (dataset_by_id db (Lineage.upstream_id e)) as [u|] eqn:Hu; [|done].
    destruct (dataset_by_id db (Lineage.upstream_id e')) as [u'|] eqn:Hu'; [|done].
    simpl. intros [= Hf] [= Hf'].
    apply dataset_by_id_Some in Hu as [Hu Hid], Hu' as [Hu' Hid'].
    assert (u = u') as <- by (eapply consistent_same_fqn; eauto; congruence).
    eapply consistent_same_edge; eauto; congruence.
Qed.

Lemma downstream_nodes_NoDup (db : database) (ds : Dataset.t) :
  consistent db → NoDup (LineageNodeResponse.fqn <$> downstream_nodes db ds).
Proof.
  intros Hdb. unfold downstream_nodes. rewrite list_fmap_omap.
  apply NoDup_omap_inj.
  - apply NoDup_filter. eapply NoDup_fmap_1, (lineage_ids_unique db Hdb).
  - intros e e' f [Hup He]%list_elem_of_filter [Hup' He']%list_elem_of_filter.
    unfold Orm.downstream.
    destruct (dataset_by_id db (Lineage.downstream_id e)) as [d|] eqn:Hd; [|done].
    destruct (dataset_by_id db (Lineage.downstream_id e')) as [d'|] eqn:Hd'; [|done].
    simpl. intros [= Hf] [= Hf'].
    apply dataset_by_id_Some in Hd as [Hd Hid], Hd' as [Hd' Hid'].
    assert (d = d') as <- by (eapply consistent_same_fqn; eauto; congruence).
    eapply consistent_same_edge; eauto; congruence.
Qed.

(** X6.  [get_dataset_lineage] on an FQN no dataset has raises
    [NotFoundError].  On the FQN of a dataset of a consistent catalog it
    returns the dataset and its direct neighbours only: the upstream list
    holds exactly the datasets with a stored edge into it, the downstream
    list exactly those it has a stored edge to.  Each list has one node
    per stored edge, no FQN twice, and never the dataset itself. *)
Theorem get_dataset_lineage_direct_neighbours (db : database) (fqn : string) :
  ((∀ ds, ds ∈ datasets db → Dataset.fqn ds ≠ fqn) →
     get_dataset_lineage db fqn
     = Raise (NotFoundError ("Dataset '" +:+ fqn +:+ "' not found."))) ∧
  (∀ ds, consistent db → find_dataset_by_fqn db fqn = Some ds →
     ∃ r, get_dataset_lineage db fqn = Ok r ∧
       DatasetLineageResponse.dataset r = DatasetResponse.model_validate db ds ∧
       (∀ n, n ∈ DatasetLineageResponse.upstream_datasets r ↔
             ∃ u, u ∈ datasets db ∧ edge_rel db (Dataset.id u) (Dataset.id ds)
                  ∧ n = LineageNodeResponse.model_validate u) ∧
       (∀ n, n ∈ DatasetLineageResponse.downstream_datasets r ↔
             ∃ d, d ∈ datasets db ∧ edge_rel db (Dataset.id ds) (Dataset.id d)
                  ∧ n = LineageNodeResponse.model_validate d) ∧
       (length (DatasetLineageResponse.upstream_datasets r)
          = length (upstream_edges db ds) ∧
        length (DatasetLineageResponse.downstream_datasets r)
          = length (downstream_edges db ds)) ∧
       (NoDup (LineageNodeResponse.fqn <$> DatasetLineageResponse.upstream_datasets r) ∧
        NoDup (LineageNodeResponse.fqn <$> DatasetLineageResponse.downstream_datasets r)) ∧
       (fqn ∉ LineageNodeResponse.fqn <$> DatasetLineageResponse.upstream_datasets r) ∧
       (fqn ∉ LineageNodeResponse.fqn <$> DatasetLineageResponse.downstream_datasets r)).
Proof.
  unfold get_dataset_lineage. split.
  - intros Hnone%find_dataset_by_fqn_None. by rewrite Hnone.
  - intros ds Hdb Hfind. rewrite Hfind. eexists. split; [reflexivity|]. simpl.
    pose proof (find_dataset_by_fqn_Some _ _ _ Hfind) as [Hds Hfqn].
    fold (upstream_nodes db ds) (downstream_nodes db ds).
    assert (Hself : ∀ x, x ∈ datasets db → Dataset.fqn x = fqn →
                         ¬ edge_rel db (Dataset.id x) (Dataset.id ds)
                         ∧ ¬ edge_rel db (Dataset.id ds) (Dataset.id x)).
    { intros x Hx Hxf.
      assert (x = ds) as -> by (eapply consistent_same_fqn; eauto; congruence).
      unfold edge_rel, edges_of.
      split; intros (e & [= Hup Hdown] & He)%list_elem_of_fmap;
        apply (edges_no_self_loop db Hdb e He); congruence. }
    split_and!; try done.
    + intros n. by apply elem_of_upstream_nodes.
    + intros n. by apply elem_of_downstream_nodes.
    + apply length_omap_is_Some. intros e [_ He]%list_elem_of_filter.
      apply fmap_is_Some, dataset_by_id_is_Some, (edges_owned db Hdb e He).
    + apply length_omap_is_Some. intros e [_ He]%list_elem_of_filter.
      apply fmap_is_Some, dataset_by_id_is_Some, (edges_owned db Hdb e He).
    + by apply upstream_nodes_NoDup.
    + by apply downstream_nodes_NoDup.
    + intros (n & -> & (u & Hu & Hedge & ->)%elem_of_upstream_nodes)%list_elem_of_fmap;
        [|done]. by destruct (Hself u Hu eq_refl) as [Hno _].
    + intros (n & -> & (d & Hd & Hedge & ->)%elem_of_downstream_nodes)%list_elem_of_fmap;
        [|done]. by destruct (Hself d Hd eq_refl) as [_ Hno].
Qed.

(** X7.  In a consistent catalog, the lineage a search result carries is
    the lineage view of its dataset: [get_dataset_lineage] on the FQN of
    the result returns the same dataset and the same upstream and
    downstream lists. *)
Theorem search_result_carries_lineage_view
    (ilike : string → string → bool) (db : database) (query : string) (limit : Z)
    (r : SearchResultItem.t) :
  consistent db →
  r ∈ SearchResponse.results (search_datasets ilike db query limit) →
  ∃ view, get_dataset_lineage db (result_fqn r) = Ok view ∧
    DatasetLineageResponse.dataset view = SearchResultItem.dataset r ∧
    DatasetLineageResponse.upstream_datasets view = SearchResultItem.upstream_datasets r ∧
    DatasetLineageResponse.downstream_datasets view
      = SearchResultItem.downstream_datasets r.
Proof.
  intros Hdb Hr.
  destruct (search_datasets_prefix ilike db query limit) as [n Hprefix].
  rewrite Hprefix in Hr. apply subseteq_take in Hr.
  apply elem_of_full_ranking in Hr as [_ Hr].
  destruct (collected_spec ilike db (strip query)) as (_ & Hfrom & _).
  destruct (Hfrom r Hr) as (c & [Hds _]%elem_of_candidates & -> & _).
  rewrite result_fqn_item. unfold cand_fqn, get_dataset_lineage.
  rewrite (consistent_find_elem db c.1.1) by done.
  by eexists.
Qed.

End LineageViewFacts.

(* ===================================================================== *)
(** * Further facts about the cycle check                                 *)
(* ===================================================================== *)

Module CycleCheckFacts.
Import Graph GraphFacts.

Lemma neighbours_add_edge (adj : adjacency) (u d a b : Z) :
  b ∈ neighbours (add_edge adj (u, d)) a ↔ b ∈ neighbours adj a ∨ (a = u ∧ b = d).
Proof.
  change (add_edge adj (u, d)) with (fold_left add_edge [(u, d)] adj).
  rewrite fold_add_edge_neighbours, list_elem_of_singleton.
  naive_solver.
Qed.

Lemma would_create_cycle_false_iff (u d : Z) (adj : adjacency) :
  would_create_cycle u d adj = false ↔ u ≠ d ∧ ¬ reachable adj d u.
Proof.
  rewrite <- not_true_iff_false, would_create_cycle_true_iff. tauto.
Qed.

Lemma reachable_mono (adj adj' : adjacency) (a b : Z) :
  (∀ x y, y ∈ neighbours adj x → y ∈ neighbours adj' x) →
  reachable adj a b → reachable adj' a b.
Proof.
  intros Hsub. induction 1 as [|x y z Hxy _ IH]; [apply rtc_refl|].
  eapply rtc_l; [|done]. by apply Hsub.
Qed.

(** A path of the graph with the edge [u → d] added either is a path of
    the graph without it or passes through [u]. *)
Lemma reachable_add_edge (adj : adjacency) (u d a b : Z) :
  reachable (add_edge adj (u, d)) a b → reachable adj a b ∨ reachable adj a u.
Proof.
  unfold reachable. revert b. apply rtc_ind_r; [by left|].
  intros y z _ Hyz [IH|IH]; [|by right].
  apply neighbours_add_edge in Hyz as [Hyz|[-> ->]].
  - left. by eapply rtc_r.
  - by right.
Qed.

(** X8.  Laws of [would_create_cycle].  The reverse of a recorded edge is
    refused.  Refusals compose: if [a → b] and [b → c] are refused, so is
    [a → c].  A refusal stays a refusal when edges are added to the map.
    An edge to a node without outgoing edges is accepted unless it is a
    self-loop.  An accepted edge, once recorded, is still not a cycle by
    itself (so sending it again fails only as a duplicate), while its
    reverse is refused from then on. *)
Theorem would_create_cycle_laws (adj adj' : adjacency) (a b c : Z) :
  (a ∈ neighbours adj b → would_create_cycle a b adj = true) ∧
  (would_create_cycle a b adj = true → would_create_cycle b c adj = true →
     would_create_cycle a c adj = true) ∧
  ((∀ x y, y ∈ neighbours adj x → y ∈ neighbours adj' x) →
     would_create_cycle a b adj = true → would_create_cycle a b adj' = true) ∧
  (neighbours adj b = ∅ → would_create_cycle a b adj = bool_decide (a = b)) ∧
  (would_create_cycle a b adj = false →
     would_create_cycle a b (add_edge adj (a, b)) = false ∧
     would_create_cycle b a (add_edge adj (a, b)) = true).
Proof.
  split_and!.
  - intros Hedge. apply would_create_cycle_true_iff. right. by apply rtc_once.
  - rewrite !would_create_cycle_true_iff.
    intros [->|Hba] [->|Hcb]; auto. right. unfold reachable in *. by etrans.
  - intros Hsub. rewrite !would_create_cycle_true_iff.
    intros [->|Hba]; [by left|]. right. by eapply reachable_mono.
  - intros Hleaf. case_bool_decide as Hab.
    + apply would_create_cycle_true_iff. by left.
    + apply would_create_cycle_false_iff. split; [done|].
      intros Hba. apply rtc_inv in Hba as [->|(x & Hx & _)]; [done|].
      unfold edge in Hx. rewrite Hleaf in Hx. set_solver.
  - intros [Hne Hba]%would_create_cycle_false_iff. split.
    + apply would_create_cycle_false_iff. split; [done|].
      by intros [?|?]%reachable_add_edge.
    + apply would_create_cycle_true_iff. right. apply rtc_once.
      apply neighbours_add_edge. by right.
Qed.

End CycleCheckFacts.

(* ===================================================================== *)
(** * Facts about the request schemas                                     *)
(* ===================================================================== *)

Module SchemaFacts.
Import PyStr PyStrFacts Orm Schemas DatasetFacts.

(** ** Strings *)

Lemma isspace_lower_char (c : Ascii.ascii) : isspace (lower_char c) = isspace c.
Proof. by destruct c as [[] [] [] [] [] [] [] []]. Qed.

Lemma lower_char_idemp (c : Ascii.ascii) : lower_char (lower_char c) = lower_char c.
Proof. by destruct c as [[] [] [] [] [] [] [] []]. Qed.

Lemma lower_idemp (s : string) : lower (lower s) = lower s.
Proof.
  unfold lower. induction s as [|c s IH]; simpl; [done|].
  by rewrite lower_char_idemp, IH.
Qed.

Lemma lstrip_lower (s : string) : lstrip (lower s) = lower (lstrip s).
Proof.
  unfold lower. induction s as [|c s IH]; simpl; [done|].
  rewrite isspace_lower_char. by destruct (isspace c).
Qed.

Lemma rstrip_lower (s : string) : rstrip (lower s) = lower (rstrip s).
Proof.
  unfold lower. induction s as [|c s IH]; simpl; [done|].
  rewrite IH, isspace_lower_char.
  destruct (rstrip s); simpl; [by destruct (isspace c)|done].
Qed.

Lemma strip_lower (s : string) : strip (lower s) = lower (strip s).
Proof. unfold strip. by rewrite lstrip_lower, rstrip_lower. Qed.

Lemma len_lower (s : string) : len (lower s) = len s.
Proof.
  unfold len, lower. f_equal. induction s as [|c s IH]; simpl; [done|]. by rewrite IH.
Qed.

Lemma len_append (a b : string) : len (a +:+ b) = len a + len b.
Proof.
  unfold len. induction a as [|c a IH]; [done|].
  change (String c a +:+ b) with (String c (a +:+ b)).
  cbn [String.length]. lia.
Qed.

(** ** The field constraints *)

Lemma check_length_bounds (field : string) (n hi : Z) (v : string) :
  check_length field (Some n) hi v = [] ↔ n ≤ len v ≤ hi.
Proof.
  unfold check_length.
  destruct (Z.ltb_spec (len v) n), (Z.ltb_spec hi (len v)); simpl; split; try done; lia.
Qed.

Lemma check_length_max (field : string) (hi : Z) (v : string) :
  check_length field None hi v = [] ↔ len v ≤ hi.
Proof.
  unfold check_length. destruct (Z.ltb_spec hi (len v)); simpl; split; try done; lia.
Qed.

(** A normalised identity component: between 1 and 128 characters, with
    no white space at either end and no upper-case letter. *)
Definition canonical_component (c : string) : Prop :=
  1 ≤ len c ≤ 128 ∧ strip c = c ∧ lower c = c.

(** A validated column: a trimmed name of 1 to 128 characters and a
    data-type label of at most 64. *)
Definition valid_column (col : ColumnBase.t) : Prop :=
  1 ≤ len (ColumnBase.name col) ≤ 128 ∧
  strip (ColumnBase.name col) = ColumnBase.name col ∧
  len (ColumnBase.data_type col) ≤ 64 ∧
  (∀ d, ColumnBase.description col = Some d → len d ≤ 512).

(** The validated models given back as requests, [model_dump()]. *)
Definition column_dump (col : ColumnBase.t) : ColumnBase.input :=
  {| ColumnBase.in_name := ColumnBase.name col;
     ColumnBase.in_data_type := Some (ColumnBase.data_type col);
     ColumnBase.in_description := ColumnBase.description col |}.

Definition dataset_dump (payload : DatasetCreate.t) : DatasetCreate.input :=
  {| DatasetCreate.in_connection_name := DatasetCreate.connection_name payload;
     DatasetCreate.in_database_name := DatasetCreate.database_name payload;
     DatasetCreate.in_schema_name := DatasetCreate.schema_name payload;
     DatasetCreate.in_table_name := DatasetCreate.table_name payload;
     DatasetCreate.in_source_system := Some (DatasetCreate.source_system payload);
     DatasetCreate.in_description := DatasetCreate.description payload;
     DatasetCreate.in_columns := column_dump <$> DatasetCreate.columns payload |}.

Lemma ColumnBase_validate_iff (r : ColumnBase.input) (col : ColumnBase.t) :
  ColumnBase.validate r = inr col ↔
  col = {| ColumnBase.name := strip (ColumnBase.in_name r);
           ColumnBase.data_type := default "STRING" (ColumnBase.in_data_type r);
           ColumnBase.description := ColumnBase.in_description r |} ∧
  1 ≤ len (strip (ColumnBase.in_name r)) ≤ 128 ∧
  len (default "STRING" (ColumnBase.in_data_type r)) ≤ 64 ∧
  (∀ d, ColumnBase.in_description r = Some d → len d ≤ 512).
Proof.
  unfold ColumnBase.validate, ColumnBase.strip_name.
  destruct (check_length "name" _ _ _ ++ _) as [|i issues] eqn:Hissues.
  - apply app_eq_nil in Hissues as [Hname [Htype Hdescr]%app_eq_nil].
    apply check_length_bounds in Hname. apply check_length_max in Htype.
    split.
    + intros [= <-]. split_and!; try done; try lia. intros d Hd. rewrite Hd in Hdescr.
      by apply check_length_max in Hdescr.
    + by intros (-> & _).
  - split; [done|]. intros (_ & Hname & Htype & Hdescr). exfalso.
    apply (check_length_bounds "name") in Hname.
    apply (check_length_max "data_type") in Htype.
    rewrite Hname, Htype in Hissues. simpl in Hissues.
    destruct (ColumnBase.in_description r) as [d|]; [|done]. simpl in Hissues.
    specialize (Hdescr d eq_refl). apply (check_length_max "description") in Hdescr.
    by rewrite Hdescr in Hissues.
Qed.

Lemma valid_column_dump (col : ColumnBase.t) :
  valid_column col → ColumnBase.validate (column_dump col) = inr col.
Proof.
  intros (Hname & Hstrip & Htype & Hdescr). apply ColumnBase_validate_iff. simpl.
  rewrite Hstrip. split_and!; try done; try lia. by destruct col.
Qed.

Lemma validate_list_dump (cols : list ColumnBase.t) :
  Forall valid_column cols →
  validate_list ColumnBase.validate (column_dump <$> cols) = inr cols.
Proof.
  induction 1 as [|col cols Hcol _ IH]; csimpl; [done|].
  by rewrite (valid_column_dump col Hcol), IH.
Qed.

(** X9.  A request that passes [DatasetCreate] validation comes out in
    normal form: each identity component has 1 to 128 characters, no
    white space at either end and no upper-case letter; every column has a
    trimmed name of 1 to 128 characters, a data-type label of at most 64
    and a description of at most 512; the description of the dataset has
    at most 1024.  The FQN has the four components' lengths plus three
    dots, so between 7 and 515 characters.  Validating the validated
    payload again gives it back unchanged. *)
Theorem validated_dataset_is_canonical
    (raw : DatasetCreate.input) (payload : DatasetCreate.t) :
  DatasetCreate.validate raw = inr payload →
  (canonical_component (DatasetCreate.connection_name payload) ∧
   canonical_component (DatasetCreate.database_name payload) ∧
   canonical_component (DatasetCreate.schema_name payload) ∧
   canonical_component (DatasetCreate.table_name payload)) ∧
  Forall valid_column (DatasetCreate.columns payload) ∧
  (∀ d, DatasetCreate.description payload = Some d → len d ≤ 1024) ∧
  (len (DatasetCreate.fqn payload)
     = len (DatasetCreate.connection_name payload)
       + len (DatasetCreate.database_name payload)
       + len (DatasetCreate.schema_name payload)
       + len (DatasetCreate.table_name payload) + 3 ∧
   7 ≤ len (DatasetCreate.fqn payload) ≤ 515) ∧
  DatasetCreate.validate (dataset_dump payload) = inr payload.
Proof.
  intros Hvalid.
  pose proof (DatasetCreate_validate_inr _ _ Hvalid) as (Hc & Hd & Hs & Ht & Hcols).
  unfold DatasetCreate.validate in Hvalid.
  destruct (check_length "connection_name" _ _ _ ++ _) as [|i issues] eqn:Hissues;
    destruct (validate_list _ _) as [es|cols] eqn:Hlist; try done.
  injection Hvalid as Hpayload.
  apply app_eq_nil in Hissues as [Hlc [Hld [Hls [Hlt Hldescr]%app_eq_nil]%app_eq_nil]%app_eq_nil].
  unfold DatasetCreate.normalize_component in *.
  rewrite <- Hc in Hlc. rewrite <- Hd in Hld. rewrite <- Hs in Hls. rewrite <- Ht in Hlt.
  apply check_length_bounds in Hlc, Hld, Hls, Hlt.
  assert (Hcanon : ∀ v c, c = lower (strip v) → 1 ≤ len c ≤ 128 → canonical_component c).
  { intros v c -> Hlen. split_and!; [lia..| |].
    - by rewrite strip_lower, strip_idemp.
    - apply lower_idemp. }
  assert (Hcolumns : Forall valid_column (DatasetCreate.columns payload)).
  { clear -Hcols. induction Hcols as [|r col raws cols Hr _ IH]; constructor; [|done].
    apply ColumnBase_validate_iff in Hr as (-> & Hname & Htype & Hdescr).
    split_and!; simpl; try done; try lia. apply strip_idemp. }
  assert (Hdescr : ∀ d, DatasetCreate.description payload = Some d → len d ≤ 1024).
  { intros d Hd'. rewrite <- Hpayload in Hd'. simpl in Hd'. rewrite Hd' in Hldescr.
    by apply check_length_max in Hldescr. }
  assert (Hlen : len (DatasetCreate.fqn payload)
                 = len (DatasetCreate.connection_name payload)
                   + len (DatasetCreate.database_name payload)
                   + len (DatasetCreate.schema_name payload)
                   + len (DatasetCreate.table_name payload) + 3).
  { unfold DatasetCreate.fqn. rewrite !len_append. change (len ".") with 1. lia. }
  split_and!; eauto; try lia.
  unfold DatasetCreate.validate, DatasetCreate.normalize_component. simpl.
  destruct (Hcanon _ _ Hc Hlc) as (_ & Hsc & Hlwc), (Hcanon _ _ Hd Hld) as (_ & Hsd & Hlwd),
    (Hcanon _ _ Hs Hls) as (_ & Hss & Hlws), (Hcanon _ _ Ht Hlt) as (_ & Hst & Hlwt).
  rewrite Hsc, Hsd, Hss, Hst, Hlwc, Hlwd, Hlws, Hlwt.
  rewrite (proj2 (check_length_bounds _ _ _ _) Hlc), (proj2 (check_length_bounds _ _ _ _) Hld),
    (proj2 (check_length_bounds _ _ _ _) Hls), (proj2 (check_length_bounds _ _ _ _) Hlt).
  simpl. rewrite (validate_list_dump _ Hcolumns).
  assert (check_optional "description" 1024 (DatasetCreate.description payload) = []) as ->.
  { destruct (DatasetCreate.description payload) as [d|] eqn:Hd'; [|done].
    simpl. apply check_length_max. by apply Hdescr. }
  by destruct payload.
Qed.

(** ** The two bounds on an FQN *)

(** [c * n] for a one-character string. *)
Fixpoint times (c : Ascii.ascii) (n : nat) : string :=
  match n with
  | O => EmptyString
  | S n' => String c (times c n')
  end.

(** A request whose four components have 128 characters each. *)
Definition widest_request : DatasetCreate.input :=
  let component := times (Ascii.ascii_of_N 97) 128 in
  {| DatasetCreate.in_connection_name := component;
     DatasetCreate.in_database_name := component;
     DatasetCreate.in_schema_name := component;
     DatasetCreate.in_table_name := component;
     DatasetCreate.in_source_system := None;
     DatasetCreate.in_description := None;
     DatasetCreate.in_columns := [] |}.

Lemma check_length_too_long (field : string) (lo : option Z) (hi : Z) (v : string) :
  hi < len v → check_length field lo hi v ≠ [].
Proof.
  intros Hlong. unfold check_length.
  destruct (Z.ltb_spec hi (len v)); [|lia].
  by intros [_ ?]%app_eq_nil.
Qed.

(** X17.  The bound of [DatasetCreate] on an FQN and the bound of
    [LineageCreate] differ.  A request with four components of 128
    characters passes [DatasetCreate] validation, with an FQN of 515
    characters; and [LineageCreate] refuses every body in which an FQN of
    more than 512 characters is the upstream or the downstream end,
    whatever the other end is. *)
Theorem fqn_bounds_of_the_two_schemas (f other : string) :
  (∃ payload, DatasetCreate.validate widest_request = inr payload ∧
              len (DatasetCreate.fqn payload) = 515) ∧
  (512 < len f →
   (∃ issues, LineageCreate.validate
                {| LineageCreate.upstream_fqn := f;
                   LineageCreate.downstream_fqn := other |} = inl issues) ∧
   (∃ issues, LineageCreate.validate
                {| LineageCreate.upstream_fqn := other;
                   LineageCreate.downstream_fqn := f |} = inl issues)).
Proof.
  split.
  - eexists. split; vm_compute; reflexivity.
  - intros Hlong. unfold LineageCreate.validate. simpl.
    pose proof (check_length_too_long "upstream_fqn" (Some 1) 512 f Hlong) as Hup.
    pose proof (check_length_too_long "downstream_fqn" (Some 1) 512 f Hlong) as Hdown.
    split.
    + destruct (check_length "upstream_fqn" _ _ f) as [|i l]; [done|]. simpl. by eexists.
    + destruct (check_length "upstream_fqn" _ _ other ++ _) as [|i l] eqn:Hissues;
        [|by eexists].
      by apply app_eq_nil in Hissues as [_ ?].
Qed.

End SchemaFacts.

(* ===================================================================== *)
(** * The request as it arrives                                           *)
(* ===================================================================== *)

(** A field validator declared with [mode="before"] is handed the value of
    the JSON body as it was parsed, before its type is looked at.  The
    bodies below are JSON objects that have their required keys; the
    fields that go through such a validator are kept as they arrive, the
    other fields have the type the schema declares. *)
Module RequestBody.
Import PyStr Orm Schemas SchemasContinued.

(** A JSON value: a string, or a value of any other type (null, a number,
    a boolean, an array, an object). *)
Inductive value :=
| Str (s : string)
| NotStr.

(** What [v.strip()] is called on: only a string has the method, any
    other value makes the validator raise [AttributeError]. *)
Definition as_str (v : value) : option string :=
  match v with
  | Str s => Some s
  | NotStr => None
  end.

Record column := Column {
  name : value;
  data_type : option string;
  description : option string }.

Record dataset_create := DatasetCreateBody {
  create_connection_name : value;
  create_database_name : value;
  create_schema_name : value;
  create_table_name : value;
  create_source_system : option SourceSystem;
  create_description : option string;
  create_columns : list column }.

Record dataset_update := DatasetUpdateBody {
  update_source_system : option SourceSystem;
  update_description : option string;
  update_columns : option (list column) }.

(** The fields as the schema goes on to validate them, when no
    [mode="before"] validator has raised [AttributeError]: [strip_name]
    for a column, [normalize_component] for the four components. *)
Definition column_input (c : column) : option ColumnBase.input :=
  match as_str (name c) with
  | Some s =>
      Some {| ColumnBase.in_name := s;
              ColumnBase.in_data_type := data_type c;
              ColumnBase.in_description := description c |}
  | None => None
  end.

Definition create_input (body : dataset_create) : option DatasetCreate.input :=
  match as_str (create_connection_name body), as_str (create_database_name body),
        as_str (create_schema_name body), as_str (create_table_name body),
        mapM column_input (create_columns body) with
  | Some connection, Some database, Some schema, Some table, Some columns =>
      Some {| DatasetCreate.in_connection_name := connection;
              DatasetCreate.in_database_name := database;
              DatasetCreate.in_schema_name := schema;
              DatasetCreate.in_table_name := table;
              DatasetCreate.in_source_system := create_source_system body;
              DatasetCreate.in_description := create_description body;
              DatasetCreate.in_columns := columns |}
  | _, _, _, _, _ => None
  end.

Definition update_input (body : dataset_update) : option DatasetUpdate.input :=
  match update_columns body with
  | None =>
      Some {| DatasetUpdate.in_source_system := update_source_system body;
              DatasetUpdate.in_description := update_description body;
              DatasetUpdate.in_columns := None |}
  | Some cols =>
      match mapM column_input cols with
      | Some columns =>
          Some {| DatasetUpdate.in_source_system := update_source_system body;
                  DatasetUpdate.in_description := update_description body;
                  DatasetUpdate.in_columns := Some columns |}
      | None => None
      end
  end.

End RequestBody.

(* ===================================================================== *)
(** * app/routers/datasets.py                                             *)
(* ===================================================================== *)

Module DatasetsRouter.
Import PyStr Orm Schemas OrmContinued SchemasContinued.

(** One entry of a 422 answer: a required parameter that the request does
    not have, or an issue a schema found. *)
Inductive request_issue :=
| Missing (parameter : string)
| Invalid (i : issue).

(** What an endpoint answers: a body with its status code, an
    [HTTPException] with its status and detail, the 422 answer the
    framework gives to a request that fails validation (the endpoint
    function is then not called), or the 500 answer to an exception
    nobody catches. *)
Inductive response (A : Type) :=
| Respond (status_code : Z) (content : A)
| HTTPException (status_code : Z) (detail : string)
| RequestValidationError (issues : list request_issue)
| InternalServerError.
Arguments Respond {A} status_code content.
Arguments HTTPException {A} status_code detail.
Arguments RequestValidationError {A} issues.
Arguments InternalServerError {A}.

(** [POST /datasets].  An [AttributeError] out of a [mode="before"]
    validator is no validation error: it leaves the validation of the
    body at once and nobody catches it.  Of the exceptions of the service
    only [ConflictError] is caught. *)
Definition create_dataset (body : RequestBody.dataset_create) (db : session)
  : response DatasetResponse.t * session :=
  match RequestBody.create_input body with
  | None => (InternalServerError, db)
  | Some input =>
      match DatasetCreate.validate input with
      | inl issues => (RequestValidationError (Invalid <$> issues), db)
      | inr payload =>
          match DatasetService.create_dataset payload db with
          | (Ok dataset, db') =>
              (Respond 201 (DatasetResponse.model_validate (store db') dataset), db')
          | (Raise (ConflictError exc), db') => (HTTPException 409 exc, db')
          | (Raise _, db') => (InternalServerError, db')
          end
      end
  end.

(** [GET /datasets] with [skip: int = Query(default=0, ge=0)] and
    [limit: int = Query(default=50, ge=1, le=200)]. *)
Definition list_datasets (collate_le : string → string → bool) (db : database)
    (skip limit : option Z) : list issue + list DatasetResponse.t :=
  let skip := default 0 skip in
  let limit := default 50 limit in
  match (if skip <? 0 then [NumberTooSmall "skip"] else [])
        ++ (if limit <? 1 then [NumberTooSmall "limit"] else [])
        ++ (if 200 <? limit then [NumberTooLarge "limit"] else []) with
  | [] =>
      inr (DatasetResponse.model_validate db
             <$> DatasetServiceContinued.list_datasets collate_le db
                   (Z.to_nat skip) (Z.to_nat limit))
  | issues => inl issues
  end.

(** [GET /datasets/{fqn:path}]. *)
Definition get_dataset (fqn : string) (db : database) : response DatasetResponse.t :=
  match find_dataset_by_fqn db fqn with
  | None => HTTPException 404 ("Dataset '" +:+ fqn +:+ "' not found.")
  | Some dataset => Respond 200 (DatasetResponse.model_validate db dataset)
  end.

(** [PUT /datasets/{fqn:path}]: the body is validated before the endpoint
    function runs; only [NotFoundError] is caught. *)
Definition update_dataset (fqn : string) (body : RequestBody.dataset_update) (db : database)
  : response DatasetResponse.t * database :=
  match RequestBody.update_input body with
  | None => (InternalServerError, db)
  | Some input =>
      match DatasetUpdate.validate input with
      | inl issues => (RequestValidationError (Invalid <$> issues), db)
      | inr payload =>
          match DatasetServiceContinued.update_dataset fqn payload db with
          | (Ok dataset, db') =>
              (Respond 200 (DatasetResponse.model_validate db' dataset), db')
          | (Raise (NotFoundError exc), db') => (HTTPException 404 exc, db')
          | (Raise _, db') => (InternalServerError, db')
          end
      end
  end.

(** [DELETE /datasets/{fqn:path}]. *)
Definition delete_dataset (fqn : string) (db : database) : response unit * database :=
  match DatasetServiceContinued.delete_dataset fqn db with
  | (Ok _, db') => (Respond 204 tt, db')
  | (Raise (NotFoundError exc), db') => (HTTPException 404 exc, db')
  | (Raise _, db') => (InternalServerError, db')
  end.

End DatasetsRouter.

(* ===================================================================== *)
(** * app/routers/lineage.py, continued                                   *)
(* ===================================================================== *)

Module LineageRouterContinued.
Import PyStr Orm Schemas OrmContinued SchemasContinued DatasetsRouter.

(** [DELETE /lineage?upstream_fqn=..&downstream_fqn=..].  Both query
    parameters are declared [Query(...)]: required, with no constraint on
    the string.  [None] is a request without the parameter, which is
    answered 422 and never reaches the endpoint function. *)
Definition remove_lineage (upstream_fqn downstream_fqn : option string) (db : session)
  : response unit * session :=
  match upstream_fqn, downstream_fqn with
  | Some upstream_fqn, Some downstream_fqn =>
      match LineageService.remove_lineage upstream_fqn downstream_fqn db with
      | (Ok _, db') => (Respond 204 tt, db')
      | (Raise (NotFoundError exc), db') => (HTTPException 404 exc, db')
      | (Raise _, db') => (InternalServerError, db')
      end
  | _, _ =>
      (RequestValidationError
         ((if upstream_fqn is None then [Missing "upstream_fqn"] else [])
          ++ (if downstream_fqn is None then [Missing "downstream_fqn"] else [])),
       db)
  end.

(** [GET /lineage/{fqn:path}]. *)
Definition get_lineage (fqn : string) (db : database) : response DatasetLineageResponse.t :=
  match LineageServiceContinued.get_dataset_lineage db fqn with
  | Ok view => Respond 200 view
  | Raise (NotFoundError exc) => HTTPException 404 exc
  | Raise _ => InternalServerError
  end.

End LineageRouterContinued.

(* ===================================================================== *)
(** * Facts about the dataset endpoints                                   *)
(* ===================================================================== *)

Module DatasetEndpointFacts.
Import PyStr PyStrFacts Orm Schemas LineageFacts DatasetFacts.
Import OrmContinued SchemasContinued DatasetServiceContinued.
Import CatalogInvariants DatasetLifecycleFacts DatasetsRouter.

Lemma names_distinct_new_columns (payload : DatasetCreate.t) :
  names_distinct (new_columns payload) = true
  ↔ NoDup ((fun col => strip (ColumnBase.name col)) <$> DatasetCreate.columns payload).
Proof.
  unfold names_distinct, new_columns. rewrite bool_decide_eq_true.
  by rewrite <- list_fmap_compose.
Qed.

Lemma find_dataset_app_new (l : list Dataset.t) (ds : Dataset.t) (f : string) :
  Dataset.fqn ds = f →
  List.find (fun x => String.eqb (Dataset.fqn x) f) l = None →
  List.find (fun x => String.eqb (Dataset.fqn x) f) (l ++ [ds]) = Some ds.
Proof.
  intros <- Hnone. rewrite (find_app_None _ _ _ Hnone). simpl. by rewrite String.eqb_refl.
Qed.

(** ** Bodies with a value that is not a string *)

Lemma column_input_None (c : RequestBody.column) :
  RequestBody.column_input c = None ↔ RequestBody.name c = RequestBody.NotStr.
Proof.
  unfold RequestBody.column_input. by destruct (RequestBody.name c).
Qed.

Lemma columns_input_None (cols : list RequestBody.column) :
  mapM RequestBody.column_input cols = None
  ↔ ∃ c, c ∈ cols ∧ RequestBody.name c = RequestBody.NotStr.
Proof.
  rewrite mapM_None, Exists_exists. by setoid_rewrite column_input_None.
Qed.

(** Some value that a [mode="before"] validator of [DatasetCreate] or of
    one of its columns is given is not a string. *)
Definition create_not_str (body : RequestBody.dataset_create) : Prop :=
  RequestBody.NotStr ∈ [RequestBody.create_connection_name body;
                        RequestBody.create_database_name body;
                        RequestBody.create_schema_name body;
                        RequestBody.create_table_name body] ∨
  ∃ c, c ∈ RequestBody.create_columns body ∧ RequestBody.name c = RequestBody.NotStr.


Lemma create_input_None (body : RequestBody.dataset_create) :
  RequestBody.create_input body = None ↔ create_not_str body.
Proof.
  unfold RequestBody.create_input, create_not_str.
  rewrite <- columns_input_None, !elem_of_cons, elem_of_nil.
  destruct (RequestBody.create_connection_name body),
    (RequestBody.create_database_name body), (RequestBody.create_schema_name body),
    (RequestBody.create_table_name body);
    destruct (mapM _ _); simpl; naive_solver.
Qed.


(** X10.  The answers of [POST /datasets], for a body that is a JSON
    object with the required keys.  When a component or a column name is
    not a string, the [mode="before"] validator raises [AttributeError]
    and the answer is 500, with nothing sent to the store.  Otherwise a
    body that fails validation gets the validation error, again with
    nothing sent to the store; a valid body whose FQN is taken gets 409
    with a detail naming the FQN; a valid body with a free FQN but two
    columns of the same (trimmed) name gets 500, since the store refuses
    the rows and the endpoint catches only [ConflictError]; and any other
    body gets 201 with the dataset under the FQN of the payload, after
    which [GET /datasets/{fqn}] answers 200 with the same body.  Only a
    201 changes the stored rows. *)
Theorem post_dataset_answers (body : RequestBody.dataset_create) (s : session) :
  (create_not_str body → create_dataset body s = (InternalServerError, s)) ∧
  match create_dataset body s with
  | (RequestValidationError issues, s') =>
      s' = s ∧
      ∃ input found, RequestBody.create_input body = Some input ∧
        DatasetCreate.validate input = inl found ∧ issues = Invalid <$> found
  | (HTTPException status_code detail, s') =>
      status_code = 409 ∧ store s' = store s ∧
      ∃ input payload, RequestBody.create_input body = Some input ∧
        DatasetCreate.validate input = inr payload ∧
        is_Some (find_dataset_by_fqn (store s) (DatasetCreate.fqn payload)) ∧
        detail = "Dataset '" +:+ DatasetCreate.fqn payload +:+ "' already exists."
  | (InternalServerError, s') =>
      (create_not_str body ∧ s' = s) ∨
      (store s' = store s ∧
       ∃ input payload, RequestBody.create_input body = Some input ∧
         DatasetCreate.validate input = inr payload ∧
         find_dataset_by_fqn (store s) (DatasetCreate.fqn payload) = None ∧
         ¬ NoDup ((fun col => strip (ColumnBase.name col))
                    <$> DatasetCreate.columns payload))
  | (Respond status_code content, s') =>
      status_code = 201 ∧
      ∃ input payload, RequestBody.create_input body = Some input ∧
        DatasetCreate.validate input = inr payload ∧
        find_dataset_by_fqn (store s) (DatasetCreate.fqn payload) = None ∧
        NoDup ((fun col => strip (ColumnBase.name col)) <$> DatasetCreate.columns payload) ∧
        DatasetResponse.fqn content = DatasetCreate.fqn payload ∧
        get_dataset (DatasetCreate.fqn payload) (store s') = Respond 200 content
  end.
Proof.
  unfold create_dataset. split.
  { intros Hraw%create_input_None. by rewrite Hraw. }
  destruct (RequestBody.create_input body) as [input|] eqn:Hinput.
  2: { left. split; [|done]. by apply create_input_None. }
  destruct (DatasetCreate.validate input) as [issues|payload] eqn:Hvalid.
  { split; [done|]. by exists input, issues. }
  rewrite create_dataset_run. simpl.
  destruct (find_dataset_by_fqn (store s) (DatasetCreate.fqn payload)) as [ds|] eqn:Hfind.
  - split_and!; try done. exists input, payload. by rewrite Hfind.
  - unfold insert_dataset. simpl. rewrite Hfind.
    destruct (names_distinct (new_columns payload)) eqn:Hnames; simpl.
    + apply names_distinct_new_columns in Hnames.
      split; [done|]. exists input, payload. split_and!; try done.
      unfold get_dataset, find_dataset_by_fqn. simpl.
      unfold find_dataset_by_fqn in Hfind.
      by erewrite find_dataset_app_new; [|reflexivity|exact Hfind].
    + right. split; [done|]. exists input, payload. split_and!; try done.
      intros Hnodup%names_distinct_new_columns. congruence.
Qed.


(** X16.  The answers of [GET /datasets].  The request is refused
    exactly when [skip] is negative or [limit] is outside 1..200 (with 0
    and 50 standing for a missing [skip] and [limit]), and the store is
    then not queried.  Otherwise the answer is the page of
    [list_datasets] at that offset, one body per dataset and in the same
    order: at most [limit], so at most 200, bodies, each of a stored
    dataset. *)
Theorem get_datasets_answers
    (collate_le : string → string → bool) (db : database) (skip limit : option Z) :
  match list_datasets collate_le db skip limit with
  | inl issues =>
      issues ≠ [] ∧ (default 0 skip < 0 ∨ default 50 limit < 1 ∨ 200 < default 50 limit)
  | inr page =>
      (0 ≤ default 0 skip ∧ 1 ≤ default 50 limit ≤ 200) ∧
      page = DatasetResponse.model_validate db
               <$> DatasetServiceContinued.list_datasets collate_le db
                     (Z.to_nat (default 0 skip)) (Z.to_nat (default 50 limit)) ∧
      Z.of_nat (length page) ≤ default 50 limit ∧
      ∀ r, r ∈ page → ∃ ds, ds ∈ datasets db ∧ r = DatasetResponse.model_validate db ds
  end.
Proof.
  unfold list_datasets.
  destruct (Z.ltb_spec (default 0 skip) 0), (Z.ltb_spec (default 50 limit) 1),
    (Z.ltb_spec 200 (default 50 limit)); simpl; try (split; [done|lia]).
  split_and!; try done; try lia.
  - rewrite length_fmap. unfold DatasetServiceContinued.list_datasets.
    rewrite length_take. lia.
  - intros r (ds & -> & Hds)%list_elem_of_fmap. exists ds. split; [|done].
    unfold DatasetServiceContinued.list_datasets in Hds.
    apply subseteq_take, subseteq_drop in Hds.
    by rewrite sort_by_Permutation in Hds.
Qed.

End DatasetEndpointFacts.

(* ===================================================================== *)
(** * Facts about the lineage endpoints and the removal of edges          *)
(* ===================================================================== *)

Module LineageEndpointFacts.
Import PyStr Orm Schemas Graph GraphFacts LineageService LineageFacts.
Import OrmContinued SchemasContinued LineageServiceContinued.
Import CatalogInvariants DatasetLifecycleFacts CycleCheckFacts.
Import DatasetsRouter LineageRouterContinued.

Lemma LineageCreate_validate_inr (body payload : LineageCreate.t) :
  LineageCreate.validate body = inr payload →
  payload = body ∧ LineageCreate.upstream_fqn body ≠ LineageCreate.downstream_fqn body.
Proof.
  unfold LineageCreate.validate, LineageCreate.check_not_self_loop.
  destruct (check_length _ _ _ _ ++ _); [|done].
  destruct (String.eqb_spec (LineageCreate.upstream_fqn body)
              (LineageCreate.downstream_fqn body)); [done|].
  by intros [= <-].
Qed.

(** X12.  The answers of the lineage endpoints.  [POST /lineage] never
    answers 500: the store's own constraint on duplicate edges cannot
    fire, because the service has looked for the edge first.  It answers
    201 only for two different datasets that are both stored, have no
    edge between them in that direction and no path back, and the store
    is then the old one with that edge appended; every other answer (404,
    409, 422) leaves the stored rows as they were.  [DELETE /lineage]
    answers 422, with nothing sent to the store, exactly when one of its
    two required query parameters is absent; with both present it answers
    204 after deleting one stored edge, or 404 with the rows as they
    were.  [GET /lineage/{fqn}] answers 200 with the view the service
    returns, or 404 for an FQN no dataset has.  Neither of the two
    answers 500. *)
Theorem lineage_endpoints_answers
    (body : LineageCreate.t) (up down : option string) (fqn : string) (s : session) :
  match LineageRouter.add_lineage body s with
  | (LineageRouter.Created e, s') =>
      ∃ u d,
        find_dataset_by_fqn (store s) (LineageCreate.upstream_fqn body) = Some u ∧
        find_dataset_by_fqn (store s) (LineageCreate.downstream_fqn body) = Some d ∧
        LineageCreate.upstream_fqn body ≠ LineageCreate.downstream_fqn body ∧
        Dataset.id u ≠ Dataset.id d ∧
        edge_pair e = (Dataset.id u, Dataset.id d) ∧
        ((Dataset.id u, Dataset.id d) ∉ edges_of (store s)) ∧
        ¬ rtc (edge_rel (store s)) (Dataset.id d) (Dataset.id u) ∧
        store s' = with_edge (store s) e
  | (LineageRouter.HTTPException status_code _, s') =>
      (status_code = 404 ∨ status_code = 409 ∨ status_code = 422) ∧ store s' = store s
  | (LineageRouter.RequestValidationError issues, s') =>
      LineageCreate.validate body = inl issues ∧ s' = s
  | (LineageRouter.InternalServerError, _) => False
  end ∧
  match remove_lineage up down s with
  | (Respond status_code _, s') =>
      status_code = 204 ∧ is_Some up ∧ is_Some down ∧
      ∃ e, e ∈ lineage (store s) ∧ store s' = without_edge (store s) (Lineage.id e)
  | (HTTPException status_code _, s') =>
      status_code = 404 ∧ is_Some up ∧ is_Some down ∧ store s' = store s
  | (RequestValidationError issues, s') =>
      s' = s ∧ (up = None ∨ down = None) ∧
      issues = (if up is None then [Missing "upstream_fqn"] else [])
               ++ (if down is None then [Missing "downstream_fqn"] else [])
  | (InternalServerError, _) => False
  end ∧
  match get_lineage fqn (store s) with
  | Respond status_code view =>
      status_code = 200 ∧ get_dataset_lineage (store s) fqn = Ok view ∧
      is_Some (find_dataset_by_fqn (store s) fqn)
  | HTTPException status_code detail =>
      status_code = 404 ∧ detail = "Dataset '" +:+ fqn +:+ "' not found." ∧
      find_dataset_by_fqn (store s) fqn = None
  | RequestValidationError _ | InternalServerError => False
  end.
Proof.
  split_and!.
  - unfold LineageRouter.add_lineage.
    destruct (LineageCreate.validate body) as [issues|payload] eqn:Hvalid; [done|].
    apply LineageCreate_validate_inr in Hvalid as [-> Hne].
    rewrite add_lineage_run. simpl.
    destruct (find_dataset_by_fqn (store s) (LineageCreate.upstream_fqn body)) as [u|] eqn:Hu;
      [|by auto].
    destruct (find_dataset_by_fqn (store s) (LineageCreate.downstream_fqn body)) as [d|] eqn:Hd;
      [|by auto].
    destruct (find_lineage_edge (store s) (Dataset.id u) (Dataset.id d)) as [e|] eqn:He;
      [by auto|].
    destruct (would_create_cycle _ _ _) eqn:Hcycle; [by auto|].
    apply not_true_iff_false in Hcycle. rewrite would_create_cycle_edges_of in Hcycle.
    apply find_lineage_edge_None in He.
    exists u, d. split_and!; try done; tauto.
  - unfold remove_lineage.
    destruct up as [up|], down as [down|]; try (split_and!; try done; by auto).
    rewrite remove_lineage_run. simpl.
    destruct (find_dataset_by_fqn (store s) up) as [u|]; [|done].
    destruct (find_dataset_by_fqn (store s) down) as [d|]; [|done].
    destruct (find_lineage_edge (store s) (Dataset.id u) (Dataset.id d)) as [e|] eqn:He;
      [|done].
    apply find_lineage_edge_Some in He as [He _]. split_and!; try done. by exists e.
  - unfold get_lineage, get_dataset_lineage.
    by destruct (find_dataset_by_fqn (store s) fqn).
Qed.

(** ** Removing an edge *)

Lemma edges_of_without_edge (db : database) (e : Lineage.t) (p : Z * Z) :
  consistent db → e ∈ lineage db →
  p ∈ edges_of (without_edge db (Lineage.id e)) ↔ p ∈ edges_of db ∧ p ≠ edge_pair e.
Proof.
  intros Hdb He. unfold edges_of. simpl. rewrite !list_elem_of_fmap.
  setoid_rewrite list_elem_of_filter. split.
  - intros (e' & -> & Hid & He'). split; [by exists e'|].
    intros Hpair. apply Hid. f_equal.
    apply (NoDup_fmap_eq edge_pair (lineage db)); try done. apply Hdb.
  - intros [(e' & -> & He') Hne]. exists e'. split_and!; [done| |done].
    intros Hid. apply Hne. f_equal.
    apply (NoDup_fmap_eq Lineage.id (lineage db)); try done. apply Hdb.
Qed.

(** X13.  [remove_lineage] raises [NotFoundError] when the upstream FQN,
    then the downstream FQN, then the edge between the two is missing, and
    leaves the rows as they were.  For a stored edge of a consistent
    catalog it returns, and afterwards exactly that edge is gone: every
    other edge, every dataset and every column is as before.  The edge
    can then be added back: [add_lineage] with the same FQNs returns. *)
Theorem remove_lineage_removes_exactly (s : session) (up down : string) :
  (find_dataset_by_fqn (store s) up = None →
     ∃ s', LineageService.remove_lineage up down s
           = (Raise (NotFoundError (upstream_not_found up)), s') ∧ store s' = store s) ∧
  (is_Some (find_dataset_by_fqn (store s) up) →
   find_dataset_by_fqn (store s) down = None →
     ∃ s', LineageService.remove_lineage up down s
           = (Raise (NotFoundError (downstream_not_found down)), s') ∧ store s' = store s) ∧
  (∀ u d, find_dataset_by_fqn (store s) up = Some u →
          find_dataset_by_fqn (store s) down = Some d →
     ((Dataset.id u, Dataset.id d) ∉ edges_of (store s) →
        ∃ s', LineageService.remove_lineage up down s
              = (Raise (NotFoundError (edge_missing_message up down)), s')
              ∧ store s' = store s) ∧
     (consistent (store s) → (Dataset.id u, Dataset.id d) ∈ edges_of (store s) →
        ∃ s', LineageService.remove_lineage up down s = (Ok tt, s') ∧
          (∀ p, p ∈ edges_of (store s') ↔
                p ∈ edges_of (store s) ∧ p ≠ (Dataset.id u, Dataset.id d)) ∧
          datasets (store s') = datasets (store s) ∧
          dataset_columns (store s') = dataset_columns (store s) ∧
          ∃ e s'', add_lineage up down s' = (Ok e, s'') ∧
                   edge_pair e = (Dataset.id u, Dataset.id d))).
Proof.
  rewrite remove_lineage_run. simpl. split_and!.
  - intros ->. by eexists.
  - intros [u ->] ->. by eexists.
  - intros u d Hu Hd. rewrite Hu, Hd. split.
    + intros Hnone%find_lineage_edge_None. rewrite Hnone. by eexists.
    + intros Hdb Hedge.
      destruct (find_lineage_edge (store s) (Dataset.id u) (Dataset.id d)) as [e|] eqn:He.
      2: { by apply find_lineage_edge_None in He. }
      apply find_lineage_edge_Some in He as [He Hpair].
      eexists. split; [reflexivity|]. simpl.
      pose proof (edges_of_without_edge (store s) e) as Hrest.
      rewrite Hpair in Hrest. split_and!; try done.
      { intros p. by apply Hrest. }
      rewrite add_lineage_run. simpl.
      change (find_dataset_by_fqn (without_edge (store s) ?i) ?f)
        with (find_dataset_by_fqn (store s) f).
      rewrite Hu, Hd.
      assert (Hgone : find_lineage_edge (without_edge (store s) (Lineage.id e))
                        (Dataset.id u) (Dataset.id d) = None).
      { apply find_lineage_edge_None. intros [_ Hne]%Hrest; done. }
      rewrite Hgone.
      assert (Hsafe : would_create_cycle (Dataset.id u) (Dataset.id d)
                        (build_adjacency (edges_of (without_edge (store s) (Lineage.id e))))
                      = false).
      { apply not_true_iff_false. rewrite would_create_cycle_edges_of. intros [Heq|Hback].
        - apply (edges_no_self_loop _ Hdb e He). injection Hpair as -> ->. done.
        - apply (edges_acyclic _ Hdb (Dataset.id u)).
          eapply tc_rtc_r; [by apply tc_once|].
          eapply rtc_subrel; [|exact Hback]. intros a b Hab. by apply Hrest in Hab as [? _]. }
      rewrite Hsafe. by eexists _, _.
Qed.

End LineageEndpointFacts.

(* ===================================================================== *)
(** * Further facts about the search answer                               *)
(* ===================================================================== *)

Module SearchAnswerFacts.
Import PyStr PyStrFacts Orm Schemas SearchService SearchFacts.

Lemma StronglySorted_sublist {A} (R : relation A) (l k : list A) :
  l `sublist_of` k → StronglySorted R k → StronglySorted R l.
Proof.
  induction 1 as [|x l k Hsub IH|x l k Hsub IH]; intros Hk; [done| |].
  - apply StronglySorted_inv in Hk as [Hk Hx]. constructor; [by apply IH|].
    rewrite Forall_forall in *. intros y Hy. apply Hx. by eapply elem_of_sublist.
  - apply StronglySorted_inv in Hk as [Hk _]. by apply IH.
Qed.

(** The closure [_add] only ever appends: what the loops leave in
    [results] is the items of some of the calls, in the order of the
    calls. *)
Lemma collect_sublist (db : database) (cs : list candidate) (acc : collector) :
  ∃ kept, kept `sublist_of` cs ∧
    results (fold_left (add_candidate db) cs acc) = results acc ++ (item db <$> kept).
Proof.
  revert acc. induction cs as [|c cs IH]; intros acc; simpl.
  - exists []. by rewrite app_nil_r.
  - rewrite add_candidate_unfold. case_decide.
    + destruct (IH acc) as (kept & Hsub & ->). exists kept. split; [|done].
      by apply sublist_cons.
    + destruct (IH {| seen_fqns := {[cand_fqn c]} ∪ seen_fqns acc;
                      results := results acc ++ [item db c] |}) as (kept & Hsub & ->).
      exists (c :: kept). split; [by apply sublist_skip|].
      simpl. by rewrite <- app_assoc.
Qed.

(** The order of priorities alone. *)
Definition tier_order (r1 r2 : SearchResultItem.t) : Prop :=
  SearchResultItem.priority r1 ≤ SearchResultItem.priority r2.

Lemma collected_tier_sorted (ilike : string → string → bool) (db : database)
    (term : string) :
  StronglySorted tier_order (results (collected ilike db term)).
Proof.
  rewrite collected_candidates.
  destruct (collect_sublist db (candidates ilike db term)
              {| seen_fqns := ∅; results := [] |}) as (kept & Hsub & ->).
  simpl. eapply StronglySorted_fmap; [|eapply StronglySorted_sublist;
                                        [done|apply candidates_sorted]].
  by intros c1 c2.
Qed.

(** X14.  The shape of a search answer.  For a blank query the answer
    echoes the query as given, with no result; otherwise it echoes the
    trimmed query.  The list the loops build is already in order of
    priority before [results.sort] runs, as the comment in the source
    says: sorting leaves the sequence of priorities as it was and only
    orders the results of one tier by FQN.  [total] is at most the number
    of stored datasets, and for a limit that is not negative the answer
    holds [limit] results or all of them, whichever is less. *)
Theorem search_answer_shape
    (ilike : string → string → bool) (db : database) (query : string) (limit : Z) :
  let resp := search_datasets ilike db query limit in
  SearchResponse.query resp = (if blank query then query else strip query) ∧
  (blank query = true → SearchResponse.total resp = 0 ∧ SearchResponse.results resp = []) ∧
  StronglySorted tier_order (results (collected ilike db (strip query))) ∧
  SearchResultItem.priority <$> sorted_results ilike db (strip query)
    = SearchResultItem.priority <$> results (collected ilike db (strip query)) ∧
  0 ≤ SearchResponse.total resp ≤ Z.of_nat (length (datasets db)) ∧
  (0 ≤ limit →
   Z.of_nat (length (SearchResponse.results resp)) = limit `min` SearchResponse.total resp).
Proof.
  simpl. split_and!.
  - unfold search_datasets, blank. by destruct (_ || _).
  - unfold search_datasets, blank. by intros ->.
  - apply collected_tier_sorted.
  - apply (StronglySorted_unique Z.le).
    + eapply StronglySorted_fmap; [|apply sorted_results_StronglySorted].
      intros r1 r2. unfold key_order. rewrite key_le_spec. simpl. lia.
    + eapply StronglySorted_fmap; [|apply collected_tier_sorted]. by intros r1 r2.
    + apply fmap_Permutation. unfold sorted_results. apply sort_by_Permutation.
  - destruct (search_datasets_results ilike db query limit) as [_ ->]. lia.
  - destruct (search_datasets_results ilike db query limit) as [_ ->].
    apply inj_le.
    transitivity (length (result_fqn <$> full_ranking ilike db query));
      [by rewrite length_fmap|].
    transitivity (length (Dataset.fqn <$> datasets db)); [|by rewrite length_fmap].
    apply submseteq_length, NoDup_submseteq; [apply full_ranking_NoDup|].
    intros f (r & -> & Hr)%list_elem_of_fmap.
    apply full_ranking_item in Hr as (ds & Hds & _ & -> & _).
    by apply list_elem_of_fmap_2.
  - intros Hlimit.
    destruct (search_datasets_results ilike db query limit) as [-> ->].
    rewrite slice_to_nonneg, length_take by done. lia.
Qed.

End SearchAnswerFacts.

(* ===================================================================== *)
(** * The lineage view after the graph is edited                          *)
(* ===================================================================== *)

Module LineageViewEditFacts.
Import PyStr Orm Schemas Graph GraphFacts LineageService LineageFacts.
Import OrmContinued SchemasContinued DatasetServiceContinued LineageServiceContinued.
Import CatalogInvariants DatasetLifecycleFacts LineageViewFacts LineageEndpointFacts.

Lemma get_dataset_lineage_Ok (db : database) (fqn : string) (ds : Dataset.t) :
  find_dataset_by_fqn db fqn = Some ds →
  get_dataset_lineage db fqn
  = Ok {| DatasetLineageResponse.dataset := DatasetResponse.model_validate db ds;
          DatasetLineageResponse.upstream_datasets := upstream_nodes db ds;
          DatasetLineageResponse.downstream_datasets := downstream_nodes db ds |}.
Proof. unfold get_dataset_lineage. by intros ->. Qed.

Lemma get_dataset_lineage_Ok_inv (db : database) (fqn : string)
    (view : DatasetLineageResponse.t) :
  get_dataset_lineage db fqn = Ok view →
  ∃ ds, find_dataset_by_fqn db fqn = Some ds ∧
    DatasetLineageResponse.upstream_datasets view = upstream_nodes db ds ∧
    DatasetLineageResponse.downstream_datasets view = downstream_nodes db ds.
Proof.
  unfold get_dataset_lineage. destruct (find_dataset_by_fqn db fqn) as [ds|]; [|done].
  intros [= <-]. by exists ds.
Qed.

(** X15.  The lineage view follows the edits of a consistent catalog.
    After [add_lineage] returns, the view of the upstream dataset lists
    the downstream FQN among its downstream datasets and the view of the
    downstream dataset lists the upstream FQN among its upstream ones.
    After [remove_lineage] returns, neither does any more.  After
    [delete_dataset] returns, the FQN of the deleted dataset appears in
    no view of any dataset. *)
Theorem lineage_view_follows_edits (s : session) (up down : string) :
  consistent (store s) →
  (∀ e s', add_lineage up down s = (Ok e, s') →
     ∃ vu vd,
       get_dataset_lineage (store s') up = Ok vu ∧
       get_dataset_lineage (store s') down = Ok vd ∧
       down ∈ LineageNodeResponse.fqn <$> DatasetLineageResponse.downstream_datasets vu ∧
       up ∈ LineageNodeResponse.fqn <$> DatasetLineageResponse.upstream_datasets vd) ∧
  (∀ s', LineageService.remove_lineage up down s = (Ok tt, s') →
     ∃ vu vd,
       get_dataset_lineage (store s') up = Ok vu ∧
       get_dataset_lineage (store s') down = Ok vd ∧
       (down ∉ LineageNodeResponse.fqn <$> DatasetLineageResponse.downstream_datasets vu) ∧
       (up ∉ LineageNodeResponse.fqn <$> DatasetLineageResponse.upstream_datasets vd)) ∧
  (∀ db' other view,
     delete_dataset up (store s) = (Ok tt, db') →
     get_dataset_lineage db' other = Ok view →
     (up ∉ LineageNodeResponse.fqn <$> DatasetLineageResponse.upstream_datasets view) ∧
     (up ∉ LineageNodeResponse.fqn <$> DatasetLineageResponse.downstream_datasets view)).
Proof.
  intros Hdb. split_and!.
  - intros e s' Hrun.
    pose proof (consistent_add_lineage up down s Hdb) as Hdb'. rewrite Hrun in Hdb'.
    simpl in Hdb'.
    apply add_lineage_Ok_inv in Hrun as (u & d & Hu & Hd & _ & _ & -> & Hs').
    rewrite Hs' in *.
    pose proof (find_dataset_by_fqn_Some _ _ _ Hu) as [Hu_in Hu_fqn].
    pose proof (find_dataset_by_fqn_Some _ _ _ Hd) as [Hd_in Hd_fqn].
    assert (Hedge : edge_rel (with_edge (store s)
                      {| Lineage.id := next_lineage_id (store s);
                         Lineage.upstream_id := Dataset.id u;
                         Lineage.downstream_id := Dataset.id d |})
                      (Dataset.id u) (Dataset.id d)).
    { unfold edge_rel, edges_of. simpl. rewrite fmap_app. apply elem_of_app. right.
      apply list_elem_of_singleton. done. }
    eexists _, _. split_and!.
    + by apply (get_dataset_lineage_Ok _ _ u).
    + by apply (get_dataset_lineage_Ok _ _ d).
    + simpl. apply list_elem_of_fmap. exists (LineageNodeResponse.model_validate d).
      split; [done|]. apply elem_of_downstream_nodes; [done|]. by exists d.
    + simpl. apply list_elem_of_fmap. exists (LineageNodeResponse.model_validate u).
      split; [done|]. apply elem_of_upstream_nodes; [done|]. by exists u.
  - intros s' Hrun.
    pose proof (consistent_remove_lineage up down s Hdb) as Hdb'. rewrite Hrun in Hdb'.
    simpl in Hdb'. rewrite remove_lineage_run in Hrun. simpl in Hrun.
    destruct (find_dataset_by_fqn (store s) up) as [u|] eqn:Hu; [|done].
    destruct (find_dataset_by_fqn (store s) down) as [d|] eqn:Hd; [|done].
    destruct (find_lineage_edge (store s) (Dataset.id u) (Dataset.id d)) as [e|] eqn:He;
      [|done].
    injection Hrun as <-. simpl in *.
    apply find_lineage_edge_Some in He as [He Hpair].
    pose proof (find_dataset_by_fqn_Some _ _ _ Hu) as [Hu_in Hu_fqn].
    pose proof (find_dataset_by_fqn_Some _ _ _ Hd) as [Hd_in Hd_fqn].
    assert (Hgone : ¬ edge_rel (without_edge (store s) (Lineage.id e))
                       (Dataset.id u) (Dataset.id d)).
    { unfold edge_rel. rewrite edges_of_without_edge by done. rewrite Hpair. tauto. }
    eexists _, _. split_and!.
    + by apply (get_dataset_lineage_Ok _ _ u).
    + by apply (get_dataset_lineage_Ok _ _ d).
    + simpl. intros (n & Hn & (d' & Hd' & Hedge & ->)%elem_of_downstream_nodes)%list_elem_of_fmap;
        [|done].
      simpl in Hn.
      assert (d' = d) as -> by (eapply (consistent_same_fqn (store s)); eauto; congruence).
      done.
    + simpl. intros (n & Hn & (u' & Hu' & Hedge & ->)%elem_of_upstream_nodes)%list_elem_of_fmap;
        [|done].
      simpl in Hn.
      assert (u' = u) as -> by (eapply (consistent_same_fqn (store s)); eauto; congruence).
      done.
  - intros db' other view Hrun Hview.
    pose proof (consistent_delete_dataset up (store s) Hdb) as Hdb'. rewrite Hrun in Hdb'.
    simpl in Hdb'. unfold delete_dataset in Hrun.
    destruct (find_dataset_by_fqn (store s) up) as [ds|] eqn:Hfind; [|done].
    injection Hrun as <-.
    pose proof (find_dataset_by_fqn_Some _ _ _ Hfind) as [Hds Hfqn].
    apply get_dataset_lineage_Ok_inv in Hview as (o & _ & -> & ->).
    assert (Hno : ∀ x, x ∈ datasets (delete_dataset_cascade (store s) ds) →
                       Dataset.fqn x ≠ up).
    { simpl. intros x [Hne Hx]%list_elem_of_filter Hxf. apply Hne. f_equal.
      eapply (consistent_same_fqn (store s)); eauto. congruence. }
    split.
    + intros (n & Hn & (x & Hx & _ & ->)%elem_of_upstream_nodes)%list_elem_of_fmap; [|done].
      by apply (Hno x).
    + intros (n & Hn & (x & Hx & _ & ->)%elem_of_downstream_nodes)%list_elem_of_fmap; [|done].
      by apply (Hno x).
Qed.

End LineageViewEditFacts.

(* ===================================================================== *)
(** * The dataset and lineage scenarios of the test suite, continued      *)
(* ===================================================================== *)

Module CatalogScenarios.
Import PyStr Orm Schemas Graph GraphFacts.
Import DatasetService LineageService SearchService.
Import SearchFacts LineageFacts DatasetFacts Scenarios.
Import OrmContinued SchemasContinued DatasetServiceContinued LineageServiceContinued.
Import CatalogInvariants DatasetLifecycleFacts LineageViewFacts SchemaFacts.
Import LineageViewEditFacts.

(** ** A catalog built through the services *)

Definition column (name data_type : string) : ColumnBase.t :=
  {| ColumnBase.name := name; ColumnBase.data_type := data_type;
     ColumnBase.description := None |}.

Definition layer (schema table : string) (columns : list ColumnBase.t) : DatasetCreate.t :=
  {| DatasetCreate.connection_name := "sf";
     DatasetCreate.database_name := "bi";
     DatasetCreate.schema_name := schema;
     DatasetCreate.table_name := table;
     DatasetCreate.source_system := SNOWFLAKE;
     DatasetCreate.description := None;
     DatasetCreate.columns := columns |}.

(** The fixture [three_layer] of tests/test_lineage.py, made by the calls
    the fixture makes. *)
Definition three_layer_calls : list service_call :=
  [CallCreateDataset (layer "bronze" "orders_raw" [column "order_id" "INT"; column "amount" "float"]);
   CallCreateDataset (layer "silver" "orders_clean" [column "order_id" "INT"]);
   CallCreateDataset (layer "gold" "orders_aggregated" []);
   CallAddLineage raw_fqn clean_fqn;
   CallAddLineage clean_fqn agg_fqn].

Definition three_layer_catalog : database := fold_left serve three_layer_calls empty_database.

Lemma three_layer_catalog_consistent : consistent three_layer_catalog.
Proof. apply consistent_serve_all, consistent_empty. Qed.

Example three_layer_catalog_rows :
  Dataset.fqn <$> datasets three_layer_catalog = [raw_fqn; clean_fqn; agg_fqn] ∧
  column_fields <$> dataset_columns three_layer_catalog
    = [("order_id", "INT", None); ("amount", "FLOAT", None); ("order_id", "INT", None)] ∧
  edges_of three_layer_catalog = [(1, 2); (2, 3)].
Proof. vm_compute. done. Qed.

(** ** tests/test_lineage.py: the lineage view *)

Definition neighbours_of (db : database) (fqn : string) : option (list string * list string) :=
  match get_dataset_lineage db fqn with
  | Ok view =>
      Some (LineageNodeResponse.fqn <$> DatasetLineageResponse.upstream_datasets view,
            LineageNodeResponse.fqn <$> DatasetLineageResponse.downstream_datasets view)
  | Raise _ => None
  end.

Example test_upstream_and_downstream :
  neighbours_of three_layer_catalog clean_fqn = Some ([raw_fqn], [agg_fqn]).
Proof. vm_compute. reflexivity. Qed.

Example test_root_node_has_no_upstream :
  neighbours_of three_layer_catalog raw_fqn = Some ([], [clean_fqn]).
Proof. vm_compute. reflexivity. Qed.

Example test_leaf_node_has_no_downstream :
  neighbours_of three_layer_catalog agg_fqn = Some ([clean_fqn], []).
Proof. vm_compute. reflexivity. Qed.

Example test_lineage_nonexistent_dataset_returns_404 :
  LineageRouterContinued.get_lineage "no.such.thing.here" three_layer_catalog
  = DatasetsRouter.HTTPException 404 "Dataset 'no.such.thing.here' not found.".
Proof. vm_compute. reflexivity. Qed.

Example test_delete_edge :
  let answer := LineageRouterContinued.remove_lineage (Some raw_fqn) (Some clean_fqn)
                  (Session three_layer_catalog []) in
  answer.1 = DatasetsRouter.Respond 204 tt ∧
  neighbours_of (store answer.2) clean_fqn = Some ([], [agg_fqn]).
Proof. vm_compute. done. Qed.

Example test_delete_nonexistent_edge_returns_404 :
  (LineageRouterContinued.remove_lineage (Some agg_fqn) (Some raw_fqn)
     (Session three_layer_catalog [])).1
  = DatasetsRouter.HTTPException 404 (edge_missing_message agg_fqn raw_fqn).
Proof. vm_compute. reflexivity. Qed.

(** A request without one of the two required parameters is refused
    before the endpoint function is called. *)
Example delete_edge_without_downstream :
  LineageRouterContinued.remove_lineage (Some raw_fqn) None (Session three_layer_catalog [])
  = (DatasetsRouter.RequestValidationError [DatasetsRouter.Missing "downstream_fqn"],
     Session three_layer_catalog []).
Proof. reflexivity. Qed.

(** Scenario D: deleting the middle dataset takes both of its edges and
    its column with it, and leaves the two other datasets unlinked. *)
Example scenario_D_delete_cascades :
  let db := (delete_dataset clean_fqn three_layer_catalog).2 in
  Dataset.fqn <$> datasets db = [raw_fqn; agg_fqn] ∧
  edges_of db = [] ∧
  column_fields <$> dataset_columns db
    = [("order_id", "INT", None); ("amount", "FLOAT", None)] ∧
  neighbours_of db raw_fqn = Some ([], []) ∧
  neighbours_of db agg_fqn = Some ([], []).
Proof. vm_compute. done. Qed.

(** ** tests/test_datasets.py *)

Definition new_col_update : RequestBody.dataset_update :=
  {| RequestBody.update_source_system := None;
     RequestBody.update_description := None;
     RequestBody.update_columns :=
       Some [ {| RequestBody.name := RequestBody.Str "new_col";
                 RequestBody.data_type := Some "varchar";
                 RequestBody.description := None |} ] |}.

Definition answered_columns (r : DatasetsRouter.response DatasetResponse.t)
  : option (Z * list string) :=
  match r with
  | DatasetsRouter.Respond status_code content =>
      Some (status_code, ColumnResponse.name <$> DatasetResponse.columns content)
  | _ => None
  end.

Example test_update_columns_replaces_list :
  answered_columns (DatasetsRouter.update_dataset raw_fqn new_col_update three_layer_catalog).1
  = Some (200, ["new_col"]).
Proof. vm_compute. reflexivity. Qed.

Example test_update_nonexistent_returns_404 :
  (DatasetsRouter.update_dataset "no.such.dataset.here" new_col_update three_layer_catalog).1
  = DatasetsRouter.HTTPException 404 "Dataset 'no.such.dataset.here' not found.".
Proof. vm_compute. reflexivity. Qed.

Example test_delete_success :
  let answer := DatasetsRouter.delete_dataset raw_fqn three_layer_catalog in
  answer.1 = DatasetsRouter.Respond 204 tt ∧
  DatasetsRouter.get_dataset raw_fqn answer.2
  = DatasetsRouter.HTTPException 404 ("Dataset '" +:+ raw_fqn +:+ "' not found.").
Proof. vm_compute. done. Qed.

Example test_list_returns_all :
  match DatasetsRouter.list_datasets String.leb three_layer_catalog None None with
  | inr page => DatasetResponse.fqn <$> page = [raw_fqn; agg_fqn; clean_fqn]
  | inl _ => False
  end.
Proof. vm_compute. reflexivity. Qed.

(** Two columns of one name pass validation and are refused by the store:
    the endpoint then answers 500. *)
Definition twice_the_column : RequestBody.dataset_update :=
  {| RequestBody.update_source_system := None;
     RequestBody.update_description := None;
     RequestBody.update_columns :=
       Some [ {| RequestBody.name := RequestBody.Str "id";
                 RequestBody.data_type := None;
                 RequestBody.description := None |};
              {| RequestBody.name := RequestBody.Str " id ";
                 RequestBody.data_type := None;
                 RequestBody.description := None |} ] |}.

Example update_with_repeated_column :
  DatasetsRouter.update_dataset raw_fqn twice_the_column three_layer_catalog
  = (DatasetsRouter.InternalServerError, three_layer_catalog).
Proof. vm_compute. reflexivity. Qed.

(** A column name that is not a string, as in [{"name": 5}], is given to
    [strip_name] as it is: the answer is 500 whether or not the dataset
    exists. *)
Definition numeric_column_name : RequestBody.dataset_update :=
  {| RequestBody.update_source_system := None;
     RequestBody.update_description := None;
     RequestBody.update_columns :=
       Some [ {| RequestBody.name := RequestBody.NotStr;
                 RequestBody.data_type := None;
                 RequestBody.description := None |} ] |}.

Example update_with_numeric_column_name :
  DatasetsRouter.update_dataset raw_fqn numeric_column_name three_layer_catalog
  = (DatasetsRouter.InternalServerError, three_layer_catalog) ∧
  DatasetsRouter.update_dataset "no.such.dataset.here" numeric_column_name three_layer_catalog
  = (DatasetsRouter.InternalServerError, three_layer_catalog).
Proof. split; reflexivity. Qed.

(** [POST /datasets] with the body of the fixture, and again. *)
Definition orders_raw_body : RequestBody.dataset_create :=
  {| RequestBody.create_connection_name := RequestBody.Str "Snowflake_Prod";
     RequestBody.create_database_name := RequestBody.Str "bi_team";
     RequestBody.create_schema_name := RequestBody.Str "bronze";
     RequestBody.create_table_name := RequestBody.Str " orders_raw ";
     RequestBody.create_source_system := Some SNOWFLAKE;
     RequestBody.create_description := None;
     RequestBody.create_columns :=
       [ {| RequestBody.name := RequestBody.Str "order_id";
            RequestBody.data_type := Some "int";
            RequestBody.description := None |};
         {| RequestBody.name := RequestBody.Str "customer_id";
            RequestBody.data_type := Some "int";
            RequestBody.description := None |} ] |}.

Definition answered (r : DatasetsRouter.response DatasetResponse.t)
  : option (Z * string * list (string * string)) :=
  match r with
  | DatasetsRouter.Respond status_code content =>
      Some (status_code, DatasetResponse.fqn content,
            (fun c => (ColumnResponse.name c, ColumnResponse.data_type c))
              <$> DatasetResponse.columns content)
  | _ => None
  end.

Example test_create_success :
  answered (DatasetsRouter.create_dataset orders_raw_body (Session empty_database [])).1
  = Some (201, "snowflake_prod.bi_team.bronze.orders_raw",
          [("order_id", "INT"); ("customer_id", "INT")]).
Proof. vm_compute. reflexivity. Qed.

Example test_duplicate_fqn_rejected :
  let created := (DatasetsRouter.create_dataset orders_raw_body (Session empty_database [])).2 in
  (DatasetsRouter.create_dataset orders_raw_body created).1
  = DatasetsRouter.HTTPException 409
      "Dataset 'snowflake_prod.bi_team.bronze.orders_raw' already exists.".
Proof. vm_compute. reflexivity. Qed.

(** ** The facts above at work *)

Lemma add_then_remove_restores_witness :
  ∃ s2, remove_lineage raw_fqn clean_fqn (add_lineage raw_fqn clean_fqn three_layer).2
        = (Ok tt, s2) ∧
        lineage (store s2) = lineage (store three_layer) ∧
        datasets (store s2) = datasets (store three_layer) ∧
        dataset_columns (store s2) = dataset_columns (store three_layer) ∧
        build_adjacency (edges_of (store s2)) = build_adjacency (edges_of (store three_layer)).
Proof.
  apply (add_then_remove_restores three_layer
           (add_lineage raw_fqn clean_fqn three_layer).2 raw_fqn clean_fqn
           {| Lineage.id := 1; Lineage.upstream_id := 1; Lineage.downstream_id := 2 |}).
  - intros e' He'. simpl in He'. by apply elem_of_nil in He'.
  - vm_compute. reflexivity.
Defined.

Lemma search_result_carries_lineage_view_witness :
  length (SearchResponse.results
            (search_datasets sample_ilike three_layer_catalog "orders" 50)) = 3%nat ∧
  Forall (fun r =>
            ∃ view, get_dataset_lineage three_layer_catalog (result_fqn r) = Ok view ∧
              DatasetLineageResponse.dataset view = SearchResultItem.dataset r ∧
              DatasetLineageResponse.upstream_datasets view
                = SearchResultItem.upstream_datasets r ∧
              DatasetLineageResponse.downstream_datasets view
                = SearchResultItem.downstream_datasets r)
         (SearchResponse.results
            (search_datasets sample_ilike three_layer_catalog "orders" 50)).
Proof.
  split; [vm_compute; reflexivity|].
  apply Forall_forall. intros r Hr.
  apply (search_result_carries_lineage_view sample_ilike three_layer_catalog "orders" 50 r).
  - exact three_layer_catalog_consistent.
  - exact Hr.
Defined.

Lemma validated_dataset_is_canonical_witness :
  DatasetCreate.validate orders_request = inr orders_payload ∧
  7 ≤ len (DatasetCreate.fqn orders_payload) ≤ 515 ∧
  DatasetCreate.validate (dataset_dump orders_payload) = inr orders_payload.
Proof.
  assert (Hvalid : DatasetCreate.validate orders_request = inr orders_payload)
    by (vm_compute; reflexivity).
  destruct (validated_dataset_is_canonical orders_request orders_payload Hvalid)
    as (_ & _ & _ & [_ Hlen] & Hagain).
  split_and!; [exact Hvalid|apply Hlen..|exact Hagain].
Defined.

Lemma lineage_view_follows_edits_witness :
  consistent three_layer_catalog ∧
  ∃ vu vd,
    get_dataset_lineage
      (store (add_lineage raw_fqn agg_fqn (Session three_layer_catalog [])).2) raw_fqn
      = Ok vu ∧
    get_dataset_lineage
      (store (add_lineage raw_fqn agg_fqn (Session three_layer_catalog [])).2) agg_fqn
      = Ok vd ∧
    agg_fqn ∈ LineageNodeResponse.fqn <$> DatasetLineageResponse.downstream_datasets vu ∧
    raw_fqn ∈ LineageNodeResponse.fqn <$> DatasetLineageResponse.upstream_datasets vd.
Proof.
  split; [exact three_layer_catalog_consistent|].
  destruct (lineage_view_follows_edits (Session three_layer_catalog []) raw_fqn agg_fqn
              three_layer_catalog_consistent) as (Hadd & _ & _).
  apply (Hadd {| Lineage.id := 3; Lineage.upstream_id := 1; Lineage.downstream_id := 3 |}).
  vm_compute. reflexivity.
Defined.

End CatalogScenarios.

(* ===================================================================== *)
(** * app/config.py                                                       *)
(* ===================================================================== *)

Module Config.
Import PyStr Schemas.

(** [v.startswith(prefix)]. *)
Definition startswith (v prefix : string) : bool := String.prefix prefix v.

(** [Settings.validate_database_url]. *)
Definition validate_database_url (v : string) : list issue + string :=
  if startswith v "mysql+pymysql://" || startswith v "mysql+mysqlconnector://"
  then inr v
  else inl [ValueError "Only MySQL is supported. Use 'mysql+pymysql://' scheme."].

(** [Settings.is_production], as a function of [environment]. *)
Definition is_production (environment : string) : bool :=
  bool_decide (lower environment ∈ ["production"; "prod"]).

End Config.

Module ConfigFacts.
Import PyStr PyStrFacts Config Schemas.

Lemma startswith_spec (v prefix : string) :
  startswith v prefix = true ↔ ∃ rest, v = prefix +:+ rest.
Proof.
  unfold startswith. revert v. induction prefix as [|c prefix IH]; intros v.
  - destruct v; simpl; split; eauto.
  - destruct v as [|d v]; simpl.
    + split; [done|]. by intros [rest ?].
    + destruct (Ascii.ascii_dec c d) as [->|Hne].
      * rewrite IH. split; intros [rest Hrest]; exists rest.
        -- by rewrite Hrest.
        -- change (String d prefix +:+ rest) with (String d (prefix +:+ rest)) in Hrest.
           by injection Hrest.
      * split; [done|]. intros [rest Hrest].
        change (String c prefix +:+ rest) with (String c (prefix +:+ rest)) in Hrest.
        injection Hrest as -> _. done.
Qed.

(** [s.isascii()]: every character of [s] is in the ASCII range, the
    range on which the case maps of [PyStr] are those of [str]. *)
Definition isascii (s : string) : bool :=
  forallb (fun c => (code c <? 128)%N) (String.list_ascii_of_string s).

Lemma lower_char_upper_char (c : Ascii.ascii) :
  (code c <? 128)%N = true → lower_char (upper_char c) = lower_char c.
Proof. by destruct c as [[] [] [] [] [] [] [] []]. Qed.

Lemma lower_upper (s : string) : isascii s = true → lower (upper s) = lower s.
Proof.
  unfold isascii, lower, upper. induction s as [|c s IH]; simpl; [done|].
  intros [Hc Hs]%andb_true_iff. by rewrite lower_char_upper_char, IH.
Qed.

(** X18.  The settings.  [validate_database_url] accepts a URL exactly
    when it begins with one of the two MySQL schemes, written in lower
    case, and gives an accepted URL back unchanged.  [is_production] holds
    exactly when the environment name, lower-cased, is [production] or
    [prod]: lower-casing the name first changes nothing, a name in the
    ASCII range may be written in upper case as well, and the name is not
    trimmed. *)
Theorem settings_checks (v environment : string) :
  (validate_database_url v = inr v ↔
   ∃ rest, v = "mysql+pymysql://" +:+ rest ∨ v = "mysql+mysqlconnector://" +:+ rest) ∧
  (∀ v', validate_database_url v = inr v' → v' = v) ∧
  (is_production environment = true ↔
   lower environment = "production" ∨ lower environment = "prod") ∧
  (isascii environment = true →
   is_production (upper environment) = is_production environment) ∧
  is_production (lower environment) = is_production environment ∧
  is_production (" " +:+ environment) = false.
Proof.
  split_and!.
  - unfold validate_database_url.
    destruct (startswith v "mysql+pymysql://") eqn:H1; simpl.
    + split; [|done]. intros _. apply startswith_spec in H1 as [rest ->]. eauto.
    + destruct (startswith v "mysql+mysqlconnector://") eqn:H2.
      * split; [|done]. intros _. apply startswith_spec in H2 as [rest ->]. eauto.
      * split; [done|]. intros [rest [Hv|Hv]].
        -- assert (startswith v "mysql+pymysql://" = true)
             by (apply startswith_spec; eauto). congruence.
        -- assert (startswith v "mysql+mysqlconnector://" = true)
             by (apply startswith_spec; eauto). congruence.
  - intros v'. unfold validate_database_url. destruct (_ || _); [|done]. by intros [= <-].
  - unfold is_production. rewrite bool_decide_eq_true, !elem_of_cons, elem_of_nil. tauto.
  - intros Hascii. unfold is_production. by rewrite lower_upper.
  - unfold is_production. by rewrite SchemaFacts.lower_idemp.
  - unfold is_production. apply bool_decide_eq_false.
    rewrite !elem_of_cons, elem_of_nil. intros [H|[H|[]]]; discriminate H.
Qed.

(** The environment names of a deployment, in the spellings met in
    practice. *)
Example production_names :
  is_production "production" = true ∧ is_production "Prod" = true ∧
  is_production "PRODUCTION" = true ∧ is_production "development" = false ∧
  is_production "prod " = false.
Proof. vm_compute. done. Qed.

End ConfigFacts.
